(** * event-lib: events, listeners and the layer stack

    A shallow embedding of the C++ library [ae] (Event.h, Event.cpp,
    EventManager.cpp, EventListener.cpp, Layer.h, LayerStack.cpp) and the
    verification of its specification against it, followed by further
    properties of the code.

    Conventions of the embedding.
    - Fixed-width unsigned integers are values of [Z]; every conversion that
      the C++ performs ([static_cast<uint8_t>], the implicit narrowing to a
      [uint16_t] parameter, [++] on a [uint32_t]) is written as a reduction
      modulo the corresponding power of two.
    - A pointer is [option addr]: [None] is [nullptr].
    - Objects reached through pointers (layers, listeners) live in a store
      that is threaded through the functions.
    - Virtual hooks and [std::function] callbacks are user code: they are
      parameters of the model, arbitrary state transformers. *)

From Stdlib Require Import ZArith Znumtheory Lia Bool.
From stdpp Require Import base tactics option list functions gmap strings.

Local Open Scope Z_scope.

Set Warnings "-clear-no-such-hyp".

(** ** Machine integers *)

Definition static_cast_uint8 (z : Z) : Z := z mod 2 ^ 8.
Definition static_cast_uint16 (z : Z) : Z := z mod 2 ^ 16.
Definition static_cast_uint32 (z : Z) : Z := z mod 2 ^ 32.

(** ** Pointers *)

Definition addr := positive.
Definition ptr := option addr.
Definition nullptr : ptr := None.

(** ** Event.h: [enum class EventType : uint16_t] *)

Module EventType.

Inductive t :=
| NONE
| KEY_PRESSED | KEY_RELEASED | KEY_TYPED
| MOUSE_BUTTON_PRESSED | MOUSE_BUTTON_RELEASED | MOUSE_MOVED
| MOUSE_SCROLLED | MOUSE_ENTERED | MOUSE_EXITED
| WINDOW_RESIZE | WINDOW_MINIMIZED | WINDOW_MAXIMIZED | WINDOW_RESTORED
| WINDOW_MOVED | WINDOW_FOCUSED | WINDOW_CLOSE | FRAMEBUFFER_RESIZE
| CONTENT_SCALE_CHANGED | FILE_DROP
| CONTROLLER_CONNECTED | CONTROLLER_DISCONNECTED
| APP_UPDATE | APP_RENDER
| CUSTOM_START.

Definition value (e : t) : Z :=
  match e with
  | NONE => 0
  | KEY_PRESSED => 100 | KEY_RELEASED => 101 | KEY_TYPED => 102
  | MOUSE_BUTTON_PRESSED => 200 | MOUSE_BUTTON_RELEASED => 201
  | MOUSE_MOVED => 202 | MOUSE_SCROLLED => 203
  | MOUSE_ENTERED => 204 | MOUSE_EXITED => 205
  | WINDOW_RESIZE => 300 | WINDOW_MINIMIZED => 301 | WINDOW_MAXIMIZED => 302
  | WINDOW_RESTORED => 303 | WINDOW_MOVED => 304 | WINDOW_FOCUSED => 305
  | WINDOW_CLOSE => 306 | FRAMEBUFFER_RESIZE => 307
  | CONTENT_SCALE_CHANGED => 308 | FILE_DROP => 309
  | CONTROLLER_CONNECTED => 400 | CONTROLLER_DISCONNECTED => 401
  | APP_UPDATE => 500 | APP_RENDER => 501
  | CUSTOM_START => 1000
  end.

End EventType.

(** ** Event.h: [enum class EventCategory : uint8_t] *)

Module EventCategory.

Inductive t :=
| NONE | INPUT | KEYBOARD | MOUSE | CONTROLLER | WINDOW | APPLICATION | CUSTOM.

Definition value (c : t) : Z :=
  match c with
  | NONE => 0
  | INPUT => Z.shiftl 1 0
  | KEYBOARD => Z.shiftl 1 1
  | MOUSE => Z.shiftl 1 2
  | CONTROLLER => Z.shiftl 1 3
  | WINDOW => Z.shiftl 1 4
  | APPLICATION => Z.shiftl 1 5
  | CUSTOM => Z.shiftl 1 6
  end.

End EventCategory.

(** ** Event.h: [class EventCategoryWrapper]

    The wrapper holds one [uint8_t].  The operands of [|], [&] and [~] are
    promoted to [int]; the result is cast back to [uint8_t]. *)

Module EventCategoryWrapper.

Record t := mk { m_Value : Z }.

(** [EventCategoryWrapper()] *)
Definition default : t := mk 0.

(** [EventCategoryWrapper(EventCategory category)] *)
Definition of_category (category : EventCategory.t) : t :=
  mk (static_cast_uint8 (EventCategory.value category)).

(** [operator==] and [operator!=] *)
Definition eq (a other : t) : bool :=
  m_Value a =? m_Value other.
Definition ne (a other : t) : bool :=
  negb (m_Value a =? m_Value other).

(** [operator|], [operator&], [operator~] *)
Definition or (a other : t) : t :=
  mk (static_cast_uint8 (Z.lor (m_Value a) (m_Value other))).
Definition and (a other : t) : t :=
  mk (static_cast_uint8 (Z.land (m_Value a) (m_Value other))).
Definition not (a : t) : t :=
  mk (static_cast_uint8 (Z.lnot (m_Value a))).

(** The free operators on two [EventCategory] values. *)
Definition or_category (a b : EventCategory.t) : t :=
  or (of_category a) (of_category b).
Definition and_category (a b : EventCategory.t) : t :=
  and (of_category a) (of_category b).

(** The masks a program can build: from the flag constants through the
    class's constructors and operators. *)
Inductive built : t -> Prop :=
| built_default : built default
| built_category c : built (of_category c)
| built_or a b : built a -> built b -> built (or a b)
| built_and a b : built a -> built b -> built (and a b)
| built_not a : built a -> built (not a).

Definition NONE : t := of_category EventCategory.NONE.

(** [operator|=] and [operator&=]: the object after the assignment.  The
    operands are promoted to [int] and the result is converted back to the
    [uint8_t] member. *)
Definition or_assign (a other : t) : t :=
  mk (static_cast_uint8 (Z.lor (m_Value a) (m_Value other))).
Definition and_assign (a other : t) : t :=
  mk (static_cast_uint8 (Z.land (m_Value a) (m_Value other))).

End EventCategoryWrapper.

Declare Scope mask_scope.
Delimit Scope mask_scope with mask.
Bind Scope mask_scope with EventCategoryWrapper.t.
Infix "|'" := EventCategoryWrapper.or (at level 50, left associativity) : mask_scope.
Infix "&'" := EventCategoryWrapper.and (at level 40, left associativity) : mask_scope.
Notation "~' a" := (EventCategoryWrapper.not a) (at level 35, right associativity) : mask_scope.
Infix "=='" := EventCategoryWrapper.eq (at level 70, no associativity) : mask_scope.

(** ** Event.h: [class Event]

    The envelope stores its kind id in a [uint16_t].  Both constructors take
    the id as a [uint16_t] parameter, so an argument of a wider type (the
    [uint32_t] that [EventTypeId<T>::Get()] returns) is narrowed on the way
    in. *)

Module Event.

Record t := mk {
  m_TypeId : Z;
  m_Categories : EventCategoryWrapper.t;
  m_Consumed : bool
}.

(** [Event(uint16_t typeId, EventCategoryWrapper categories)] *)
Definition make (typeId : Z) (categories : EventCategoryWrapper.t) : t :=
  mk (static_cast_uint16 typeId) categories false.

(** [Event(uint16_t typeId, EventCategory category)] *)
Definition make_category (typeId : Z) (category : EventCategory.t) : t :=
  mk (static_cast_uint16 typeId) (EventCategoryWrapper.of_category category) false.

Definition Consume (e : t) : t := mk (m_TypeId e) (m_Categories e) true.
Definition IsConsumed (e : t) : bool := m_Consumed e.
Definition GetTypeId (e : t) : Z := m_TypeId e.
Definition GetCategory (e : t) : EventCategoryWrapper.t := m_Categories e.

Definition IsInCategory (e : t) (category : EventCategory.t) : bool :=
  EventCategoryWrapper.ne
    (EventCategoryWrapper.and (m_Categories e)
       (EventCategoryWrapper.of_category category))
    (EventCategoryWrapper.of_category EventCategory.NONE).

(** [event.m_Consumed = false], what the friend class [EventManager] does
    before each callback. *)
Definition reset_consumed (e : t) : t := mk (m_TypeId e) (m_Categories e) false.

End Event.

(** ** Event.h: [detail::GetNextCustomEventId] and [EventTypeId<T>]

    A kind is one of the 23 event classes with an [EventTypeId]
    specialisation, or any other type [T] the program instantiates
    [EventTypeId<T>] with; the latter are numbered by [positive].

    The function-local statics are the state: the counter [s_NextId] of
    [GetNextCustomEventId] and, for every [T] whose [Get] has run, the
    initialised [s_Id] of [EventTypeId<T>::Get]. *)

Module EventTypeId.

Inductive builtin :=
| KeyPressedEvent | KeyReleasedEvent | KeyTypedEvent
| MouseButtonPressedEvent | MouseButtonReleasedEvent | MouseMovedEvent
| MouseScrolledEvent | MouseEnteredEvent | MouseExitedEvent
| WindowResizeEvent | WindowMinimizedEvent | WindowMaximizedEvent
| WindowRestoredEvent | WindowMovedEvent | WindowFocusedEvent
| WindowCloseEvent | FramebufferResizeEvent | ContentScaleChangedEvent
| FileDropEvent
| ControllerConnectedEvent | ControllerDisconnectedEvent
| UpdateEvent | RenderEvent.

(** The enumerator each specialisation returns. *)
Definition event_type (b : builtin) : EventType.t :=
  match b with
  | KeyPressedEvent => EventType.KEY_PRESSED
  | KeyReleasedEvent => EventType.KEY_RELEASED
  | KeyTypedEvent => EventType.KEY_TYPED
  | MouseButtonPressedEvent => EventType.MOUSE_BUTTON_PRESSED
  | MouseButtonReleasedEvent => EventType.MOUSE_BUTTON_RELEASED
  | MouseMovedEvent => EventType.MOUSE_MOVED
  | MouseScrolledEvent => EventType.MOUSE_SCROLLED
  | MouseEnteredEvent => EventType.MOUSE_ENTERED
  | MouseExitedEvent => EventType.MOUSE_EXITED
  | WindowResizeEvent => EventType.WINDOW_RESIZE
  | WindowMinimizedEvent => EventType.WINDOW_MINIMIZED
  | WindowMaximizedEvent => EventType.WINDOW_MAXIMIZED
  | WindowRestoredEvent => EventType.WINDOW_RESTORED
  | WindowMovedEvent => EventType.WINDOW_MOVED
  | WindowFocusedEvent => EventType.WINDOW_FOCUSED
  | WindowCloseEvent => EventType.WINDOW_CLOSE
  | FramebufferResizeEvent => EventType.FRAMEBUFFER_RESIZE
  | ContentScaleChangedEvent => EventType.CONTENT_SCALE_CHANGED
  | FileDropEvent => EventType.FILE_DROP
  | ControllerConnectedEvent => EventType.CONTROLLER_CONNECTED
  | ControllerDisconnectedEvent => EventType.CONTROLLER_DISCONNECTED
  | UpdateEvent => EventType.APP_UPDATE
  | RenderEvent => EventType.APP_RENDER
  end.

Inductive kind :=
| Builtin (b : builtin)
| Custom (T : positive).

Record statics := mkStatics {
  s_NextId : Z;
  s_Id : gmap positive Z
}.

(** Before any call: [s_NextId] is initialised to [CUSTOM_START]; no
    [s_Id] is initialised. *)
Definition initial : statics :=
  mkStatics (static_cast_uint32 (EventType.value EventType.CUSTOM_START)) ∅.

(** [return s_NextId++;] *)
Definition GetNextCustomEventId (st : statics) : Z * statics :=
  (s_NextId st, mkStatics (static_cast_uint32 (s_NextId st + 1)) (s_Id st)).

(** [EventTypeId<T>::Get()]: the specialisations return their enumerator;
    the primary template initialises its [s_Id] on the first call. *)
Definition Get (k : kind) (st : statics) : Z * statics :=
  match k with
  | Builtin b => (static_cast_uint32 (EventType.value (event_type b)), st)
  | Custom T =>
      match s_Id st !! T with
      | Some id => (id, st)
      | None =>
          let '(id, st') := GetNextCustomEventId st in
          (id, mkStatics (s_NextId st') (<[T := id]> (s_Id st')))
      end
  end.

(** The states a program reaches: by calls of [Get], from [initial]. *)
Inductive steps : statics -> statics -> Prop :=
| steps_refl st : steps st st
| steps_Get st st' k : steps st st' -> steps st (Get k st').2.

Definition reachable (st : statics) : Prop := steps initial st.

(** The id a kind has in a state: pinned for a built-in kind, the
    initialised [s_Id] for a custom one. *)
Definition id_of (st : statics) (k : kind) : option Z :=
  match k with
  | Builtin b => Some (static_cast_uint32 (EventType.value (event_type b)))
  | Custom T => s_Id st !! T
  end.

(** The number of custom kinds allocated so far. *)
Definition allocated (st : statics) : Z := Z.of_nat (size (s_Id st)).

(** [Get] over a list of requests, in order. *)
Definition run (ks : list kind) (st : statics) : statics :=
  foldl (fun st k => (Get k st).2) st ks.

(** [n] different custom kinds, numbered from [from] on. *)
Fixpoint custom_kinds (n : nat) (from : positive) : list kind :=
  match n with
  | O => []
  | S n => Custom from :: custom_kinds n (Pos.succ from)
  end.

(** The invariant of the statics.  The counter is the threshold plus the
    number of ids handed out, modulo 2^32; every value the counter went
    through is some kind's id; and as long as the counter has not wrapped,
    the ids lie in the custom range and are pairwise different. *)
Record inv (st : statics) : Prop := mkInv {
  inv_next : s_NextId st = static_cast_uint32 (1000 + allocated st);
  inv_cover : forall i, 0 <= i < allocated st ->
    exists T, s_Id st !! T = Some (static_cast_uint32 (1000 + i));
  inv_range : 1000 + allocated st <= 2 ^ 32 ->
    forall T id, s_Id st !! T = Some id -> 1000 <= id < 1000 + allocated st;
  inv_inj : 1000 + allocated st <= 2 ^ 32 ->
    forall T1 T2 id, s_Id st !! T1 = Some id -> s_Id st !! T2 = Some id -> T1 = T2
}.

End EventTypeId.

(** ** The logging facility *)

Module Log.

(** Modelled from the spec: the header [Log.h], which defines the macro
    [AE_LOG] and the levels, is not among the sources.  The spec describes
    the facility as a diagnostic sink, "called only for diagnostics on
    misuse", that "never affects control flow".  The levels are the three
    the sources use. *)
Inductive level := AE_TRACE | AE_INFO | AE_WARNING.

(** Modelled from the spec: what one call of the missing macro [AE_LOG]
    leaves in the sink, namely its level, its format string and the
    arguments of the format. *)
Record record := mk {
  lvl : level;
  format : string;
  args : list string
}.

End Log.

(** ** The process: the [EventManager] singleton and the listener objects

    [m_pListeners] is the member of the singleton [EventManager::Get()], an
    [std::unordered_set<EventListener *>].  An [EventListener] has one data
    member; [m_Callback s a] is that member of the listener at address [a].
    [std::function<void(Event &)>] is [option Callback]: [None] is the empty
    function ([nullptr]), [Some c] holds the callable target [c].  [user]
    is the rest of the program's state, which only callbacks touch. *)

Record process {Callback U : Type} := mkProcess {
  m_pListeners : gset ptr;
  m_Callback : addr -> option Callback;
  user : U;
  log : list Log.record
}.
Arguments process : clear implicits.
Arguments mkProcess {Callback U} _ _ _ _.

(** Modelled from the spec: the missing macro [AE_LOG(level, format,
    args...)] appends one record to the log and does nothing else. *)
Definition AE_LOG {Callback U : Type} (l : Log.level) (format : string)
    (args : list string) (s : process Callback U) : process Callback U :=
  mkProcess (m_pListeners s) (m_Callback s) (user s)
    (log s ++ [Log.mk l format args]).

Definition set_m_pListeners {Callback U : Type} (r : gset ptr)
    (s : process Callback U) : process Callback U :=
  mkProcess r (m_Callback s) (user s) (log s).

Definition set_m_Callback {Callback U : Type} (this : addr)
    (c : option Callback) (s : process Callback U) : process Callback U :=
  mkProcess (m_pListeners s) (<[this := c]> (m_Callback s)) (user s) (log s).

(** ** EventManager.cpp *)

Module EventManager.

Section WithBuild.

(** [AE_DEBUG]: whether the build is a validated (debug) one. *)
Context (AE_DEBUG : bool).
Context {Callback U : Type}.

(** What invoking a callable target does: it gets the event by reference
    and may change it, the listeners' callbacks and the user state. *)
Context (call : Callback -> Event.t -> (addr -> option Callback) * U ->
                Event.t * ((addr -> option Callback) * U)).

(** The order in which a range-for visits an [unordered_set]: implementation
    defined, some enumeration of the elements. *)
Context (iteration : gset ptr -> list ptr).

Definition AddListener (pListener : ptr) (s : process Callback U)
    : process Callback U :=
  if AE_DEBUG && bool_decide (pListener = nullptr) then
    AE_LOG Log.AE_WARNING "Tried to add null EventListener to EventManager" [] s
  else if AE_DEBUG && bool_decide (pListener ∈ m_pListeners s) then
    AE_LOG Log.AE_WARNING
      "Tried to add EventListener that is already registered. This should not be possible and may be due to a library bug"
      [] s
  else
    set_m_pListeners ({[pListener]} ∪ m_pListeners s) s.

Definition RemoveListener (pListener : ptr) (s : process Callback U)
    : process Callback U :=
  if AE_DEBUG && bool_decide (pListener = nullptr) then
    AE_LOG Log.AE_WARNING "Tried to remove null EventListener from EventManager" [] s
  else if bool_decide (pListener ∉ m_pListeners s) then
    AE_LOG Log.AE_WARNING
      "Tried to remove EventListener from EventManager that was not registered. This should not be possible and may be due to a library bug"
      [] s
  else
    set_m_pListeners (m_pListeners s ∖ {[pListener]}) s.

(** One iteration of the loop of [DispatchEvent], as seen from outside:
    the handle, the callback read from it, and the event and the memory at
    that moment (for [Invoked], the event is as the callback received it). *)
Inductive visit :=
| Invoked (pListener : addr) (callback : Callback) (event : Event.t)
    (mem : (addr -> option Callback) * U)
| Skipped (pListener : addr) (mem : (addr -> option Callback) * U).

Definition visited (v : visit) : ptr :=
  match v with
  | Invoked pListener _ _ _ => Some pListener
  | Skipped pListener _ => Some pListener
  end.

(** The body of [DispatchEvent] over the handles still to visit.  The result
    is [None] when the loop dereferences a null handle (undefined
    behaviour); otherwise the event and the memory after the loop and the
    record of the iterations. *)
Fixpoint DispatchEvent_loop (todo : list ptr) (event : Event.t)
    (mem : (addr -> option Callback) * U)
    : option (Event.t * ((addr -> option Callback) * U) * list visit) :=
  match todo with
  | [] => Some (event, mem, [])
  | None :: _ => None
  | Some pListener :: todo =>
      match mem.1 pListener with
      | None =>
          '(event, mem', visits) ← DispatchEvent_loop todo event mem;
          Some (event, mem', Skipped pListener mem :: visits)
      | Some callback =>
          let event := Event.reset_consumed event in
          let '(event', mem') := call callback event mem in
          '(event', mem', visits) ← DispatchEvent_loop todo event' mem';
          Some (event', mem', Invoked pListener callback event mem :: visits)
      end
  end.

Definition DispatchEvent (event : Event.t) (s : process Callback U)
    : option (Event.t * process Callback U * list visit) :=
  '(event, mem, visits) ←
    DispatchEvent_loop (iteration (m_pListeners s)) event (m_Callback s, user s);
  Some (event, mkProcess (m_pListeners s) mem.1 mem.2 (log s), visits).

(** What a record of iterations says, read on its own: an [Invoked] entry is
    a handle whose callback was non-empty at that moment and which received
    an unconsumed event; a [Skipped] entry is a handle whose callback was
    empty at that moment. *)
Definition visit_ok (v : visit) : Prop :=
  match v with
  | Invoked pListener callback event mem =>
      mem.1 pListener = Some callback /\ Event.IsConsumed event = false
  | Skipped pListener mem => mem.1 pListener = None
  end.

(** The iterations follow one another: each starts from the event and the
    memory the one before left, a callback receives that event with the
    consumed flag cleared, a skipped handle changes nothing. *)
Fixpoint chained (before : Event.t * ((addr -> option Callback) * U))
    (visits : list visit) (after : Event.t * ((addr -> option Callback) * U))
    : Prop :=
  match visits with
  | [] => after = before
  | Invoked _ callback event mem :: visits =>
      mem = before.2 /\ event = Event.reset_consumed before.1
      /\ chained (call callback event mem) visits after
  | Skipped _ mem :: visits => mem = before.2 /\ chained before visits after
  end.

(** The handles whose callback ran, in the order in which they ran. *)
Definition invoked (visits : list visit) : list addr :=
  omap (fun v => match v with
                 | Invoked pListener _ _ _ => Some pListener
                 | Skipped _ _ => None
                 end) visits.

End WithBuild.

End EventManager.

(** ** Event.h and EventListener.cpp: [class EventListener]

    [this] and [other] are the addresses of the objects.  A moved-from
    [std::function] is left in an unspecified state; both move operations
    assign [nullptr] to it before anything reads it, so the model leaves
    it untouched in between. *)

Module EventListener.

(** The special member functions as Event.h declares them. *)
Inductive special_member :=
| DefaultConstructor | CallbackConstructor
| CopyConstructor | CopyAssignment
| MoveConstructor | MoveAssignment
| Destructor.

Inductive declaration := UserProvided | Deleted.

Definition declared (m : special_member) : declaration :=
  match m with
  | CopyConstructor | CopyAssignment => Deleted
  | _ => UserProvided
  end.

Section WithBuild.

Context (AE_DEBUG : bool).
Context {Callback U : Type}.

(** [EventListener()] *)
Definition constructor (this : addr) (s : process Callback U)
    : process Callback U :=
  let s := set_m_Callback this None s in
  EventManager.AddListener AE_DEBUG (Some this) s.

(** [EventListener(std::function<void(Event &)> callback)] *)
Definition constructor_callback (this : addr) (callback : option Callback)
    (s : process Callback U) : process Callback U :=
  let s := set_m_Callback this callback s in
  EventManager.AddListener AE_DEBUG (Some this) s.

(** [EventListener(EventListener &&other)] *)
Definition move_constructor (this other : addr) (s : process Callback U)
    : process Callback U :=
  let s := set_m_Callback this (m_Callback s other) s in
  let s := EventManager.RemoveListener AE_DEBUG (Some other) s in
  let s := EventManager.AddListener AE_DEBUG (Some this) s in
  set_m_Callback other None s.

(** [operator=(EventListener &&other)] *)
Definition move_assignment (this other : addr) (s : process Callback U)
    : process Callback U :=
  if bool_decide (this ≠ other) then
    let s := EventManager.RemoveListener AE_DEBUG (Some other) s in
    let s := set_m_Callback this (m_Callback s other) s in
    set_m_Callback other None s
  else s.

(** [~EventListener()] *)
Definition destructor (this : addr) (s : process Callback U)
    : process Callback U :=
  EventManager.RemoveListener AE_DEBUG (Some this) s.

Definition SetCallback (this : addr) (callback : option Callback)
    (s : process Callback U) : process Callback U :=
  set_m_Callback this callback s.

End WithBuild.

End EventListener.

(** [s'] is [s] after one warning was logged and nothing else happened. *)
Definition warned {Callback U : Type} (s s' : process Callback U) : Prop :=
  exists format args, s' = AE_LOG Log.AE_WARNING format args s.

(** A process in which nothing is registered yet, with callables numbered
    by [nat] and the list of the callables that ran as user state. *)
Definition idle : process nat (list nat) :=
  mkProcess ∅ (fun _ => None) [] [].

(** ** A broadcast, run *)

Module BroadcastExample.
Import EventManager.

(** Calling a callable consumes the event and appends the callable's number
    to the user state. *)
Definition call (callback : nat) (event : Event.t)
    (mem : (addr -> option nat) * list nat)
    : Event.t * ((addr -> option nat) * list nat) :=
  (Event.Consume event, (mem.1, mem.2 ++ [callback])).

(** Three listeners; the one at address 2 has an empty callback. *)
Definition three : process nat (list nat) :=
  EventListener.constructor_callback true 3%positive (Some 30%nat)
    (EventListener.constructor true 2%positive
       (EventListener.constructor_callback true 1%positive (Some 10%nat) idle)).

Definition key_pressed : Event.t :=
  Event.make (EventType.value EventType.KEY_PRESSED)
    (EventCategoryWrapper.or_category EventCategory.INPUT EventCategory.KEYBOARD).

End BroadcastExample.

(** ** Layer.h: [class Layer]

    A layer object has a name and an enabled flag.  Its six hooks are
    virtual: what they do is the derived class's business.  A hook acts on
    the world, which holds every layer object (a hook may call [SetEnabled]
    on any of them) and the rest of the program's state; [OnEvent] also
    gets the event by reference. *)

Module Layer.

Record t := mk { m_Name : string; m_Enabled : bool }.

(** [Layer(const std::string &name)] *)
Definition make (name : string) : t := mk name true.

Definition GetName (l : t) : string := m_Name l.
Definition IsEnabled (l : t) : bool := m_Enabled l.
Definition SetEnabled (enabled : bool) (l : t) : t := mk (m_Name l) enabled.

Record world {U : Type} := mkWorld {
  objects : addr -> t;
  user : U
}.
Arguments world : clear implicits.
Arguments mkWorld {U} _ _.

Record vtable {U double : Type} := mkVtable {
  OnAttach : world U -> world U;
  OnDetach : world U -> world U;
  OnEvent : Event.t -> world U -> Event.t * world U;
  OnUpdate : double -> world U -> world U;
  OnRender : world U -> world U;
  OnImGuiRender : world U -> world U
}.
Arguments vtable : clear implicits.
Arguments mkVtable {U double} _ _ _ _ _ _.

(** The hooks of [Layer] itself: empty bodies. *)
Definition base {U double : Type} : vtable U double :=
  mkVtable (fun w => w) (fun w => w) (fun event w => (event, w))
    (fun _ w => w) (fun w => w) (fun w => w).

(** A call of a hook, with its arguments. *)
Inductive hook {double : Type} :=
| AttachHook | DetachHook
| EventHook (event : Event.t)
| UpdateHook (deltaTime : double)
| RenderHook | ImGuiRenderHook.
Arguments hook : clear implicits.

(** The call, made: the world afterwards, and the call with its arguments
    as they are afterwards (the event is passed by reference). *)
Definition perform {U double : Type} (h : hook double) (v : vtable U double)
    (w : world U) : hook double * world U :=
  match h with
  | AttachHook => (h, OnAttach v w)
  | DetachHook => (h, OnDetach v w)
  | EventHook event =>
      let '(event, w) := OnEvent v event w in (EventHook event, w)
  | UpdateHook deltaTime => (h, OnUpdate v deltaTime w)
  | RenderHook => (h, OnRender v w)
  | ImGuiRenderHook => (h, OnImGuiRender v w)
  end.

End Layer.

(** ** Layer.h and LayerStack.cpp: [class LayerStack]

    The state is the stack's two members [m_Layers] and
    [m_LayerInsertIndex] (a [uint32_t]), the world the hooks act on, and the
    log.  The third member, [m_Listener], and the constructor that binds it
    to [OnEvent] connect the stack to the registry; nothing in this module
    depends on them, and they come in the module [Wiring] further down.

    Hooks are assumed not to call back into the stack's own
    [Push...]/[Pop...] (during a pass that would invalidate the iterators).

    Besides its result every function returns the record of the hook calls
    it made or passed over, each with the state at that moment: this is
    what makes the order of the calls a property one can state. *)

Module LayerStack.

Record t {U : Type} := mk {
  m_Layers : list ptr;
  m_LayerInsertIndex : Z;
  world : Layer.world U;
  log : list Log.record
}.
Arguments t : clear implicits.
Arguments mk {U} _ _ _ _.

Inductive step {U double : Type} :=
| Invoked (h : Layer.hook double) (pLayer : addr) (at_call : t U)
| Skipped (h : Layer.hook double) (pLayer : ptr) (at_call : t U).
Arguments step : clear implicits.

Definition entry {U double : Type} (st : step U double) : ptr :=
  match st with
  | Invoked _ pLayer _ => Some pLayer
  | Skipped _ pLayer _ => pLayer
  end.

Section WithBuild.

Context (AE_DEBUG : bool).
Context {U double : Type}.

(** The hooks of the object at each address. *)
Context (vptr : addr -> Layer.vtable U double).

Definition set_m_Layers (l : list ptr) (s : t U) : t U :=
  mk l (m_LayerInsertIndex s) (world s) (log s).
Definition set_m_LayerInsertIndex (i : Z) (s : t U) : t U :=
  mk (m_Layers s) i (world s) (log s).
Definition set_world (w : Layer.world U) (s : t U) : t U :=
  mk (m_Layers s) (m_LayerInsertIndex s) w (log s).

(** Modelled from the spec: the missing macro [AE_LOG(level, format,
    args...)] appends one record to the log and does nothing else. *)
Definition AE_LOG (l : Log.level) (format : string) (args : list string)
    (s : t U) : t U :=
  mk (m_Layers s) (m_LayerInsertIndex s) (world s)
    (log s ++ [Log.mk l format args]).

(** [pLayer->GetName()], [pLayer->IsEnabled()] *)
Definition GetName (pLayer : addr) (s : t U) : string :=
  Layer.GetName (Layer.objects (world s) pLayer).
Definition IsEnabled (pLayer : addr) (s : t U) : bool :=
  Layer.IsEnabled (Layer.objects (world s) pLayer).

(** [LayerStack()] in a given world: no entries, boundary 0. *)
Definition make (w : Layer.world U) (l : list Log.record) : t U := mk [] 0 w l.

(** [pLayer->Hook(args)] *)
Definition call (h : Layer.hook double) (pLayer : addr) (s : t U)
    : Layer.hook double * t U :=
  let '(h, w) := Layer.perform h (vptr pLayer) (world s) in (h, set_world w s).

(** [m_Layers.insert(m_Layers.begin() + i, pLayer)].  For [i] beyond the
    end the C++ is undefined; the model appends. *)
Definition vector_insert (i : nat) (pLayer : ptr) (l : list ptr) : list ptr :=
  take i l ++ pLayer :: drop i l.

Definition PushLayer (pLayer : ptr) (s : t U) : t U * list (step U double) :=
  match pLayer with
  | None => (AE_LOG Log.AE_WARNING "Tried to push null layer to LayerStack" [] s, [])
  | Some a =>
      if AE_DEBUG && bool_decide (pLayer ∈ m_Layers s) then
        (AE_LOG Log.AE_WARNING
           "Tried to push layer '{}' that is already in the stack" [GetName a s] s, [])
      else
        let s1 := set_m_Layers
                    (vector_insert (Z.to_nat (m_LayerInsertIndex s)) pLayer (m_Layers s)) s in
        let s2 := set_m_LayerInsertIndex
                    (static_cast_uint32 (m_LayerInsertIndex s1 + 1)) s1 in
        let s3 := (call Layer.AttachHook a s2).2 in
        (AE_LOG Log.AE_TRACE "Pushed layer: {}" [GetName a s3] s3,
         [Invoked Layer.AttachHook a s2])
  end.

(** [std::find] over [m_Layers.begin() + first, m_Layers.begin() + last):
    the position of the first element equal to [pLayer], if there is one. *)
Definition std_find (first last : nat) (pLayer : ptr) (l : list ptr) : option nat :=
  (fun r => first + r.1)%nat <$>
    list_find (fun x => x = pLayer) (take (last - first) (drop first l)).

Definition PopLayer (pLayer : ptr) (s : t U) : t U * list (step U double) :=
  match pLayer with
  | None => (AE_LOG Log.AE_WARNING "Tried to pop null layer from LayerStack" [] s, [])
  | Some a =>
      match std_find 0 (Z.to_nat (m_LayerInsertIndex s)) pLayer (m_Layers s) with
      | Some it =>
          let s1 := (call Layer.DetachHook a s).2 in
          let s2 := set_m_Layers (delete it (m_Layers s1)) s1 in
          let s3 := set_m_LayerInsertIndex
                      (static_cast_uint32 (m_LayerInsertIndex s2 - 1)) s2 in
          (AE_LOG Log.AE_TRACE "Popped layer: {}" [GetName a s3] s3,
           [Invoked Layer.DetachHook a s])
      | None =>
          (AE_LOG Log.AE_WARNING "Layer not found in stack: {}" [GetName a s] s, [])
      end
  end.

Definition PushOverlay (pOverlay : ptr) (s : t U) : t U * list (step U double) :=
  match pOverlay with
  | None => (AE_LOG Log.AE_WARNING "Tried to push null overlay to LayerStack" [] s, [])
  | Some a =>
      if AE_DEBUG && bool_decide (pOverlay ∈ m_Layers s) then
        (AE_LOG Log.AE_WARNING
           "Tried to push overlay '{}' that is already in the stack" [GetName a s] s, [])
      else
        let s1 := set_m_Layers (m_Layers s ++ [pOverlay]) s in
        let s2 := (call Layer.AttachHook a s1).2 in
        (AE_LOG Log.AE_TRACE "Pushed overlay: {}" [GetName a s2] s2,
         [Invoked Layer.AttachHook a s1])
  end.

Definition PopOverlay (pOverlay : ptr) (s : t U) : t U * list (step U double) :=
  match pOverlay with
  | None => (AE_LOG Log.AE_WARNING "Tried to pop null overlay from LayerStack" [] s, [])
  | Some a =>
      match std_find (Z.to_nat (m_LayerInsertIndex s)) (length (m_Layers s))
              pOverlay (m_Layers s) with
      | Some it =>
          let s1 := (call Layer.DetachHook a s).2 in
          let s2 := set_m_Layers (delete it (m_Layers s1)) s1 in
          (AE_LOG Log.AE_TRACE "Popped overlay: {}" [GetName a s2] s2,
           [Invoked Layer.DetachHook a s])
      | None =>
          (AE_LOG Log.AE_WARNING "Overlay not found in stack: {}" [GetName a s] s, [])
      end
  end.

(** The body the four passes share:
    [if (pLayer != nullptr && pLayer->IsEnabled()) pLayer->Hook(args);] *)
Definition visit (h : Layer.hook double) (pLayer : ptr) (s : t U)
    : Layer.hook double * t U * step U double :=
  match pLayer with
  | Some a =>
      if IsEnabled a s then (call h a s, Invoked h a s)
      else (h, s, Skipped h pLayer s)
  | None => (h, s, Skipped h pLayer s)
  end.

(** [for (auto *pLayer : reverse_view) { if (event.IsConsumed()) break; ... }]
    over the entries still to visit. *)
Fixpoint OnEvent_loop (todo : list ptr) (event : Event.t) (s : t U)
    : Event.t * t U * list (step U double) :=
  match todo with
  | [] => (event, s, [])
  | pLayer :: todo =>
      if Event.IsConsumed event then (event, s, [])
      else
        let '(h, s, st) := visit (Layer.EventHook event) pLayer s in
        let event := match h with Layer.EventHook event' => event' | _ => event end in
        let '(event, s, steps) := OnEvent_loop todo event s in
        (event, s, st :: steps)
  end.

Definition OnEvent (event : Event.t) (s : t U)
    : Event.t * t U * list (step U double) :=
  OnEvent_loop (reverse (m_Layers s)) event s.

(** [for (Layer *pLayer : m_Layers) { ... }] over the entries still to
    visit. *)
Fixpoint for_each (todo : list ptr) (h : Layer.hook double) (s : t U)
    : t U * list (step U double) :=
  match todo with
  | [] => (s, [])
  | pLayer :: todo =>
      let '(h, s, st) := visit h pLayer s in
      let '(s, steps) := for_each todo h s in
      (s, st :: steps)
  end.

Definition OnUpdate (deltaTime : double) (s : t U) : t U * list (step U double) :=
  for_each (m_Layers s) (Layer.UpdateHook deltaTime) s.

Definition OnRender (s : t U) : t U * list (step U double) :=
  for_each (m_Layers s) Layer.RenderHook s.

Definition OnImGuiRender (s : t U) : t U * list (step U double) :=
  for_each (m_Layers s) Layer.ImGuiRenderHook s.

(** What the program does with a stack. *)
Inductive operation :=
| DoPushLayer (pLayer : ptr) | DoPopLayer (pLayer : ptr)
| DoPushOverlay (pOverlay : ptr) | DoPopOverlay (pOverlay : ptr)
| DoOnEvent (event : Event.t) | DoOnUpdate (deltaTime : double)
| DoOnRender | DoOnImGuiRender
| Elsewhere (f : Layer.world U -> Layer.world U).

Definition execute (o : operation) (s : t U) : t U :=
  match o with
  | DoPushLayer pLayer => (PushLayer pLayer s).1
  | DoPopLayer pLayer => (PopLayer pLayer s).1
  | DoPushOverlay pOverlay => (PushOverlay pOverlay s).1
  | DoPopOverlay pOverlay => (PopOverlay pOverlay s).1
  | DoOnEvent event => (OnEvent event s).1.2
  | DoOnUpdate deltaTime => (OnUpdate deltaTime s).1
  | DoOnRender => (OnRender s).1
  | DoOnImGuiRender => (OnImGuiRender s).1
  | Elsewhere f => set_world (f (world s)) s
  end.

(** The states of a stack: from construction, by the member functions
    above.  The defaulted move operations are not among them; the move
    constructor is in the module [Wiring]. *)
Inductive reachable : t U -> Prop :=
| reachable_make w l : reachable (make w l)
| reachable_execute o s : reachable s -> reachable (execute o s).

(** The two partitions. *)
Definition layers (s : t U) : list ptr :=
  take (Z.to_nat (m_LayerInsertIndex s)) (m_Layers s).
Definition overlays (s : t U) : list ptr :=
  drop (Z.to_nat (m_LayerInsertIndex s)) (m_Layers s).

(** A record of a pass, read on its own: a hook is invoked on an entry that
    is enabled at that moment; an entry passed over is null or disabled at
    that moment. *)
Definition step_ok (st : step U double) : Prop :=
  match st with
  | Invoked _ pLayer s => IsEnabled pLayer s = true
  | Skipped _ pLayer s =>
      match pLayer with
      | Some a => IsEnabled a s = false
      | None => True
      end
  end.

(** In a pass of [OnEvent], the event each step found was not consumed. *)
Definition unconsumed (st : step U double) : Prop :=
  match st with
  | Invoked (Layer.EventHook event) _ _ | Skipped (Layer.EventHook event) _ _ =>
      Event.IsConsumed event = false
  | _ => False
  end.

(** The steps follow one another: each finds the arguments and the state
    the one before left; an invoked hook is performed, a step passed over
    changes nothing. *)
Fixpoint chained (h : Layer.hook double) (s : t U) (steps : list (step U double))
    (h' : Layer.hook double) (s' : t U) : Prop :=
  match steps with
  | [] => h' = h /\ s' = s
  | Invoked h0 a s0 :: steps =>
      h0 = h /\ s0 = s /\ chained (call h a s).1 (call h a s).2 steps h' s'
  | Skipped h0 _ s0 :: steps =>
      h0 = h /\ s0 = s /\ chained h s steps h' s'
  end.

(** Two states with the same stack members. *)
Definition same_stack (s s' : t U) : Prop :=
  m_Layers s' = m_Layers s /\ m_LayerInsertIndex s' = m_LayerInsertIndex s.

(** Only [OnEvent] has an argument a hook can change. *)
Definition plain (h : Layer.hook double) : Prop :=
  match h with Layer.EventHook _ => False | _ => True end.

(** [PushLayer]/[PushOverlay] goes through with [pLayer]: the pointer is not
    null and, in a validated build, not in the stack yet. *)
Definition accepts (pLayer : ptr) (s : t U) : bool :=
  match pLayer with
  | None => false
  | Some _ => negb (AE_DEBUG && bool_decide (pLayer ∈ m_Layers s))
  end.

(** [s'] is [s] after one warning was logged and nothing else happened. *)
Definition warned (s s' : t U) : Prop :=
  exists format args, s' = AE_LOG Log.AE_WARNING format args s.

(** The boundary is a [uint32_t] and does not exceed the length. *)
Definition boundary_ok (s : t U) : Prop :=
  0 <= m_LayerInsertIndex s < 2 ^ 32
  /\ m_LayerInsertIndex s <= Z.of_nat (length (m_Layers s)).


(** [~LayerStack()]:
    [for (Layer *pLayer : m_Layers) { if (pLayer != nullptr) pLayer->OnDetach(); }]
    over the entries still to visit.  The enabled flag is not read.  (The
    members are destroyed after the body; [m_Listener] is not part of this
    state.) *)
Fixpoint destructor_loop (todo : list ptr) (s : t U) : t U * list (step U double) :=
  match todo with
  | [] => (s, [])
  | pLayer :: todo =>
      let '(s1, st) :=
        match pLayer with
        | Some a => ((call Layer.DetachHook a s).2, Invoked Layer.DetachHook a s)
        | None => (s, Skipped Layer.DetachHook pLayer s)
        end in
      let '(s2, steps) := destructor_loop todo s1 in
      (s2, st :: steps)
  end.

Definition destructor (s : t U) : t U * list (step U double) :=
  destructor_loop (m_Layers s) s.

(** [Size()] and [Empty()] *)
Definition Size (s : t U) : Z := Z.of_nat (length (m_Layers s)).
Definition Empty (s : t U) : bool := bool_decide (m_Layers s = []).

End WithBuild.

End LayerStack.

(** ** A stack, run

    Three layer objects at the addresses 1, 2 and 3.  Every hook appends
    the address of its object and its own name to the user state; the
    [OnEvent] of the object at address 3 consumes the event.  In a
    validated build, 1 and 2 are pushed as layers and 3 as an overlay. *)

Module StackExample.
Import LayerStack.

Definition L1 : addr := 1%positive.
Definition L2 : addr := 2%positive.
Definition O : addr := 3%positive.

Definition note (a : addr) (hook : string) (w : Layer.world (list (addr * string)))
    : Layer.world (list (addr * string)) :=
  Layer.mkWorld (Layer.objects w) (Layer.user w ++ [(a, hook)]).

Definition vptr (a : addr) : Layer.vtable (list (addr * string)) Z :=
  Layer.mkVtable
    (note a "OnAttach") (note a "OnDetach")
    (fun event w =>
       (if Pos.eqb a O then Event.Consume event else event, note a "OnEvent" w))
    (fun _ => note a "OnUpdate") (note a "OnRender") (note a "OnImGuiRender").

Definition fresh : t (list (addr * string)) :=
  make (Layer.mkWorld (fun _ => Layer.make "Layer") []) [].

Definition three : t (list (addr * string)) :=
  execute true vptr (DoPushOverlay (Some O))
    (execute true vptr (DoPushLayer (Some L2))
       (execute true vptr (DoPushLayer (Some L1)) fresh)).

Definition key_pressed : Event.t :=
  Event.make (EventType.value EventType.KEY_PRESSED)
    (EventCategoryWrapper.or_category EventCategory.INPUT EventCategory.KEYBOARD).

End StackExample.

(** ** A client of the public headers

    [EventManager] is declared in an internal header: a client reaches the
    registry through the members of [EventListener] and through
    [Event::Dispatch] only. *)

Module Client.

Section WithBuild.

Context (AE_DEBUG : bool).
Context {Callback U : Type}.
Context (call : Callback -> Event.t -> (addr -> option Callback) * U ->
                Event.t * ((addr -> option Callback) * U)).
Context (iteration : gset ptr -> list ptr).

(** [Event::Dispatch()] (Event.cpp):
    [EventManager::Get().DispatchEvent( *this);] *)
Definition Dispatch (event : Event.t) (s : process Callback U)
    : option (Event.t * process Callback U * list EventManager.visit) :=
  EventManager.DispatchEvent call iteration event s.

Inductive operation :=
| Construct (this : addr)
| ConstructWith (this : addr) (callback : option Callback)
| MoveConstruct (this other : addr)
| MoveAssign (this other : addr)
| Destroy (this : addr)
| DoSetCallback (this : addr) (callback : option Callback)
| DoDispatch (event : Event.t).

(** One operation; [None] when a broadcast dereferences a null handle. *)
Definition execute (o : operation) (s : process Callback U)
    : option (process Callback U) :=
  match o with
  | Construct this => Some (EventListener.constructor AE_DEBUG this s)
  | ConstructWith this callback =>
      Some (EventListener.constructor_callback AE_DEBUG this callback s)
  | MoveConstruct this other =>
      Some (EventListener.move_constructor AE_DEBUG this other s)
  | MoveAssign this other =>
      Some (EventListener.move_assignment AE_DEBUG this other s)
  | Destroy this => Some (EventListener.destructor AE_DEBUG this s)
  | DoSetCallback this callback => Some (EventListener.SetCallback this callback s)
  | DoDispatch event => '(_, s', _) ← Dispatch event s; Some s'
  end.

Fixpoint run (os : list operation) (s : process Callback U)
    : option (process Callback U) :=
  match os with
  | [] => Some s
  | o :: os => s' ← execute o s; run os s'
  end.

(** The listener objects within their lifetime: a constructor begins one,
    the destructor ends one. *)
Definition alive_after (o : operation) (alive : gset addr) : gset addr :=
  match o with
  | Construct this | ConstructWith this _ | MoveConstruct this _ => {[this]} ∪ alive
  | Destroy this => alive ∖ {[this]}
  | MoveAssign _ _ | DoSetCallback _ _ | DoDispatch _ => alive
  end.

Definition alive_after_run (os : list operation) (alive : gset addr) : gset addr :=
  foldl (fun alive o => alive_after o alive) alive os.

(** What the broadcast of [event] in the state [s] does with the handle
    [a]: it invokes the callable [c] on it, with an unconsumed event; it
    goes over it without a call; it does not come to it at all. *)
Definition invokes (event : Event.t) (s : process Callback U) (a : addr)
    (c : Callback) : Prop :=
  exists event' s' visits e mem,
    Dispatch event s = Some (event', s', visits)
    /\ EventManager.Invoked a c e mem ∈ visits
    /\ Event.IsConsumed e = false.

Definition passes_over (event : Event.t) (s : process Callback U) (a : addr)
    : Prop :=
  exists event' s' visits,
    Dispatch event s = Some (event', s', visits)
    /\ Some a ∈ map EventManager.visited visits
    /\ a ∉ EventManager.invoked visits.

Definition leaves_out (event : Event.t) (s : process Callback U) (a : addr)
    : Prop :=
  exists event' s' visits,
    Dispatch event s = Some (event', s', visits)
    /\ Some a ∉ map EventManager.visited visits.

End WithBuild.

End Client.

(** ** The stack and the registry together

    A [LayerStack] owns an [EventListener], the member [m_Listener], and its
    constructor binds that listener to the stack's own [OnEvent].  Here the
    process holds stack objects: the user state of the registry's process is
    the heap of the stacks' members and the world the hooks act on.

    [m_Listener this] is the address of the member [m_Listener] of the stack
    object at [this].  The only callable targets are the lambdas the stack
    constructor creates, [[this](Event &event) { OnEvent(event); }]: such a
    lambda captures the pointer [this] by value, so [OnEventOf this] names
    it. *)

Module Wiring.

Inductive callable := OnEventOf (this : addr).

Record heap {U : Type} := mkHeap {
  members : addr -> list ptr * Z;
  world : Layer.world U
}.
Arguments heap : clear implicits.
Arguments mkHeap {U} _ _.

Section WithBuild.

Context (AE_DEBUG : bool).
Context {U double : Type}.
Context (vptr : addr -> Layer.vtable U double).
Context (iteration : gset ptr -> list ptr).
Context (m_Listener : addr -> addr).

(** The stack object at [this], seen as a state of [LayerStack], with the
    log [l]; and the heap after the object's members and the world were
    written back. *)
Definition stack_at (this : addr) (h : heap U) (l : list Log.record)
    : LayerStack.t U :=
  LayerStack.mk (members h this).1 (members h this).2 (world h) l.

Definition put (this : addr) (st : LayerStack.t U) (h : heap U) : heap U :=
  mkHeap (<[this := (LayerStack.m_Layers st, LayerStack.m_LayerInsertIndex st)]>
            (members h))
         (LayerStack.world st).

(** A state of [LayerStack] with another log. *)
Definition relog (l : list Log.record) (st : LayerStack.t U) : LayerStack.t U :=
  LayerStack.mk (LayerStack.m_Layers st) (LayerStack.m_LayerInsertIndex st)
    (LayerStack.world st) l.

(** Invoking the lambda of the stack at [this]: [OnEvent(event)] on that
    object.  [OnEvent] writes nothing to the log, so the log is not passed
    through. *)
Definition call (c : callable) (event : Event.t)
    (mem : (addr -> option callable) * heap U)
    : Event.t * ((addr -> option callable) * heap U) :=
  match c with
  | OnEventOf this =>
      let '(event, st, _) :=
        LayerStack.OnEvent vptr event (stack_at this mem.2 []) in
      (event, (mem.1, put this st mem.2))
  end.

(** [event.Dispatch()] *)
Definition Dispatch (event : Event.t) (s : process callable (heap U))
    : option (Event.t * process callable (heap U) * list EventManager.visit) :=
  Client.Dispatch call iteration event s.

(** A member function of [LayerStack] called on the object at [this]. *)
Definition on_stack (this : addr) (f : LayerStack.t U -> LayerStack.t U)
    (s : process callable (heap U)) : process callable (heap U) :=
  let st := f (stack_at this (user s) (log s)) in
  mkProcess (m_pListeners s) (m_Callback s) (put this st (user s))
    (LayerStack.log st).

(** [LayerStack::LayerStack()].  The members are initialised in the order
    of their declaration: [m_Layers] empty, [m_LayerInsertIndex = 0],
    [m_Listener] default-constructed (which registers it); then the body
    runs [m_Listener.SetCallback(...)]. *)
Definition constructor (this : addr) (s : process callable (heap U))
    : process callable (heap U) :=
  let s := mkProcess (m_pListeners s) (m_Callback s)
             (mkHeap (<[this := ([], 0)]> (members (user s))) (world (user s)))
             (log s) in
  let s := EventListener.constructor AE_DEBUG (m_Listener this) s in
  EventListener.SetCallback (m_Listener this) (Some (OnEventOf this)) s.

(** [LayerStack::~LayerStack()].  The body detaches the entries; then the
    members are destroyed in the reverse order of their declaration,
    [m_Listener] first (which unregisters it). *)
Definition destructor (this : addr) (s : process callable (heap U))
    : process callable (heap U) :=
  let s := on_stack this (fun st => (LayerStack.destructor vptr st).1) s in
  EventListener.destructor AE_DEBUG (m_Listener this) s.

(** [LayerStack(LayerStack &&other) = default]: member by member.  The
    move constructor of [std::vector] leaves the source empty; the
    [uint32_t] is copied; the listener is move-constructed, and with it the
    callable it holds. *)
Definition move_constructor (this other : addr) (s : process callable (heap U))
    : process callable (heap U) :=
  let m := members (user s) other in
  let s := mkProcess (m_pListeners s) (m_Callback s)
             (mkHeap (<[this := m]> (<[other := ([], m.2)]> (members (user s))))
                     (world (user s)))
             (log s) in
  EventListener.move_constructor AE_DEBUG (m_Listener this) (m_Listener other) s.

(** The stack at [this] after construction in the process [s0] and the
    operations [os] on it. *)
Definition built (this : addr) (os : list (LayerStack.operation (U := U) (double := double)))
    (s0 : process callable (heap U)) : process callable (heap U) :=
  foldl (fun s o => on_stack this (LayerStack.execute AE_DEBUG vptr o) s)
    (constructor this s0) os.

End WithBuild.

End Wiring.

(** ** A stack in a process, run

    The stack object at address 10, its listener at address 110, with the
    three layers of the example above pushed in a validated build. *)

Module WiringExample.

Definition m_Listener (this : addr) : addr := (this + 100)%positive.

Definition boot : process Wiring.callable (Wiring.heap (list (addr * string))) :=
  mkProcess ∅ (fun _ => None)
    (Wiring.mkHeap (fun _ => ([], 0))
       (Layer.mkWorld (fun _ => Layer.make "Layer") []))
    [].

Definition stack : addr := 10%positive.

Definition pushes : list (LayerStack.operation (U := list (addr * string)) (double := Z)) :=
  [LayerStack.DoPushLayer (Some StackExample.L1);
   LayerStack.DoPushLayer (Some StackExample.L2);
   LayerStack.DoPushOverlay (Some StackExample.O)].

Definition app : process Wiring.callable (Wiring.heap (list (addr * string))) :=
  Wiring.built true StackExample.vptr m_Listener stack pushes boot.

End WiringExample.

(** ** Event.h: the built-in event classes

    Each of the 23 classes passes its enumerator, cast to [uint32_t], and
    its categories to a constructor of [Event].  [envelope] is the [Event]
    subobject a constructor call builds; the payload members (key code,
    coordinates, sizes, paths) are plain data beside it and are left out. *)

Module BuiltinEvent.
Import EventTypeId.

(** The classes that go through the protected constructor of [KeyEvent] or
    [MouseButtonEvent], or pass [INPUT | X] themselves, use
    [Event(uint16_t, EventCategoryWrapper)]; the others pass one
    [EventCategory] and use [Event(uint16_t, EventCategory)]. *)
Definition envelope (b : builtin) : Event.t :=
  let typeId := static_cast_uint32 (EventType.value (event_type b)) in
  match b with
  | KeyPressedEvent | KeyReleasedEvent | KeyTypedEvent =>
      Event.make typeId
        (EventCategoryWrapper.or_category EventCategory.INPUT EventCategory.KEYBOARD)
  | MouseButtonPressedEvent | MouseButtonReleasedEvent | MouseMovedEvent
  | MouseScrolledEvent | MouseEnteredEvent | MouseExitedEvent =>
      Event.make typeId
        (EventCategoryWrapper.or_category EventCategory.INPUT EventCategory.MOUSE)
  | WindowResizeEvent | WindowMinimizedEvent | WindowMaximizedEvent
  | WindowRestoredEvent | WindowMovedEvent | WindowFocusedEvent
  | WindowCloseEvent | FramebufferResizeEvent | ContentScaleChangedEvent
  | FileDropEvent =>
      Event.make_category typeId EventCategory.WINDOW
  | ControllerConnectedEvent | ControllerDisconnectedEvent =>
      Event.make typeId
        (EventCategoryWrapper.or_category EventCategory.INPUT EventCategory.CONTROLLER)
  | UpdateEvent | RenderEvent =>
      Event.make_category typeId EventCategory.APPLICATION
  end.

End BuiltinEvent.

(** * Verification *)

(** ** Machine integers *)

Lemma static_cast_uint8_range z : 0 <= static_cast_uint8 z < 256.
Proof. unfold static_cast_uint8. apply Z.mod_pos_bound. lia. Qed.

Lemma static_cast_uint8_testbit z i :
  0 <= i -> Z.testbit (static_cast_uint8 z) i = (i <? 8) && Z.testbit z i.
Proof.
  intros Hi. unfold static_cast_uint8.
  destruct (Z.ltb_spec i 8).
  - rewrite Z.mod_pow2_bits_low by lia. reflexivity.
  - rewrite Z.mod_pow2_bits_high by lia. reflexivity.
Qed.

Lemma uint8_testbit_high z i : 0 <= z < 256 -> 8 <= i -> Z.testbit z i = false.
Proof.
  intros Hz Hi. rewrite <- (Z.mod_small z (2 ^ 8)) by lia.
  apply Z.mod_pow2_bits_high. lia.
Qed.

(** ** Category masks *)

Module EventCategoryWrapperFacts.
Import EventCategoryWrapper.

Lemma built_range a : built a -> 0 <= m_Value a < 256.
Proof.
  induction 1; simpl; try apply static_cast_uint8_range. lia.
Qed.

Lemma wrapper_ext a b : m_Value a = m_Value b -> a = b.
Proof. destruct a, b; simpl; congruence. Qed.

Lemma eq_true_iff a b : eq a b = true <-> a = b.
Proof.
  unfold eq. rewrite Z.eqb_eq. split; [apply wrapper_ext | congruence].
Qed.

(** Bitwise extensionality on the eight bits of a mask. *)
Lemma uint8_bits_inj x y :
  0 <= x < 256 -> 0 <= y < 256 ->
  (forall i, 0 <= i < 8 -> Z.testbit x i = Z.testbit y i) -> x = y.
Proof.
  intros Hx Hy Hbits. apply Z.bits_inj'. intros i Hi.
  destruct (Z.lt_ge_cases i 8) as [Hlt|Hge].
  - apply Hbits. lia.
  - rewrite !uint8_testbit_high by lia. reflexivity.
Qed.

Lemma or_absorb_value x y :
  0 <= x < 256 ->
  static_cast_uint8 (Z.land (static_cast_uint8 (Z.lor x y)) x) = x.
Proof.
  intros Hx. apply uint8_bits_inj; [apply static_cast_uint8_range | lia |].
  intros i Hi.
  rewrite static_cast_uint8_testbit, Z.land_spec, static_cast_uint8_testbit,
    Z.lor_spec by lia.
  destruct (Z.ltb_spec i 8); [|lia]. simpl.
  destruct (Z.testbit x i), (Z.testbit y i); reflexivity.
Qed.

Lemma or_disjoint_value x y z :
  static_cast_uint8 (Z.land x z) = 0 ->
  static_cast_uint8 (Z.land y z) = 0 ->
  static_cast_uint8 (Z.land (static_cast_uint8 (Z.lor x y)) z) = 0.
Proof.
  intros Hxz Hyz. apply Z.bits_inj'. intros i Hi.
  rewrite Z.bits_0, static_cast_uint8_testbit, Z.land_spec,
    static_cast_uint8_testbit, Z.lor_spec by lia.
  destruct (Z.ltb_spec i 8); [|reflexivity]. simpl.
  assert (Hx : Z.testbit (static_cast_uint8 (Z.land x z)) i = false)
    by (rewrite Hxz; apply Z.bits_0).
  assert (Hy : Z.testbit (static_cast_uint8 (Z.land y z)) i = false)
    by (rewrite Hyz; apply Z.bits_0).
  rewrite static_cast_uint8_testbit, Z.land_spec in Hx, Hy by lia.
  destruct (Z.ltb_spec i 8); [|lia]. simpl in Hx, Hy.
  destruct (Z.testbit x i), (Z.testbit y i), (Z.testbit z i);
    simpl in *; congruence.
Qed.

Lemma not_involutive_value x :
  0 <= x < 256 ->
  static_cast_uint8 (Z.lnot (static_cast_uint8 (Z.lnot x))) = x.
Proof.
  intros Hx. apply uint8_bits_inj; [apply static_cast_uint8_range | lia |].
  intros i Hi.
  rewrite static_cast_uint8_testbit, Z.lnot_spec, static_cast_uint8_testbit,
    Z.lnot_spec by lia.
  destruct (Z.ltb_spec i 8); [|lia]. simpl.
  apply negb_involutive.
Qed.

(** C9. For all category masks [A], [B], [C] built from the category flag
    bits with the wrapper's constructors and operators:
    [(A|B)&A == A]; [(A|B)&C == NONE] whenever [C] is disjoint from both
    [A] and [B] (that is, [A&C == NONE] and [B&C == NONE]); and
    [~~A == A]. *)
Theorem category_mask_algebra (A B C : EventCategoryWrapper.t) :
  built A -> built B -> built C ->
  ((A |' B) &' A ==' A)%mask = true
  /\ ((A &' C ==' NONE)%mask = true -> (B &' C ==' NONE)%mask = true ->
      ((A |' B) &' C ==' NONE)%mask = true)
  /\ (~' ~' A ==' A)%mask = true.
Proof.
  intros HA HB HC. apply built_range in HA.
  repeat split.
  - apply eq_true_iff, wrapper_ext. simpl. apply or_absorb_value, HA.
  - intros HAC HBC. apply eq_true_iff in HAC, HBC.
    apply eq_true_iff, wrapper_ext. simpl.
    apply (f_equal m_Value) in HAC, HBC. simpl in HAC, HBC.
    change (static_cast_uint8 (EventCategory.value EventCategory.NONE))
      with 0 in *.
    apply or_disjoint_value; assumption.
  - apply eq_true_iff, wrapper_ext. simpl. apply not_involutive_value, HA.
Qed.

End EventCategoryWrapperFacts.

(** INPUT, KEYBOARD and MOUSE are three masks a program builds; MOUSE is
    disjoint from the other two. *)
Lemma category_mask_algebra_witness :
  let A := EventCategoryWrapper.of_category EventCategory.INPUT in
  let B := EventCategoryWrapper.of_category EventCategory.KEYBOARD in
  let C := EventCategoryWrapper.of_category EventCategory.MOUSE in
  ((A |' B) &' A ==' A)%mask = true
  /\ ((A |' B) &' C ==' EventCategoryWrapper.NONE)%mask = true
  /\ (~' ~' A ==' A)%mask = true.
Proof.
  intros A B C.
  destruct (EventCategoryWrapperFacts.category_mask_algebra A B C) as (H1 & H2 & H3);
    try apply EventCategoryWrapper.built_category.
  split; [exact H1 | split; [|exact H3]].
  apply H2; reflexivity.
Defined.

(** ** Kind ids *)

Module EventTypeIdFacts.
Import EventTypeId.

Lemma builtin_id_small b :
  static_cast_uint32 (EventType.value (event_type b)) < 1000.
Proof. destruct b; vm_compute; reflexivity. Qed.

Lemma builtin_id_inj b1 b2 :
  static_cast_uint32 (EventType.value (event_type b1)) =
  static_cast_uint32 (EventType.value (event_type b2)) -> b1 = b2.
Proof. destruct b1, b2; vm_compute; congruence. Qed.

Lemma Get_known T id st : s_Id st !! T = Some id -> Get (Custom T) st = (id, st).
Proof. intros H. simpl. rewrite H. reflexivity. Qed.

Lemma Get_fresh T st :
  s_Id st !! T = None ->
  Get (Custom T) st =
    (s_NextId st,
     mkStatics (static_cast_uint32 (s_NextId st + 1)) (<[T := s_NextId st]> (s_Id st))).
Proof. intros H. simpl. rewrite H. reflexivity. Qed.

Lemma allocated_fresh T st :
  s_Id st !! T = None -> allocated (Get (Custom T) st).2 = allocated st + 1.
Proof.
  intros H. rewrite Get_fresh by assumption. unfold allocated. simpl.
  rewrite map_size_insert_None by assumption. lia.
Qed.

(** What [Get] returns is the id the kind has from then on. *)
Lemma id_of_Get k st : id_of (Get k st).2 k = Some (Get k st).1.
Proof.
  destruct k as [b|T]; [reflexivity|].
  destruct (s_Id st !! T) as [id|] eqn:E.
  - rewrite Get_known with (id := id) by assumption. exact E.
  - rewrite Get_fresh by assumption. simpl. apply lookup_insert_eq.
Qed.

(** An id, once given, is kept by every later call. *)
Lemma id_of_Get_mono k k' id st :
  id_of st k = Some id -> id_of (Get k' st).2 k = Some id.
Proof.
  intros H. destruct k as [b|T]; [exact H|]. simpl in H.
  destruct k' as [b'|T']; [exact H|].
  destruct (s_Id st !! T') as [id'|] eqn:E.
  - rewrite Get_known with (id := id') by assumption. exact H.
  - rewrite Get_fresh by assumption. simpl.
    rewrite lookup_insert_ne by congruence. exact H.
Qed.

Lemma id_of_steps k id st st' :
  steps st st' -> id_of st k = Some id -> id_of st' k = Some id.
Proof.
  induction 1 as [|st st' k' _ IH]; intros H; [exact H|].
  apply id_of_Get_mono, IH, H.
Qed.

Lemma Get_of_id_of k id st : id_of st k = Some id -> Get k st = (id, st).
Proof.
  destruct k as [b|T]; simpl.
  - intros [= <-]. reflexivity.
  - intros H. rewrite H. reflexivity.
Qed.

Lemma steps_trans st1 st2 st3 : steps st1 st2 -> steps st2 st3 -> steps st1 st3.
Proof. intros H12 H23. induction H23; [assumption|]. constructor. auto. Qed.

Lemma run_steps ks st : steps st (run ks st).
Proof.
  revert st. induction ks as [|k ks IH]; intros st; simpl; [constructor|].
  eapply steps_trans; [|apply IH].
  apply steps_Get, steps_refl.
Qed.

Lemma allocated_nonneg st : 0 <= allocated st.
Proof. unfold allocated. lia. Qed.

Lemma inv_initial : inv initial.
Proof.
  split.
  - reflexivity.
  - unfold allocated. simpl. rewrite map_size_empty. intros i Hi. lia.
  - intros _ T id H. simpl in H. rewrite lookup_empty in H. discriminate.
  - intros _ T1 T2 id H. simpl in H. rewrite lookup_empty in H. discriminate.
Qed.

Lemma inv_Get k st : inv st -> inv (Get k st).2.
Proof.
  intros [Hnext Hcover Hrange Hinj].
  destruct k as [b|T]; [split; assumption|].
  destruct (s_Id st !! T) as [id|] eqn:E.
  { rewrite Get_known with (id := id) by assumption. split; assumption. }
  pose proof (allocated_fresh T st E) as Hsize.
  pose proof (allocated_nonneg st) as Hn.
  rewrite Get_fresh in * by assumption. simpl in *.
  split; simpl.
  - rewrite Hsize, Hnext. unfold static_cast_uint32.
    rewrite Zplus_mod_idemp_l. f_equal. lia.
  - intros i Hi. rewrite Hsize in Hi.
    destruct (decide (i = allocated st)) as [->|Hne].
    + exists T. rewrite lookup_insert_eq, Hnext. reflexivity.
    + destruct (Hcover i) as [T' HT']; [lia|].
      exists T'. rewrite lookup_insert_ne by congruence. exact HT'.
  - rewrite Hsize. intros Hb T' id'.
    assert (Hs : s_NextId st = 1000 + allocated st).
    { rewrite Hnext. apply Z.mod_small. lia. }
    destruct (decide (T = T')) as [<-|Hne].
    + rewrite lookup_insert_eq. intros [= <-]. lia.
    + rewrite lookup_insert_ne by assumption. intros H.
      apply Hrange in H; lia.
  - rewrite Hsize. intros Hb T1 T2 id'.
    assert (Hs : s_NextId st = 1000 + allocated st).
    { rewrite Hnext. apply Z.mod_small. lia. }
    destruct (decide (T = T1)) as [<-|Hne1], (decide (T = T2)) as [<-|Hne2];
      rewrite ?lookup_insert_eq, ?lookup_insert_ne by assumption.
    + reflexivity.
    + intros [= <-] H. apply Hrange in H; lia.
    + intros H [= <-]. apply Hrange in H; lia.
    + apply Hinj. lia.
Qed.

Lemma inv_steps st st' : steps st st' -> inv st -> inv st'.
Proof.
  induction 1 as [|st st' k Hsteps IH]; intros Hinv; [assumption|].
  apply inv_Get, IH, Hinv.
Qed.

Lemma inv_reachable st : reachable st -> inv st.
Proof. intros H. eapply inv_steps; [exact H | apply inv_initial]. Qed.

(** With an unwrapped counter no two kinds, built-in or custom, have the
    same id. *)
Lemma id_of_inj st k1 k2 id :
  inv st -> 1000 + allocated st <= 2 ^ 32 ->
  id_of st k1 = Some id -> id_of st k2 = Some id -> k1 = k2.
Proof.
  intros Hinv Hb H1 H2.
  destruct k1 as [b1|T1], k2 as [b2|T2]; simpl in *.
  - f_equal. apply builtin_id_inj. congruence.
  - apply (inv_range _ Hinv Hb) in H2.
    pose proof (builtin_id_small b1) as Hsmall. injection H1 as H1. lia.
  - apply (inv_range _ Hinv Hb) in H1.
    pose proof (builtin_id_small b2) as Hsmall. injection H2 as H2. lia.
  - f_equal. exact (inv_inj _ Hinv Hb _ _ _ H1 H2).
Qed.

Lemma Get_fresh_value st T :
  inv st -> 1000 + allocated st < 2 ^ 32 -> s_Id st !! T = None ->
  (Get (Custom T) st).1 = 1000 + allocated st.
Proof.
  intros Hinv Hb E. rewrite Get_fresh by assumption. simpl.
  rewrite (inv_next _ Hinv). pose proof (allocated_nonneg st).
  apply Z.mod_small. lia.
Qed.

(** C5. In every state the program reaches in which the 32-bit counter has
    not run through its range (fewer than 2^32 - 1000 custom kinds
    allocated so far):
    - [Get] of a custom kind returns an id at or above the threshold 1000;
    - the id given at the first use of a custom kind is above every id
      given before (ids increase strictly in first-use order, none is
      used twice);
    - the id [Get] returns for a kind is what every later call for that
      kind returns;
    - a later call for a different kind, built-in or custom, returns a
      different id. *)
Theorem custom_kind_ids st :
  reachable st -> 1000 + allocated st < 2 ^ 32 ->
  (forall T, 1000 <= (Get (Custom T) st).1)
  /\ (forall T, s_Id st !! T = None ->
        forall T' id', s_Id st !! T' = Some id' -> id' < (Get (Custom T) st).1)
  /\ (forall k st', steps (Get k st).2 st' -> (Get k st').1 = (Get k st).1)
  /\ (forall k1 k2 st', k1 <> k2 -> steps (Get k1 st).2 st' ->
        1000 + allocated st' < 2 ^ 32 ->
        (Get k2 st').1 <> (Get k1 st).1).
Proof.
  intros Hreach Hb. pose proof (inv_reachable st Hreach) as Hinv.
  pose proof (allocated_nonneg st) as Hn.
  repeat split.
  - intros T. destruct (s_Id st !! T) as [id|] eqn:E.
    + rewrite Get_known with (id := id) by assumption. simpl.
      apply (inv_range _ Hinv) in E; lia.
    + rewrite Get_fresh_value by assumption. lia.
  - intros T E T' id' H'. rewrite Get_fresh_value by assumption.
    apply (inv_range _ Hinv) in H'; lia.
  - intros k st' Hsteps.
    rewrite (Get_of_id_of k (Get k st).1 st'); [reflexivity|].
    eapply id_of_steps; [exact Hsteps | apply id_of_Get].
  - intros k1 k2 st' Hne Hsteps Hb' Heq.
    assert (Hinv' : inv st').
    { eapply inv_steps; [exact Hsteps | apply inv_Get, Hinv]. }
    assert (H1 : id_of st' k1 = Some (Get k1 st).1).
    { eapply id_of_steps; [exact Hsteps | apply id_of_Get]. }
    set (id1 := (Get k1 st).1) in *. clearbody id1.
    destruct (id_of st' k2) as [id2|] eqn:E2.
    + rewrite (Get_of_id_of k2 id2 st') in Heq by assumption. simpl in Heq.
      subst id2. apply Hne. symmetry.
      eapply id_of_inj; [exact Hinv' | lia | exact E2 | exact H1].
    + destruct k2 as [b2|T2]; [discriminate|]. simpl in E2.
      rewrite Get_fresh_value in Heq by assumption.
      pose proof (allocated_nonneg st') as Hn'.
      destruct k1 as [b1|T1]; simpl in H1.
      * pose proof (builtin_id_small b1) as Hsmall.
        injection H1 as H1. lia.
      * apply (inv_range _ Hinv') in H1; lia.
Qed.

(** A program that has asked for the ids of two custom kinds, and of a
    built-in one in between. *)
Lemma custom_kind_ids_witness :
  let st := run [Custom 7%positive; Builtin KeyPressedEvent; Custom 3%positive] initial in
  (reachable st /\ 1000 + allocated st < 2 ^ 32)
  /\ (forall T, 1000 <= (Get (Custom T) st).1)
  /\ (forall T, s_Id st !! T = None ->
        forall T' id', s_Id st !! T' = Some id' -> id' < (Get (Custom T) st).1)
  /\ (forall k st', steps (Get k st).2 st' -> (Get k st').1 = (Get k st).1)
  /\ (forall k1 k2 st', k1 <> k2 -> steps (Get k1 st).2 st' ->
        1000 + allocated st' < 2 ^ 32 ->
        (Get k2 st').1 <> (Get k1 st).1).
Proof.
  intros st.
  assert (Hreach : reachable st) by apply run_steps.
  assert (Hb : 1000 + allocated st < 2 ^ 32) by (vm_compute; reflexivity).
  split; [split; assumption|].
  exact (custom_kind_ids st Hreach Hb).
Defined.

Lemma uint16_of_uint32 z : static_cast_uint16 (static_cast_uint32 z) = static_cast_uint16 z.
Proof.
  unfold static_cast_uint16, static_cast_uint32.
  apply Z.mod_mod_divide. exists (2 ^ 16). reflexivity.
Qed.

(** The id an event of a new custom kind carries is the threshold plus
    the number of kinds allocated before, modulo 2^16. *)
Lemma carried_id st T categories :
  reachable st -> s_Id st !! T = None ->
  Event.GetTypeId (Event.make (Get (Custom T) st).1 categories)
  = (1000 + allocated st) mod 2 ^ 16.
Proof.
  intros Hreach Hfresh. rewrite Get_fresh by assumption. simpl.
  rewrite (inv_next _ (inv_reachable st Hreach)). apply uint16_of_uint32.
Qed.

(** C10, as the code has it.  The envelope keeps the kind id in 16 bits
    although the custom ids come from a 32-bit counter:
    - an [Event] constructed with kind id [k] answers [k mod 2^16] to
      [GetTypeId];
    - in a state the program reaches in which 64536 or more custom kinds
      are allocated, an event constructed for a custom kind that is new
      there carries an id that lies in the range of the built-in kinds
      (below 1000; it need not be the id of any of them), or is the very
      id of a custom kind allocated earlier, which the envelope of that
      kind carries too;
    - every built-in kind is hit: the custom kind that is new when 64536
      plus the built-in kind's id are allocated carries that built-in
      kind's id. *)
Theorem envelope_type_id_truncation :
  (forall k categories,
     Event.GetTypeId (Event.make k categories) = k mod 2 ^ 16)
  /\ (forall st T categories,
        reachable st -> s_Id st !! T = None -> 64536 <= allocated st ->
        let carried := Event.GetTypeId (Event.make (Get (Custom T) st).1 categories) in
        carried < 1000
        \/ exists T' categories',
             s_Id st !! T' = Some carried
             /\ Event.GetTypeId (Event.make carried categories') = carried)
  /\ (forall st T categories b,
        reachable st -> s_Id st !! T = None ->
        allocated st = 64536 + EventType.value (event_type b) ->
        Event.GetTypeId (Event.make (Get (Custom T) st).1 categories)
        = Event.GetTypeId (Event.make (Get (Builtin b) st).1 categories)).
Proof.
  split; [reflexivity|]. split; cycle 1.
  { intros st T categories b Hreach Hfresh Hn.
    rewrite carried_id by assumption. rewrite Hn.
    destruct b; vm_compute; reflexivity. }
  intros st T categories Hreach Hfresh Hmany carried.
  pose proof (inv_reachable st Hreach) as Hinv.
  assert (Hc : carried = (1000 + allocated st) mod 2 ^ 16)
    by (apply carried_id; assumption).
  assert (Hrange : 0 <= carried < 2 ^ 16).
  { rewrite Hc. apply Z.mod_pos_bound. lia. }
  clearbody carried.
  destruct (Z.lt_ge_cases carried 1000) as [Hlt|Hge]; [left; assumption|].
  right. destruct (inv_cover _ Hinv (carried - 1000)) as [T' HT']; [lia|].
  replace (1000 + (carried - 1000)) with carried in HT' by lia.
  unfold static_cast_uint32 in HT'. rewrite Z.mod_small in HT' by lia.
  exists T', categories. split; [exact HT'|].
  simpl. unfold static_cast_uint16. apply Z.mod_small. lia.
Qed.

(** Asking for [n] kinds that are all new allocates [n] ids and leaves the
    kinds numbered after them new. *)
Lemma run_custom_kinds n from st :
  (forall T, (from <= T)%positive -> s_Id st !! T = None) ->
  allocated (run (custom_kinds n from) st) = allocated st + Z.of_nat n
  /\ (forall T, (Z.pos from + Z.of_nat n <= Z.pos T) ->
        s_Id (run (custom_kinds n from) st) !! T = None).
Proof.
  revert from st. induction n as [|n IH]; intros from st Hnew.
  - simpl. split; [lia|]. intros T HT. apply Hnew. lia.
  - change (run (custom_kinds (S n) from) st)
      with (run (custom_kinds n (Pos.succ from)) (Get (Custom from) st).2).
    assert (Hfrom : s_Id st !! from = None) by (apply Hnew; lia).
    destruct (IH (Pos.succ from) (Get (Custom from) st).2) as [IH1 IH2].
    + intros T HT. rewrite Get_fresh by assumption. simpl.
      rewrite lookup_insert_ne by lia. apply Hnew. lia.
    + rewrite IH1, allocated_fresh by assumption. split; [lia|].
      intros T HT. apply IH2. lia.
Qed.

(** A program that has allocated 64536 custom kinds, so that the ids
    1000 .. 65535 are all given, and then asks for one more. *)
Lemma envelope_type_id_truncation_witness :
  let st := run (custom_kinds (Z.to_nat 64536) 1%positive) initial in
  let T := 70000%positive in
  (reachable st /\ s_Id st !! T = None /\ 64536 <= allocated st)
  /\ (let carried :=
        Event.GetTypeId
          (Event.make (Get (Custom T) st).1
             (EventCategoryWrapper.of_category EventCategory.CUSTOM)) in
      carried < 1000
      \/ exists T' categories',
           s_Id st !! T' = Some carried
           /\ Event.GetTypeId (Event.make carried categories') = carried).
Proof.
  intros st T.
  assert (Hreach : reachable st) by apply run_steps.
  destruct (run_custom_kinds (Z.to_nat 64536) 1%positive initial) as [Hn Hnew].
  { intros T' _. apply lookup_empty. }
  fold st in Hn, Hnew.
  assert (Hfresh : s_Id st !! T = None) by (apply Hnew; lia).
  assert (Hmany : 64536 <= allocated st).
  { rewrite Hn. unfold allocated. simpl. rewrite map_size_empty. lia. }
  split; [exact (conj Hreach (conj Hfresh Hmany))|].
  exact (proj1 (proj2 envelope_type_id_truncation) st T _ Hreach Hfresh Hmany).
Defined.

(** C10 as stated fails where the truncated id meets no id in use.  With
    64537 custom kinds allocated (more than 64536), the event of a new
    custom kind carries the id 1: no enumerator of [EventType] has that
    value, no built-in kind has that id and no event of a built-in class
    carries it, and no custom kind allocated earlier has that id or has it
    carried by its events. *)
Lemma truncated_id_meets_no_id_in_use :
  let st := run (custom_kinds (Z.to_nat 64537) 1%positive) initial in
  let T := 70000%positive in
  let categories := EventCategoryWrapper.of_category EventCategory.CUSTOM in
  let carried := Event.GetTypeId (Event.make (Get (Custom T) st).1 categories) in
  reachable st /\ s_Id st !! T = None /\ allocated st = 64537
  /\ carried = 1
  /\ (forall e, EventType.value e <> carried)
  /\ (forall b, (Get (Builtin b) st).1 <> carried
               /\ Event.GetTypeId (BuiltinEvent.envelope b) <> carried)
  /\ (forall T' id' categories', s_Id st !! T' = Some id' ->
        id' <> carried
        /\ Event.GetTypeId (Event.make id' categories') <> carried).
Proof.
  intros st T categories carried.
  assert (Hreach : reachable st) by apply run_steps.
  destruct (run_custom_kinds (Z.to_nat 64537) 1%positive initial) as [Hn Hnew].
  { intros T' _. apply lookup_empty. }
  fold st in Hn, Hnew.
  assert (Hfresh : s_Id st !! T = None) by (apply Hnew; lia).
  assert (Hmany : allocated st = 64537).
  { rewrite Hn. unfold allocated. simpl. rewrite map_size_empty. lia. }
  assert (Hcarried : carried = 1).
  { subst carried. rewrite carried_id by assumption. rewrite Hmany. reflexivity. }
  pose proof (inv_range st (inv_reachable st Hreach)) as Hrange.
  rewrite Hmany in Hrange.
  clearbody carried st. subst carried.
  split; [exact Hreach|]. split; [exact Hfresh|]. split; [exact Hmany|].
  split; [reflexivity|]. split; [|split].
  - intros e. destruct e; discriminate.
  - intros b. split; destruct b; discriminate.
  - intros T' id' categories' HT'. apply Hrange in HT'; [|lia].
    split; [lia|]. simpl. unfold static_cast_uint16. intros H.
    destruct (Z.lt_ge_cases id' (2 ^ 16)) as [Hlt|Hge].
    + rewrite Z.mod_small in H by lia. lia.
    + assert (Hid : id' = 2 ^ 16) by lia. rewrite Hid in H. discriminate H.
Qed.

End EventTypeIdFacts.

(** ** The registry and the listeners *)

(** An element of a duplicate-free image occurs once. *)
Lemma count_absent {A B} `{EqDecision B} (f : A -> B) (y : B) (l : list A) :
  y ∉ map f l -> filter (fun x => f x = y) l = [].
Proof.
  induction l as [|x l IH]; intros Hy; [reflexivity|].
  simpl in Hy. apply not_elem_of_cons in Hy as [Hne Hy].
  rewrite filter_cons. destruct (decide (f x = y)); [congruence|]. auto.
Qed.

Lemma count_once {A B} `{EqDecision B} (f : A -> B) (y : B) (l : list A) :
  NoDup (map f l) -> y ∈ map f l ->
  length (filter (fun x => f x = y) l) = 1%nat.
Proof.
  induction l as [|x l IH]; simpl; intros Hnodup Hin.
  - apply elem_of_nil in Hin. contradiction.
  - apply NoDup_cons in Hnodup as [Hx Hnodup].
    rewrite filter_cons. destruct (decide (f x = y)) as [<-|Hne].
    + simpl. rewrite count_absent by assumption. reflexivity.
    + apply IH; [assumption|].
      apply elem_of_cons in Hin as [Hin|Hin]; [congruence | assumption].
Qed.

Module EventManagerFacts.
Import EventManager.

Section Broadcast.

Context {Callback U : Type}.
Context (call : Callback -> Event.t -> (addr -> option Callback) * U ->
                Event.t * ((addr -> option Callback) * U)).
Context (iteration : gset ptr -> list ptr).

Lemma DispatchEvent_loop_spec todo event mem :
  nullptr ∉ todo ->
  exists event' mem' visits,
    DispatchEvent_loop call todo event mem = Some (event', mem', visits)
    /\ map visited visits = todo
    /\ Forall visit_ok visits
    /\ chained call (event, mem) visits (event', mem').
Proof.
  revert event mem. induction todo as [|p todo IH]; intros event mem Hnull.
  - exists event, mem, []. simpl. auto.
  - apply not_elem_of_cons in Hnull as [Hp Hnull].
    destruct p as [pListener|]; [|done]. simpl.
    destruct (mem.1 pListener) as [callback|] eqn:Hcb.
    + destruct (call callback (Event.reset_consumed event) mem)
        as [event1 mem1] eqn:Hcall.
      destruct (IH event1 mem1 Hnull) as (event' & mem' & visits & -> & Hv & Hok & Hch).
      exists event', mem', (Invoked pListener callback (Event.reset_consumed event) mem :: visits).
      simpl. rewrite Hv, Hcall. repeat split; auto.
      constructor; [split; [assumption | reflexivity] | assumption].
    + destruct (IH event mem Hnull) as (event' & mem' & visits & -> & Hv & Hok & Hch).
      exists event', mem', (Skipped pListener mem :: visits).
      simpl. rewrite Hv. repeat split; auto.
Qed.

(** When no callback changes a listener's callback, the handles with a
    non-empty callback are known beforehand, and they are the ones whose
    callback runs. *)
Lemma invoked_static todo event mem event' mem' visits :
  (forall callback e m, (call callback e m).2.1 = m.1) ->
  DispatchEvent_loop call todo event mem = Some (event', mem', visits) ->
  invoked visits = omap (fun p => p ≫= fun a => mem.1 a ≫= fun _ => Some a) todo.
Proof.
  intros Hstatic. revert event mem event' mem' visits.
  induction todo as [|p todo IH]; intros event mem event' mem' visits H.
  - simpl in H. injection H as <- <- <-. reflexivity.
  - destruct p as [pListener|]; [|discriminate]. simpl in H. simpl.
    destruct (mem.1 pListener) as [callback|] eqn:Hcb.
    + destruct (call callback (Event.reset_consumed event) mem)
        as [event1 mem1] eqn:Hcall.
      destruct (DispatchEvent_loop call todo event1 mem1)
        as [[[event2 mem2] visits2]|] eqn:Hloop; [|discriminate].
      simpl in H. injection H as <- <- <-. simpl. f_equal.
      rewrite (IH _ _ _ _ _ Hloop).
      replace (mem1.1) with (mem.1); [reflexivity|].
      rewrite <- (Hstatic callback (Event.reset_consumed event) mem), Hcall.
      reflexivity.
    + destruct (DispatchEvent_loop call todo event mem)
        as [[[event2 mem2] visits2]|] eqn:Hloop; [|discriminate].
      simpl in H. injection H as <- <- <-. simpl.
      apply (IH _ _ _ _ _ Hloop).
Qed.

(** A handle whose callback ran is a handle the loop went over. *)
Lemma invoked_visited (visits : list (visit (Callback := Callback) (U := U))) a :
  a ∈ invoked visits -> Some a ∈ map visited visits.
Proof.
  unfold invoked. rewrite list_elem_of_omap. intros (v & Hv & Ha).
  apply list_elem_of_fmap. exists v. split; [|exact Hv].
  destruct v; [|discriminate]. simpl in *. congruence.
Qed.

Lemma invoked_NoDup (visits : list (visit (Callback := Callback) (U := U))) :
  NoDup (map visited visits) -> NoDup (invoked visits).
Proof.
  induction visits as [|v visits IH]; simpl; intros Hnodup; [constructor|].
  apply NoDup_cons in Hnodup as [Hv Hnodup].
  destruct v as [pListener callback event mem|pListener mem].
  - change (NoDup (pListener :: invoked visits)).
    apply NoDup_cons. split; [|auto].
    intros Hin. apply Hv. apply invoked_visited, Hin.
  - change (NoDup (invoked visits)). auto.
Qed.

(** The order of iteration enumerates the set. *)
Hypothesis iteration_enumerates : forall r, iteration r ≡ₚ elements r.

(** C2. A broadcast to a registry of (non-null) registered handles returns,
    and its loop
    - goes over every registered handle exactly once;
    - at each handle whose callback is non-empty then, clears the event's
      consumed flag and invokes that callback with the event, so the
      callback sees [IsConsumed() == false] whatever the callbacks before it
      did; no handle has its callback invoked twice;
    - passes over each handle whose callback is empty then, changing
      nothing;
    and when callbacks leave the listeners' callbacks alone, the handles
    whose callback runs are exactly the registered handles that had a
    non-empty callback when the broadcast began. *)
Theorem broadcast_reaches_every_listener event (s : process Callback U) :
  nullptr ∉ m_pListeners s ->
  exists event' s' visits,
    DispatchEvent call iteration event s = Some (event', s', visits)
    /\ map visited visits = iteration (m_pListeners s)
    /\ (forall p, p ∈ m_pListeners s ->
          length (filter (fun v => visited v = p) visits) = 1%nat)
    /\ Forall visit_ok visits
    /\ NoDup (invoked visits)
    /\ chained call (event, (m_Callback s, user s)) visits
         (event', (m_Callback s', user s'))
    /\ m_pListeners s' = m_pListeners s
    /\ ((forall callback e m, (call callback e m).2.1 = m.1) ->
        forall a, a ∈ invoked visits <->
                  Some a ∈ m_pListeners s /\ is_Some (m_Callback s a)).
Proof.
  intros Hnull.
  assert (Hnull' : nullptr ∉ iteration (m_pListeners s)).
  { rewrite iteration_enumerates. rewrite elem_of_elements. exact Hnull. }
  destruct (DispatchEvent_loop_spec (iteration (m_pListeners s)) event
              (m_Callback s, user s) Hnull')
    as (event' & mem' & visits & Hloop & Hv & Hok & Hch).
  exists event', (mkProcess (m_pListeners s) mem'.1 mem'.2 (log s)), visits.
  unfold DispatchEvent. rewrite Hloop. simpl.
  assert (Hnodup : NoDup (map visited visits)).
  { rewrite Hv, iteration_enumerates. apply NoDup_elements. }
  split; [reflexivity|]. split; [exact Hv|].
  split; [|split; [exact Hok|split; [apply invoked_NoDup, Hnodup|
    split; [|split; [reflexivity|]]]]].
  - intros p Hp.
    assert (Hin : p ∈ map visited visits).
    { rewrite Hv, iteration_enumerates. apply elem_of_elements, Hp. }
    apply count_once; assumption.
  - destruct mem'. exact Hch.
  - intros Hstatic a.
    rewrite (invoked_static _ _ _ _ _ _ Hstatic Hloop). simpl.
    rewrite list_elem_of_omap. split.
    + intros (p & Hp & Ha). rewrite iteration_enumerates, elem_of_elements in Hp.
      destruct p as [a'|]; [|discriminate]. simpl in Ha.
      destruct (m_Callback s a') as [c|] eqn:Hc; [|discriminate].
      simpl in Ha. injection Ha as <-. split; [assumption|].
      rewrite Hc. eauto.
    + intros [Hp [c Hc]]. exists (Some a).
      rewrite iteration_enumerates, elem_of_elements. split; [assumption|].
      simpl. rewrite Hc. reflexivity.
Qed.

End Broadcast.

End EventManagerFacts.

Module RegistryFacts.
Import EventManager.

Section Registry.

Context {Callback U : Type}.
Implicit Types (s : process Callback U) (pListener : ptr).

Lemma AddListener_validated_null s :
  AddListener true nullptr s =
  AE_LOG Log.AE_WARNING "Tried to add null EventListener to EventManager" [] s.
Proof. reflexivity. Qed.

Lemma AddListener_unvalidated pListener s :
  AddListener false pListener s =
  set_m_pListeners ({[pListener]} ∪ m_pListeners s) s.
Proof. reflexivity. Qed.

Lemma AddListener_registered AE_DEBUG pListener s :
  pListener ∈ m_pListeners s ->
  m_pListeners (AddListener AE_DEBUG pListener s) = m_pListeners s.
Proof.
  intros Hin. unfold AddListener.
  destruct AE_DEBUG; simpl.
  - destruct (bool_decide (pListener = nullptr)); [reflexivity|].
    rewrite bool_decide_eq_true_2 by assumption. reflexivity.
  - set_solver.
Qed.

Lemma AddListener_elem AE_DEBUG (a : addr) s :
  Some a ∈ m_pListeners (AddListener AE_DEBUG (Some a) s).
Proof.
  unfold AddListener. rewrite bool_decide_eq_false_2 by discriminate.
  rewrite andb_false_r.
  destruct AE_DEBUG; simpl; [|set_solver].
  case_bool_decide; simpl; [assumption | set_solver].
Qed.

Lemma AddListener_other AE_DEBUG pListener p s :
  p <> pListener ->
  p ∈ m_pListeners (AddListener AE_DEBUG pListener s) <-> p ∈ m_pListeners s.
Proof.
  intros Hne. unfold AddListener.
  destruct (AE_DEBUG && bool_decide (pListener = nullptr)); [reflexivity|].
  destruct (AE_DEBUG && bool_decide (pListener ∈ m_pListeners s)); [reflexivity|].
  simpl. set_solver.
Qed.

Lemma AddListener_m_Callback AE_DEBUG pListener s :
  m_Callback (AddListener AE_DEBUG pListener s) = m_Callback s.
Proof.
  unfold AddListener.
  destruct (AE_DEBUG && bool_decide (pListener = nullptr)); [reflexivity|].
  destruct (AE_DEBUG && bool_decide (pListener ∈ m_pListeners s)); reflexivity.
Qed.

Lemma RemoveListener_absent AE_DEBUG pListener s :
  pListener ∉ m_pListeners s -> warned s (RemoveListener AE_DEBUG pListener s).
Proof.
  intros Hout. unfold RemoveListener, warned.
  destruct (AE_DEBUG && bool_decide (pListener = nullptr)); [eauto|].
  rewrite bool_decide_eq_true_2 by assumption. eauto.
Qed.

Lemma RemoveListener_validated_null s :
  warned s (RemoveListener true nullptr s).
Proof. unfold warned. simpl. eauto. Qed.

Lemma RemoveListener_gone AE_DEBUG (a : addr) s :
  Some a ∉ m_pListeners (RemoveListener AE_DEBUG (Some a) s).
Proof.
  unfold RemoveListener. rewrite bool_decide_eq_false_2 by discriminate.
  rewrite andb_false_r.
  case_bool_decide; simpl; [assumption | set_solver].
Qed.

Lemma RemoveListener_other AE_DEBUG pListener p s :
  p <> pListener ->
  p ∈ m_pListeners (RemoveListener AE_DEBUG pListener s) <-> p ∈ m_pListeners s.
Proof.
  intros Hne. unfold RemoveListener.
  destruct (AE_DEBUG && bool_decide (pListener = nullptr)); [reflexivity|].
  case_bool_decide; simpl; [reflexivity | set_solver].
Qed.

Lemma RemoveListener_m_Callback AE_DEBUG pListener s :
  m_Callback (RemoveListener AE_DEBUG pListener s) = m_Callback s.
Proof.
  unfold RemoveListener.
  destruct (AE_DEBUG && bool_decide (pListener = nullptr)); [reflexivity|].
  case_bool_decide; reflexivity.
Qed.

(** C6, as the code has it.  The two null checks and the duplicate check
    are compiled in validated builds only.
    - In a validated build [AddListener] on a null handle logs a warning
      and changes nothing else.
    - In any build [AddListener] on a registered handle leaves the registry
      as it was, and the registry enumerates no handle twice; in a validated
      build the add is answered with a warning and nothing else.
    - In any build [RemoveListener] on a handle that is not registered (the
      null handle included) logs a warning and changes nothing else; in a
      validated build so does [RemoveListener] on the null handle, registered
      or not.
    - In a build that is not validated [AddListener] registers whatever it
      is given. *)
Theorem registry_misuse AE_DEBUG pListener s :
  (AE_DEBUG = true -> warned s (AddListener AE_DEBUG nullptr s))
  /\ (pListener ∈ m_pListeners s ->
      m_pListeners (AddListener AE_DEBUG pListener s) = m_pListeners s
      /\ (AE_DEBUG = true -> warned s (AddListener AE_DEBUG pListener s)))
  /\ NoDup (elements (m_pListeners (AddListener AE_DEBUG pListener s)))
  /\ (pListener ∉ m_pListeners s ->
      warned s (RemoveListener AE_DEBUG pListener s))
  /\ (AE_DEBUG = true -> warned s (RemoveListener AE_DEBUG nullptr s))
  /\ (AE_DEBUG = false ->
      AddListener AE_DEBUG pListener s =
      set_m_pListeners ({[pListener]} ∪ m_pListeners s) s).
Proof.
  split; [|split; [|split; [|split; [|split]]]].
  - intros ->. rewrite AddListener_validated_null. unfold warned. eauto.
  - intros Hin. split; [apply AddListener_registered, Hin|].
    intros ->. unfold AddListener, warned. simpl.
    destruct (bool_decide (pListener = nullptr)); [eauto|].
    rewrite bool_decide_eq_true_2 by assumption. eauto.
  - apply NoDup_elements.
  - apply RemoveListener_absent.
  - intros ->. apply RemoveListener_validated_null.
  - intros ->. apply AddListener_unvalidated.
Qed.

End Registry.

(** C6 as stated fails in a build that is not validated: there
    [AddListener] on the null handle registers it, without a diagnostic, and
    a following [RemoveListener] on the null handle erases it, without a
    warning. *)
Lemma null_listener_unvalidated :
  let s := AddListener false nullptr idle in
  m_pListeners s = {[nullptr]}
  /\ m_pListeners s <> m_pListeners idle
  /\ log s = log idle
  /\ m_pListeners (RemoveListener false nullptr s) <> m_pListeners s
  /\ log (RemoveListener false nullptr s) = log s.
Proof.
  intros s.
  assert (Hadd : m_pListeners s = {[nullptr]}).
  { subst s. simpl. set_solver. }
  assert (Hin : bool_decide (nullptr ∉ m_pListeners s) = false).
  { apply bool_decide_eq_false_2. rewrite Hadd. set_solver. }
  assert (Hrm : RemoveListener false nullptr s =
                set_m_pListeners (m_pListeners s ∖ {[nullptr]}) s).
  { unfold RemoveListener. rewrite Hin. reflexivity. }
  split; [exact Hadd|].
  split; [rewrite Hadd; simpl; set_solver|].
  split; [reflexivity|].
  rewrite Hrm. unfold set_m_pListeners. cbn [m_pListeners log].
  split; [rewrite Hadd; set_solver | reflexivity].
Qed.

End RegistryFacts.

Module EventListenerFacts.
Import EventManager EventListener RegistryFacts.

Section Moves.

Context {Callback U : Type}.
Implicit Types (s : process Callback U).

(** C7. For a source [other] and a target [this] that are different
    handles:
    - move-construction leaves the source unregistered, the target
      registered and holding the callback the source had, and the source's
      callback empty;
    - move-assignment leaves the source unregistered, the target holding
      the callback the source had and registered exactly if it was before,
      and the source's callback empty;
    - neither touches the registration of any third handle;
    - destruction is a call of [RemoveListener] on the handle whatever its
      state: afterwards the handle is not registered, and when it was not
      registered before (a moved-from shell) the call ends in the warning;
    - the copy constructor and the copy assignment are deleted. *)
Theorem listener_move_and_destroy AE_DEBUG (this other : addr) s :
  this <> other ->
  (let s' := move_constructor AE_DEBUG this other s in
   (Some other ∉ m_pListeners s')
   /\ m_Callback s' this = m_Callback s other
   /\ Some this ∈ m_pListeners s'
   /\ m_Callback s' other = None
   /\ (forall p, p <> Some this -> p <> Some other ->
         p ∈ m_pListeners s' <-> p ∈ m_pListeners s))
  /\ (let s' := move_assignment AE_DEBUG this other s in
      (Some other ∉ m_pListeners s')
      /\ m_Callback s' this = m_Callback s other
      /\ (Some this ∈ m_pListeners s' <-> Some this ∈ m_pListeners s)
      /\ m_Callback s' other = None
      /\ (forall p, p <> Some other ->
            p ∈ m_pListeners s' <-> p ∈ m_pListeners s))
  /\ (let s' := destructor AE_DEBUG this s in
      s' = RemoveListener AE_DEBUG (Some this) s
      /\ (Some this ∉ m_pListeners s')
      /\ (Some this ∉ m_pListeners s -> warned s s'))
  /\ declared CopyConstructor = Deleted
  /\ declared CopyAssignment = Deleted.
Proof.
  intros Hne.
  assert (Hne' : Some other <> Some this) by congruence.
  split; [|split; [|split; [|split; reflexivity]]].
  - unfold move_constructor. cbn zeta. cbn [set_m_Callback m_pListeners m_Callback].
    split; [|split; [|split; [|split]]].
    + rewrite AddListener_other by assumption. apply RemoveListener_gone.
    + rewrite AddListener_m_Callback, RemoveListener_m_Callback. simpl.
      rewrite fn_lookup_insert_ne by congruence. apply fn_lookup_insert.
    + apply AddListener_elem.
    + apply fn_lookup_insert.
    + intros p Hp1 Hp2.
      rewrite AddListener_other, RemoveListener_other by assumption.
      reflexivity.
  - unfold move_assignment. rewrite bool_decide_eq_true_2 by assumption.
    cbn zeta. cbn [set_m_Callback m_pListeners m_Callback].
    split; [|split; [|split; [|split]]].
    + apply RemoveListener_gone.
    + rewrite RemoveListener_m_Callback.
      rewrite fn_lookup_insert_ne by congruence. apply fn_lookup_insert.
    + apply RemoveListener_other. congruence.
    + apply fn_lookup_insert.
    + intros p Hp. apply RemoveListener_other, Hp.
  - unfold destructor. cbn zeta.
    split; [reflexivity|]. split; [apply RemoveListener_gone|].
    apply RemoveListener_absent.
Qed.

End Moves.

(** A listener constructed at address 1 with callable 5 is moved to
    address 2, in a validated build. *)
Lemma listener_move_and_destroy_witness :
  let s := constructor_callback true 1%positive (Some 5%nat) idle in
  (2 <> 1)%positive
  /\ (Some 1%positive ∉ m_pListeners (move_constructor true 2%positive 1%positive s))
  /\ m_Callback (move_constructor true 2%positive 1%positive s) 2%positive = Some 5%nat
  /\ Some 2%positive ∈ m_pListeners (move_constructor true 2%positive 1%positive s)
  /\ m_Callback (move_constructor true 2%positive 1%positive s) 1%positive = None.
Proof.
  intros s.
  assert (Hne : (2 <> 1)%positive) by discriminate.
  destruct (listener_move_and_destroy true 2%positive 1%positive s Hne)
    as ((H1 & H2 & H3 & H4 & _) & _).
  split; [exact Hne|]. split; [exact H1|]. split; [|split; [exact H3 | exact H4]].
  rewrite H2. reflexivity.
Defined.

End EventListenerFacts.

(** The broadcast of a key press to the three listeners of the example,
    in the order in which the set enumerates them. *)
Lemma broadcast_reaches_every_listener_witness :
  (nullptr ∉ m_pListeners BroadcastExample.three)
  /\ exists event' s' visits,
      EventManager.DispatchEvent BroadcastExample.call elements
        BroadcastExample.key_pressed BroadcastExample.three
      = Some (event', s', visits)
      /\ map EventManager.visited visits = elements (m_pListeners BroadcastExample.three)
      /\ Forall EventManager.visit_ok visits
      /\ forall a, a ∈ EventManager.invoked visits <->
           Some a ∈ m_pListeners BroadcastExample.three
           /\ is_Some (m_Callback BroadcastExample.three a).
Proof.
  assert (Hnull : nullptr ∉ m_pListeners BroadcastExample.three).
  { vm_compute. set_solver. }
  split; [exact Hnull|].
  destruct (EventManagerFacts.broadcast_reaches_every_listener
              BroadcastExample.call elements (fun r => reflexivity (elements r))
              BroadcastExample.key_pressed BroadcastExample.three Hnull)
    as (event' & s' & visits & H1 & H2 & _ & H4 & _ & _ & _ & H7).
  exists event', s', visits.
  split; [exact H1|]. split; [exact H2|]. split; [exact H4|].
  apply H7. reflexivity.
Defined.

(** ** The layer stack *)

Module LayerStackFacts.
Import LayerStack.

Section Facts.

Context (AE_DEBUG : bool).
Context {U double : Type}.
Context (vptr : addr -> Layer.vtable U double).
Implicit Types (s : t U) (h : Layer.hook double) (pLayer : ptr) (a : addr).

(** *** Hooks leave the stack's members and the log alone *)

Lemma same_stack_refl s : same_stack s s.
Proof. split; reflexivity. Qed.

Lemma same_stack_trans s1 s2 s3 :
  same_stack s1 s2 -> same_stack s2 s3 -> same_stack s1 s3.
Proof. intros [H1 H2] [H3 H4]. split; congruence. Qed.

Lemma call_same_stack h a s : same_stack s (call vptr h a s).2.
Proof.
  unfold call. destruct (Layer.perform h (vptr a) (world s)).
  split; reflexivity.
Qed.

Lemma call_log h a s : log (call vptr h a s).2 = log s.
Proof.
  unfold call. destruct (Layer.perform h (vptr a) (world s)). reflexivity.
Qed.

Lemma call_world h a s :
  world (call vptr h a s).2 = (Layer.perform h (vptr a) (world s)).2.
Proof.
  unfold call. destruct (Layer.perform h (vptr a) (world s)). reflexivity.
Qed.

Lemma call_hook h a s :
  (call vptr h a s).1 = (Layer.perform h (vptr a) (world s)).1.
Proof.
  unfold call. destruct (Layer.perform h (vptr a) (world s)). reflexivity.
Qed.

Lemma call_plain h a s : plain h -> (call vptr h a s).1 = h.
Proof.
  intros Hplain. rewrite call_hook.
  destruct h; simpl; try reflexivity. contradiction.
Qed.

Lemma call_event event a s :
  (call vptr (Layer.EventHook event) a s).1 =
  Layer.EventHook (Layer.OnEvent (vptr a) event (world s)).1.
Proof.
  rewrite call_hook. simpl.
  destruct (Layer.OnEvent (vptr a) event (world s)). reflexivity.
Qed.

(** *** One visit *)

Lemma visit_spec h pLayer s :
  let r := visit vptr h pLayer s in
  entry r.2 = pLayer
  /\ step_ok r.2
  /\ chained vptr h s [r.2] r.1.1 r.1.2
  /\ same_stack s r.1.2.
Proof.
  unfold visit. destruct pLayer as [a|]; simpl.
  - destruct (IsEnabled a s) eqn:He; simpl.
    + destruct (call vptr h a s) as [h1 s1] eqn:Hc. simpl.
      repeat split; try assumption; try (rewrite Hc; reflexivity).
      * pose proof (call_same_stack h a s) as [H _]. rewrite Hc in H. exact H.
      * pose proof (call_same_stack h a s) as [_ H]. rewrite Hc in H. exact H.
    + repeat split; assumption.
  - repeat split.
Qed.

Lemma visit_hook h pLayer s :
  match (visit vptr h pLayer s).2 with
  | Invoked h0 _ s0 | Skipped h0 _ s0 => h0 = h /\ s0 = s
  end.
Proof.
  unfold visit. destruct pLayer as [a|]; simpl; [|auto].
  destruct (IsEnabled a s); simpl; [|auto].
  destruct (call vptr h a s). simpl. auto.
Qed.

Lemma visit_plain h pLayer s : plain h -> (visit vptr h pLayer s).1.1 = h.
Proof.
  intros Hplain. unfold visit. destruct pLayer as [a|]; simpl; [|reflexivity].
  destruct (IsEnabled a s); simpl; [|reflexivity].
  pose proof (call_plain h a s Hplain) as H.
  destruct (call vptr h a s). exact H.
Qed.

Lemma visit_event event pLayer s :
  exists event', (visit vptr (Layer.EventHook event) pLayer s).1.1 = Layer.EventHook event'.
Proof.
  unfold visit. destruct pLayer as [a|]; simpl; [|eauto].
  destruct (IsEnabled a s); simpl; [|eauto].
  pose proof (call_event event a s) as H.
  destruct (call vptr (Layer.EventHook event) a s). simpl in *. eauto.
Qed.

Lemma chained_cons h s st steps h1 s1 h' s' :
  chained vptr h s [st] h1 s1 -> chained vptr h1 s1 steps h' s' ->
  chained vptr h s (st :: steps) h' s'.
Proof.
  destruct st as [h0 a s0|h0 p s0]; simpl.
  - intros (-> & -> & -> & ->) H. auto.
  - intros (-> & -> & -> & ->) H. auto.
Qed.

(** *** The forward loop *)

Lemma for_each_spec todo h s :
  plain h ->
  let r := for_each vptr todo h s in
  map entry r.2 = todo
  /\ Forall step_ok r.2
  /\ chained vptr h s r.2 h r.1
  /\ same_stack s r.1.
Proof.
  intros Hplain. revert s. induction todo as [|pLayer todo IH]; intros s.
  - simpl. repeat split. constructor.
  - simpl.
    pose proof (visit_spec h pLayer s) as (He & Hok & Hch & Hsame).
    pose proof (visit_plain h pLayer s Hplain) as Hh.
    destruct (visit vptr h pLayer s) as [[h1 s1] st] eqn:Hv.
    simpl in He, Hok, Hch, Hsame, Hh. subst h1.
    specialize (IH s1) as (IHe & IHok & IHch & IHsame).
    destruct (for_each vptr todo h s1) as [s2 steps] eqn:Hf.
    cbn [fst snd map] in *. split; [f_equal; assumption|].
    split; [constructor; assumption|].
    split; [|exact (same_stack_trans _ _ _ Hsame IHsame)].
    exact (chained_cons _ _ _ _ _ _ _ _ Hch IHch).
Qed.

(** *** The loop of [OnEvent] *)

Lemma OnEvent_loop_spec todo event s :
  let r := OnEvent_loop vptr todo event s in
  exists visited rest,
    todo = visited ++ rest
    /\ map entry r.2 = visited
    /\ Forall step_ok r.2
    /\ Forall unconsumed r.2
    /\ chained vptr (Layer.EventHook event) s r.2 (Layer.EventHook r.1.1) r.1.2
    /\ (rest = [] \/ Event.IsConsumed r.1.1 = true)
    /\ same_stack s r.1.2.
Proof.
  revert event s. induction todo as [|pLayer todo IH]; intros event s.
  - exists [], []. simpl. repeat split; auto.
  - simpl. destruct (Event.IsConsumed event) eqn:Hcons.
    + exists [], (pLayer :: todo). simpl. repeat split; auto.
    + pose proof (visit_spec (Layer.EventHook event) pLayer s) as (He & Hok & Hch & Hsame).
      pose proof (visit_event event pLayer s) as [event1 Hh].
      pose proof (visit_hook (Layer.EventHook event) pLayer s) as Hst.
      destruct (visit vptr (Layer.EventHook event) pLayer s) as [[h1 s1] st] eqn:Hv.
      simpl in He, Hok, Hch, Hsame, Hh, Hst. subst h1.
      specialize (IH event1 s1)
        as (visited & rest & -> & IHe & IHok & IHun & IHch & IHrest & IHsame).
      destruct (OnEvent_loop vptr (visited ++ rest) event1 s1) as [[event2 s2] steps] eqn:Hl.
      cbn [fst snd map] in *. exists (pLayer :: visited), rest.
      split; [reflexivity|]. split; [f_equal; assumption|].
      split; [constructor; assumption|].
      split.
      { constructor; [|assumption].
        destruct st as [h0 a s0|h0 p s0]; destruct Hst as [-> _]; exact Hcons. }
      split; [exact (chained_cons _ _ _ _ _ _ _ _ Hch IHch)|].
      split; [assumption|].
      exact (same_stack_trans _ _ _ Hsame IHsame).
Qed.

(** *** [std::find] *)

Lemma std_find_Some first last pLayer (l : list ptr) it :
  std_find first last pLayer l = Some it ->
  (first <= it < last)%nat
  /\ l !! it = Some pLayer
  /\ forall j, (first <= j < it)%nat -> l !! j <> Some pLayer.
Proof.
  unfold std_find. intros H.
  apply fmap_Some in H as ([i x] & Hfind & ->). simpl.
  apply list_find_Some in Hfind as (Hl & -> & Hmin).
  apply lookup_take_Some in Hl as [Hl Hi]. rewrite lookup_drop in Hl.
  split; [lia|]. split; [exact Hl|].
  intros j Hj Hjp. apply (Hmin (j - first)%nat pLayer); [|lia|reflexivity].
  rewrite lookup_take_lt by lia. rewrite lookup_drop.
  replace (first + (j - first))%nat with j by lia. exact Hjp.
Qed.

Lemma std_find_None first last pLayer (l : list ptr) :
  std_find first last pLayer l = None <->
  pLayer ∉ take (last - first) (drop first l).
Proof.
  unfold std_find. rewrite fmap_None, list_find_None, Forall_forall. split.
  - intros H Hin. exact (H pLayer Hin eq_refl).
  - intros H x Hx ->. exact (H Hx).
Qed.

Lemma std_find_layers s :
  take (Z.to_nat (m_LayerInsertIndex s) - 0) (drop 0 (m_Layers s)) = layers s.
Proof. rewrite Nat.sub_0_r. reflexivity. Qed.

Lemma std_find_overlays s :
  take (length (m_Layers s) - Z.to_nat (m_LayerInsertIndex s))
    (drop (Z.to_nat (m_LayerInsertIndex s)) (m_Layers s)) = overlays s.
Proof. unfold overlays. apply take_ge. rewrite length_drop. lia. Qed.

Lemma partitions s : m_Layers s = layers s ++ overlays s.
Proof. symmetry. apply take_drop. Qed.

(** *** Pushing and popping, case by case *)

Lemma warned_same_stack s s' : warned s s' -> same_stack s s'.
Proof. intros (format & args & ->). split; reflexivity. Qed.

Lemma PushLayer_refused pLayer s :
  accepts AE_DEBUG pLayer s = false ->
  warned s (PushLayer AE_DEBUG vptr pLayer s).1
  /\ (PushLayer AE_DEBUG vptr pLayer s).2 = [].
Proof.
  unfold accepts, PushLayer, warned. destruct pLayer as [a|].
  - intros H. apply negb_false_iff in H. rewrite H. simpl. eauto.
  - intros _. simpl. eauto.
Qed.

Lemma PushLayer_accepted a s :
  accepts AE_DEBUG (Some a) s = true ->
  let at_call :=
    mk (vector_insert (Z.to_nat (m_LayerInsertIndex s)) (Some a) (m_Layers s))
       (static_cast_uint32 (m_LayerInsertIndex s + 1)) (world s) (log s) in
  let s3 := (call vptr Layer.AttachHook a at_call).2 in
  PushLayer AE_DEBUG vptr (Some a) s =
  (AE_LOG Log.AE_TRACE "Pushed layer: {}" [GetName a s3] s3,
   [Invoked Layer.AttachHook a at_call]).
Proof.
  unfold accepts, PushLayer. intros H. apply negb_true_iff in H. rewrite H.
  reflexivity.
Qed.

Lemma PushOverlay_refused pOverlay s :
  accepts AE_DEBUG pOverlay s = false ->
  warned s (PushOverlay AE_DEBUG vptr pOverlay s).1
  /\ (PushOverlay AE_DEBUG vptr pOverlay s).2 = [].
Proof.
  unfold accepts, PushOverlay, warned. destruct pOverlay as [a|].
  - intros H. apply negb_false_iff in H. rewrite H. simpl. eauto.
  - intros _. simpl. eauto.
Qed.

Lemma PushOverlay_accepted a s :
  accepts AE_DEBUG (Some a) s = true ->
  let at_call := mk (m_Layers s ++ [Some a]) (m_LayerInsertIndex s) (world s) (log s) in
  let s2 := (call vptr Layer.AttachHook a at_call).2 in
  PushOverlay AE_DEBUG vptr (Some a) s =
  (AE_LOG Log.AE_TRACE "Pushed overlay: {}" [GetName a s2] s2,
   [Invoked Layer.AttachHook a at_call]).
Proof.
  unfold accepts, PushOverlay. intros H. apply negb_true_iff in H. rewrite H.
  reflexivity.
Qed.

Lemma PopLayer_absent pLayer s :
  pLayer ∉ layers s ->
  warned s (PopLayer vptr pLayer s).1 /\ (PopLayer vptr pLayer s).2 = [].
Proof.
  intros Hout. unfold PopLayer, warned. destruct pLayer as [a|]; [|simpl; eauto].
  rewrite (proj2 (std_find_None _ _ _ _)); [simpl; eauto|].
  rewrite std_find_layers; assumption.
Qed.

Lemma PopLayer_found a s :
  Some a ∈ layers s ->
  exists it,
    std_find 0 (Z.to_nat (m_LayerInsertIndex s)) (Some a) (m_Layers s) = Some it
    /\ let s1 := (call vptr Layer.DetachHook a s).2 in
       let s3 := mk (delete it (m_Layers s1))
                   (static_cast_uint32 (m_LayerInsertIndex s1 - 1))
                   (world s1) (log s1) in
       PopLayer vptr (Some a) s =
       (AE_LOG Log.AE_TRACE "Popped layer: {}" [GetName a s3] s3,
        [Invoked Layer.DetachHook a s]).
Proof.
  intros Hin.
  destruct (std_find 0 (Z.to_nat (m_LayerInsertIndex s)) (Some a) (m_Layers s))
    as [it|] eqn:Hfind.
  - exists it. split; [reflexivity|]. unfold PopLayer. rewrite Hfind. reflexivity.
  - apply std_find_None in Hfind. rewrite std_find_layers in Hfind.
    contradiction.
Qed.

Lemma PopOverlay_absent pOverlay s :
  pOverlay ∉ overlays s ->
  warned s (PopOverlay vptr pOverlay s).1 /\ (PopOverlay vptr pOverlay s).2 = [].
Proof.
  intros Hout. unfold PopOverlay, warned. destruct pOverlay as [a|]; [|simpl; eauto].
  rewrite (proj2 (std_find_None _ _ _ _)); [simpl; eauto|].
  rewrite std_find_overlays; assumption.
Qed.

Lemma PopOverlay_found a s :
  Some a ∈ overlays s ->
  exists it,
    std_find (Z.to_nat (m_LayerInsertIndex s)) (length (m_Layers s)) (Some a)
      (m_Layers s) = Some it
    /\ let s1 := (call vptr Layer.DetachHook a s).2 in
       let s2 := mk (delete it (m_Layers s1)) (m_LayerInsertIndex s1)
                   (world s1) (log s1) in
       PopOverlay vptr (Some a) s =
       (AE_LOG Log.AE_TRACE "Popped overlay: {}" [GetName a s2] s2,
        [Invoked Layer.DetachHook a s]).
Proof.
  intros Hin.
  destruct (std_find (Z.to_nat (m_LayerInsertIndex s)) (length (m_Layers s))
              (Some a) (m_Layers s)) as [it|] eqn:Hfind.
  - exists it. split; [reflexivity|]. unfold PopOverlay. rewrite Hfind. reflexivity.
  - apply std_find_None in Hfind. rewrite std_find_overlays in Hfind.
    contradiction.
Qed.

(** *** The boundary *)

Lemma boundary_ok_same_stack s s' : same_stack s s' -> boundary_ok s -> boundary_ok s'.
Proof. intros [Hl Hi]. unfold boundary_ok. rewrite Hl, Hi. auto. Qed.

Lemma length_vector_insert i pLayer (l : list ptr) :
  length (vector_insert i pLayer l) = S (length l).
Proof.
  unfold vector_insert. rewrite length_app. simpl.
  rewrite length_take, length_drop. lia.
Qed.

Lemma lookup_vector_insert i pLayer (l : list ptr) :
  (i <= length l)%nat -> vector_insert i pLayer l !! i = Some pLayer.
Proof.
  intros Hi. unfold vector_insert.
  rewrite lookup_app_r by (rewrite length_take; lia).
  rewrite length_take_le by lia. rewrite Nat.sub_diag. reflexivity.
Qed.

Lemma PushLayer_stack a s :
  accepts AE_DEBUG (Some a) s = true ->
  m_Layers (PushLayer AE_DEBUG vptr (Some a) s).1 =
    vector_insert (Z.to_nat (m_LayerInsertIndex s)) (Some a) (m_Layers s)
  /\ m_LayerInsertIndex (PushLayer AE_DEBUG vptr (Some a) s).1 =
    static_cast_uint32 (m_LayerInsertIndex s + 1).
Proof.
  intros Hacc. rewrite (PushLayer_accepted a s Hacc). cbn zeta. cbn [fst].
  match goal with |- context [call vptr ?h a ?x] =>
    destruct (call_same_stack h a x) as [H1 H2] end.
  split; [exact H1 | exact H2].
Qed.

Lemma PushOverlay_stack a s :
  accepts AE_DEBUG (Some a) s = true ->
  m_Layers (PushOverlay AE_DEBUG vptr (Some a) s).1 = m_Layers s ++ [Some a]
  /\ m_LayerInsertIndex (PushOverlay AE_DEBUG vptr (Some a) s).1 =
    m_LayerInsertIndex s.
Proof.
  intros Hacc. rewrite (PushOverlay_accepted a s Hacc). cbn zeta. cbn [fst].
  match goal with |- context [call vptr ?h a ?x] =>
    destruct (call_same_stack h a x) as [H1 H2] end.
  split; [exact H1 | exact H2].
Qed.

Lemma PopLayer_stack a s :
  boundary_ok s -> Some a ∈ layers s ->
  exists it,
    (it < Z.to_nat (m_LayerInsertIndex s))%nat
    /\ m_Layers s !! it = Some (Some a)
    /\ (Some a ∉ take it (m_Layers s))
    /\ m_Layers (PopLayer vptr (Some a) s).1 = delete it (m_Layers s)
    /\ m_LayerInsertIndex (PopLayer vptr (Some a) s).1 = m_LayerInsertIndex s - 1
    /\ (PopLayer vptr (Some a) s).2 = [Invoked Layer.DetachHook a s]
    /\ world (PopLayer vptr (Some a) s).1 = Layer.OnDetach (vptr a) (world s).
Proof.
  intros [Hrange Hle] Hin.
  destruct (PopLayer_found a s Hin) as (it & Hfind & Hpop).
  apply std_find_Some in Hfind as (Hit & Hlook & Hfirst).
  exists it. rewrite Hpop. cbn zeta. cbn [fst snd].
  destruct (call_same_stack Layer.DetachHook a s) as [H1 H2].
  split; [lia|]. split; [exact Hlook|].
  split.
  { intros Hmem. apply elem_of_take in Hmem as (j & Hj & Hlt).
    apply (Hfirst j); [lia | exact Hj]. }
  unfold AE_LOG. cbn [m_Layers m_LayerInsertIndex world].
  rewrite H1, H2, call_world.
  split; [reflexivity|]. split; [|split; reflexivity].
  unfold static_cast_uint32. apply Z.mod_small. lia.
Qed.

Lemma PopOverlay_stack a s :
  Some a ∈ overlays s ->
  exists it,
    (Z.to_nat (m_LayerInsertIndex s) <= it < length (m_Layers s))%nat
    /\ m_Layers s !! it = Some (Some a)
    /\ m_Layers (PopOverlay vptr (Some a) s).1 = delete it (m_Layers s)
    /\ m_LayerInsertIndex (PopOverlay vptr (Some a) s).1 = m_LayerInsertIndex s.
Proof.
  intros Hin.
  destruct (PopOverlay_found a s Hin) as (it & Hfind & Hpop).
  apply std_find_Some in Hfind as (Hit & Hlook & Hfirst).
  exists it. rewrite Hpop. cbn zeta. cbn [fst snd].
  destruct (call_same_stack Layer.DetachHook a s) as [H1 H2].
  split; [lia|]. split; [exact Hlook|].
  unfold AE_LOG. cbn [m_Layers m_LayerInsertIndex world].
  rewrite H1, H2. split; reflexivity.
Qed.

Lemma OnEvent_same_stack event s : same_stack s (OnEvent vptr event s).1.2.
Proof.
  unfold OnEvent.
  destruct (OnEvent_loop_spec (reverse (m_Layers s)) event s)
    as (visited & rest & _ & _ & _ & _ & _ & _ & H).
  exact H.
Qed.

Lemma for_each_same_stack todo h s :
  plain h -> same_stack s (for_each vptr todo h s).1.
Proof. intros Hplain. apply (for_each_spec todo h s Hplain). Qed.

Lemma PushLayer_refused_same_stack pLayer s :
  accepts AE_DEBUG pLayer s = false ->
  same_stack s (PushLayer AE_DEBUG vptr pLayer s).1.
Proof. intros H. apply warned_same_stack, PushLayer_refused, H. Qed.

Lemma PushOverlay_refused_same_stack pOverlay s :
  accepts AE_DEBUG pOverlay s = false ->
  same_stack s (PushOverlay AE_DEBUG vptr pOverlay s).1.
Proof. intros H. apply warned_same_stack, PushOverlay_refused, H. Qed.

Lemma PopLayer_absent_same_stack pLayer s :
  pLayer ∉ layers s -> same_stack s (PopLayer vptr pLayer s).1.
Proof. intros H. apply warned_same_stack, PopLayer_absent, H. Qed.

Lemma PopOverlay_absent_same_stack pOverlay s :
  pOverlay ∉ overlays s -> same_stack s (PopOverlay vptr pOverlay s).1.
Proof. intros H. apply warned_same_stack, PopOverlay_absent, H. Qed.

Create HintDb stack discriminated.

#[local] Hint Resolve same_stack_refl call_same_stack OnEvent_same_stack
  for_each_same_stack PushLayer_refused_same_stack
  PushOverlay_refused_same_stack PopLayer_absent_same_stack
  PopOverlay_absent_same_stack : stack.
#[local] Hint Extern 1 (plain _) => exact I : stack.

(** Closes [boundary_ok] of a state that has the stack members of a state
    known to be [boundary_ok]. *)
Local Ltac unchanged Hok :=
  match type of Hok with
  | boundary_ok ?s =>
      apply (boundary_ok_same_stack s); [solve [eauto with stack] | exact Hok]
  end.

Lemma boundary_ok_execute o s :
  boundary_ok s -> boundary_ok (execute AE_DEBUG vptr o s).
Proof.
  intros Hok. pose proof Hok as [Hrange Hle].
  destruct o as [p|p|p|p|event|deltaTime| | |f]; cbn [execute];
    try (unfold OnUpdate, OnRender, OnImGuiRender; unchanged Hok).
  - destruct (accepts AE_DEBUG p s) eqn:Hacc; [|unchanged Hok].
    destruct p as [a|]; [|discriminate].
    destruct (PushLayer_stack a s Hacc) as [Hl Hi].
    unfold boundary_ok. rewrite Hl, Hi, length_vector_insert.
    unfold static_cast_uint32.
    pose proof (Z.mod_pos_bound (m_LayerInsertIndex s + 1) (2 ^ 32)).
    pose proof (Z.mod_le (m_LayerInsertIndex s + 1) (2 ^ 32)). lia.
  - destruct (decide (p ∈ layers s)) as [Hin|Hout]; [|unchanged Hok].
    destruct p as [a|]; [|exact Hok].
    destruct (PopLayer_stack a s Hok Hin) as (it & Hit & Hlook & _ & Hl & Hi & _).
    unfold boundary_ok. rewrite Hl, Hi, length_delete by eauto. lia.
  - destruct (accepts AE_DEBUG p s) eqn:Hacc; [|unchanged Hok].
    destruct p as [a|]; [|discriminate].
    destruct (PushOverlay_stack a s Hacc) as [Hl Hi].
    unfold boundary_ok. rewrite Hl, Hi, length_app. simpl. lia.
  - destruct (decide (p ∈ overlays s)) as [Hin|Hout]; [|unchanged Hok].
    destruct p as [a|]; [|exact Hok].
    destruct (PopOverlay_stack a s Hin) as (it & Hit & Hlook & Hl & Hi).
    unfold boundary_ok. rewrite Hl, Hi, length_delete by eauto. lia.
  - exact Hok.
Qed.

Lemma boundary_ok_reachable s : reachable AE_DEBUG vptr s -> boundary_ok s.
Proof.
  induction 1 as [w l|o s _ IH].
  - unfold boundary_ok. simpl. lia.
  - apply boundary_ok_execute, IH.
Qed.

(** *** The specified behaviour *)

(** The member functions keep the boundary.  In every state a stack
    reaches from its construction through [PushLayer], [PopLayer],
    [PushOverlay], [PopOverlay] and the four passes (the defaulted move
    operations apart, which are not among the operations of [reachable]),
    the boundary is between 0 and the length of the stored sequence.
    There,
    - a [PushLayer] that goes through increments the boundary (the
      increment of a [uint32_t]: plus one, as long as the sequence has fewer
      than 2^32 - 1 entries);
    - a [PopLayer] that finds its layer within the layer partition
      decrements it;
    - [PushOverlay] and [PopOverlay] leave it as it is, whatever they are
      given;
    - so do a [PushLayer] that is refused and a [PopLayer] that does not
      find its layer within the layer partition. *)
Theorem boundary_invariant s :
  reachable AE_DEBUG vptr s ->
  0 <= m_LayerInsertIndex s <= Z.of_nat (length (m_Layers s))
  /\ (forall pLayer, accepts AE_DEBUG pLayer s = true ->
        m_LayerInsertIndex (PushLayer AE_DEBUG vptr pLayer s).1
        = static_cast_uint32 (m_LayerInsertIndex s + 1)
        /\ (Z.of_nat (length (m_Layers s)) + 1 < 2 ^ 32 ->
            m_LayerInsertIndex (PushLayer AE_DEBUG vptr pLayer s).1
            = m_LayerInsertIndex s + 1))
  /\ (forall a, Some a ∈ layers s ->
        m_LayerInsertIndex (PopLayer vptr (Some a) s).1 = m_LayerInsertIndex s - 1)
  /\ (forall pOverlay,
        m_LayerInsertIndex (PushOverlay AE_DEBUG vptr pOverlay s).1
        = m_LayerInsertIndex s
        /\ m_LayerInsertIndex (PopOverlay vptr pOverlay s).1 = m_LayerInsertIndex s)
  /\ (forall pLayer, accepts AE_DEBUG pLayer s = false ->
        m_LayerInsertIndex (PushLayer AE_DEBUG vptr pLayer s).1 = m_LayerInsertIndex s)
  /\ (forall pLayer, pLayer ∉ layers s ->
        m_LayerInsertIndex (PopLayer vptr pLayer s).1 = m_LayerInsertIndex s).
Proof.
  intros Hreach. pose proof (boundary_ok_reachable s Hreach) as Hok.
  pose proof Hok as [Hrange Hle].
  split; [lia|]. split; [|split; [|split; [|split]]].
  - intros [a|] Hacc; [|discriminate].
    destruct (PushLayer_stack a s Hacc) as [_ Hi]. split; [exact Hi|].
    intros Hroom. rewrite Hi. unfold static_cast_uint32. apply Z.mod_small. lia.
  - intros a Hin.
    destruct (PopLayer_stack a s Hok Hin) as (it & _ & _ & _ & _ & Hi & _).
    exact Hi.
  - intros pOverlay. split.
    + destruct (accepts AE_DEBUG pOverlay s) eqn:Hacc.
      * destruct pOverlay as [a|]; [|discriminate].
        apply (PushOverlay_stack a s Hacc).
      * apply warned_same_stack, PushOverlay_refused, Hacc.
    + destruct (decide (pOverlay ∈ overlays s)) as [Hin|Hout];
        [destruct pOverlay as [a|]|].
      * destruct (PopOverlay_stack a s Hin) as (it & _ & _ & _ & Hi). exact Hi.
      * reflexivity.
      * apply warned_same_stack, PopOverlay_absent, Hout.
  - intros pLayer Hacc. apply warned_same_stack, PushLayer_refused, Hacc.
  - intros pLayer Hout. apply warned_same_stack, PopLayer_absent, Hout.
Qed.

(** C4. In every state a stack reaches:
    - [PushLayer] on the null pointer logs a warning and changes nothing
      else, and calls no hook;
    - in a validated build, so does [PushLayer] on a pointer that is in the
      stack already, wherever;
    - otherwise [PushLayer] puts the pointer at the boundary index (the
      layers before it and the overlays after it stay as they are),
      increments the boundary, and then calls the layer's [OnAttach], once:
      at the call the stack has its new contents and boundary, and the
      world is still the one from before;
    - [PopLayer] on a pointer that is within the layer partition calls the
      layer's [OnDetach], once and with the stack still as it was, erases
      the first occurrence of the pointer and decrements the boundary;
    - [PopLayer] on a pointer that is not within the layer partition, be it
      an overlay of the stack, logs a warning and changes nothing else, and
      calls no hook. *)
Theorem PushLayer_PopLayer_behaviour s :
  reachable AE_DEBUG vptr s ->
  (warned s (PushLayer AE_DEBUG vptr nullptr s).1
   /\ (PushLayer AE_DEBUG vptr nullptr s).2 = [])
  /\ (forall a, AE_DEBUG = true -> Some a ∈ m_Layers s ->
        warned s (PushLayer AE_DEBUG vptr (Some a) s).1
        /\ (PushLayer AE_DEBUG vptr (Some a) s).2 = [])
  /\ (forall a, (AE_DEBUG = true -> Some a ∉ m_Layers s) ->
        exists at_call,
          (PushLayer AE_DEBUG vptr (Some a) s).2 = [Invoked Layer.AttachHook a at_call]
          /\ m_Layers at_call = layers s ++ Some a :: overlays s
          /\ m_Layers at_call !! Z.to_nat (m_LayerInsertIndex s) = Some (Some a)
          /\ m_LayerInsertIndex at_call = static_cast_uint32 (m_LayerInsertIndex s + 1)
          /\ world at_call = world s
          /\ same_stack at_call (PushLayer AE_DEBUG vptr (Some a) s).1
          /\ world (PushLayer AE_DEBUG vptr (Some a) s).1
             = Layer.OnAttach (vptr a) (world s))
  /\ (forall a, Some a ∈ layers s ->
        exists it,
          (it < Z.to_nat (m_LayerInsertIndex s))%nat
          /\ m_Layers s !! it = Some (Some a)
          /\ (Some a ∉ take it (m_Layers s))
          /\ m_Layers (PopLayer vptr (Some a) s).1 = delete it (m_Layers s)
          /\ m_LayerInsertIndex (PopLayer vptr (Some a) s).1 = m_LayerInsertIndex s - 1
          /\ (PopLayer vptr (Some a) s).2 = [Invoked Layer.DetachHook a s]
          /\ world (PopLayer vptr (Some a) s).1 = Layer.OnDetach (vptr a) (world s))
  /\ (forall pLayer, pLayer ∉ layers s ->
        warned s (PopLayer vptr pLayer s).1 /\ (PopLayer vptr pLayer s).2 = []).
Proof.
  intros Hreach. pose proof (boundary_ok_reachable s Hreach) as Hok.
  pose proof Hok as [Hrange Hle].
  split; [|split; [|split; [|split]]].
  - apply PushLayer_refused. reflexivity.
  - intros a Hdebug Hin. apply PushLayer_refused. unfold accepts.
    rewrite Hdebug, bool_decide_eq_true_2 by assumption. reflexivity.
  - intros a Hnew.
    assert (Hacc : accepts AE_DEBUG (Some a) s = true).
    { unfold accepts. apply negb_true_iff.
      apply andb_false_iff.
      destruct AE_DEBUG eqn:Hdebug; [right | left; reflexivity].
      apply bool_decide_eq_false_2, Hnew. reflexivity. }
    rewrite (PushLayer_accepted a s Hacc). cbn zeta. cbn [fst snd].
    eexists. split; [reflexivity|]. cbn [m_Layers m_LayerInsertIndex world].
    split; [reflexivity|]. split.
    { apply lookup_vector_insert. lia. }
    split; [reflexivity|]. split; [reflexivity|]. split.
    { unfold AE_LOG. split; cbn [m_Layers m_LayerInsertIndex];
        apply call_same_stack. }
    unfold AE_LOG. cbn [world]. rewrite call_world. reflexivity.
  - intros a Hin. apply (PopLayer_stack a s Hok Hin).
  - intros pLayer Hout. apply PopLayer_absent, Hout.
Qed.


(** C1. In every state of a stack and for every event, [OnEvent] goes
    through the stored sequence from the back: overlays first, then layers,
    each partition from its last entry to its first.  It visits an initial
    part of that reversed sequence; it invokes [OnEvent] on the visited
    entries that are enabled at their turn and on no other; every visit
    finds the event unconsumed; and it stops short of the end only with the
    event consumed.  So with the stack holding [L1, L2, O], [O] enabled and
    consuming the event, the one hook invoked is [O]'s: [L2] and [L1] are
    not visited. *)
Theorem OnEvent_reverse_until_consumed event s :
  let r := OnEvent vptr event s in
  reverse (m_Layers s) = reverse (overlays s) ++ reverse (layers s)
  /\ (exists rest,
        reverse (m_Layers s) = map entry r.2 ++ rest
        /\ (rest = [] \/ Event.IsConsumed r.1.1 = true))
  /\ Forall step_ok r.2
  /\ Forall unconsumed r.2
  /\ chained vptr (Layer.EventHook event) s r.2 (Layer.EventHook r.1.1) r.1.2
  /\ (forall L1 L2 O,
        m_Layers s = [Some L1; Some L2; Some O] ->
        Event.IsConsumed event = false ->
        IsEnabled O s = true ->
        Event.IsConsumed (Layer.OnEvent (vptr O) event (world s)).1 = true ->
        r.2 = [Invoked (Layer.EventHook event) O s]).
Proof.
  intros r. subst r. unfold OnEvent.
  destruct (OnEvent_loop_spec (reverse (m_Layers s)) event s)
    as (visited & rest & Hsplit & Hentries & Hok & Hun & Hch & Hrest & _).
  split; [|split; [|split; [|split; [|split]]]]; try assumption.
  - rewrite (partitions s) at 1. apply reverse_app.
  - exists rest. rewrite Hentries. auto.
  - intros L1 L2 O Hl Hfresh Hen Hcons. rewrite Hl.
    change (reverse [Some L1; Some L2; Some O]) with [Some O; Some L2; Some L1].
    cbn [OnEvent_loop]. rewrite Hfresh. unfold visit. rewrite Hen.
    pose proof (call_event event O s) as Hcall.
    destruct (call vptr (Layer.EventHook event) O s) as [h1 s1].
    simpl in Hcall. subst h1. cbn [OnEvent_loop]. rewrite Hcons. reflexivity.
Qed.

End Facts.

End LayerStackFacts.

Lemma three_reachable :
  LayerStack.reachable true StackExample.vptr StackExample.three.
Proof.
  repeat apply LayerStack.reachable_execute. apply LayerStack.reachable_make.
Qed.


(** The stack of the example is reached; its boundary is 2 of 3. *)
Lemma boundary_invariant_witness :
  LayerStack.reachable true StackExample.vptr StackExample.three
  /\ 0 <= LayerStack.m_LayerInsertIndex StackExample.three <= 3
  /\ LayerStack.m_LayerInsertIndex
       (LayerStack.PopLayer StackExample.vptr (Some StackExample.L1) StackExample.three).1
     = LayerStack.m_LayerInsertIndex StackExample.three - 1
  /\ LayerStack.m_LayerInsertIndex
       (LayerStack.PopOverlay StackExample.vptr (Some StackExample.O) StackExample.three).1
     = LayerStack.m_LayerInsertIndex StackExample.three.
Proof.
  destruct (LayerStackFacts.boundary_invariant true StackExample.vptr
              StackExample.three three_reachable)
    as (Hrange & _ & Hpop & Hover & _).
  split; [exact three_reachable|].
  split; [exact Hrange|].
  split; [|apply Hover].
  apply Hpop. vm_compute. set_solver.
Defined.

(** On the stack of the example: popping the layer at address 1 detaches
    and erases it; popping the overlay at address 3 as a layer, and pushing
    it once more, end in a warning. *)
Lemma PushLayer_PopLayer_behaviour_witness :
  LayerStack.reachable true StackExample.vptr StackExample.three
  /\ (exists it,
        LayerStack.m_Layers
          (LayerStack.PopLayer StackExample.vptr (Some StackExample.L1) StackExample.three).1
        = delete it (LayerStack.m_Layers StackExample.three)
        /\ (LayerStack.PopLayer StackExample.vptr (Some StackExample.L1) StackExample.three).2
           = [LayerStack.Invoked Layer.DetachHook StackExample.L1 StackExample.three])
  /\ LayerStack.warned StackExample.three
       (LayerStack.PopLayer StackExample.vptr (Some StackExample.O) StackExample.three).1
  /\ LayerStack.warned StackExample.three
       (LayerStack.PushLayer true StackExample.vptr (Some StackExample.O) StackExample.three).1.
Proof.
  destruct (LayerStackFacts.PushLayer_PopLayer_behaviour true StackExample.vptr
              StackExample.three three_reachable)
    as (_ & Hdup & _ & Hpop & Habsent).
  split; [exact three_reachable|].
  split; [|split].
  - destruct (Hpop StackExample.L1) as (it & _ & _ & _ & Hl & _ & Hsteps & _).
    { vm_compute. set_solver. }
    exists it. split; assumption.
  - apply Habsent. vm_compute. set_solver.
  - apply Hdup; [reflexivity|]. vm_compute. set_solver.
Defined.

(** On the stack of the example the overlay consumes the key press: the
    one hook invoked is the overlay's. *)
Lemma OnEvent_reverse_until_consumed_witness :
  (LayerStack.OnEvent StackExample.vptr StackExample.key_pressed StackExample.three).2
  = [LayerStack.Invoked (Layer.EventHook StackExample.key_pressed)
       StackExample.O StackExample.three].
Proof.
  destruct (LayerStackFacts.OnEvent_reverse_until_consumed StackExample.vptr
              StackExample.key_pressed StackExample.three)
    as (_ & _ & _ & _ & _ & Hexample).
  apply (Hexample StackExample.L1 StackExample.L2 StackExample.O); reflexivity.
Defined.


(** ** The examples, evaluated *)

(** The spec's example: [PushLayer(L1); PushLayer(L2)] gives boundary 2;
    [PopLayer(L1)] then leaves [L2] (and the overlay), boundary 1, and
    [OnDetach] of [L1] has run once. *)
Example three_then_PopLayer :
  LayerStack.m_LayerInsertIndex StackExample.three = 2
  /\ (let s := (LayerStack.PopLayer StackExample.vptr (Some StackExample.L1)
                 StackExample.three).1 in
      LayerStack.m_Layers s = [Some StackExample.L2; Some StackExample.O]
      /\ LayerStack.m_LayerInsertIndex s = 1
      /\ Layer.user (LayerStack.world s)
         = [(StackExample.L1, "OnAttach"); (StackExample.L2, "OnAttach");
            (StackExample.O, "OnAttach"); (StackExample.L1, "OnDetach")]).
Proof. repeat split. Qed.

(** A validated build refuses to push the layer at address 1 again, as a
    layer or as an overlay: contents and boundary stay. *)
Example three_refuses_duplicates :
  LayerStack.same_stack StackExample.three
    (LayerStack.PushOverlay true StackExample.vptr (Some StackExample.L1)
       StackExample.three).1
  /\ LayerStack.same_stack StackExample.three
       (LayerStack.PushLayer true StackExample.vptr (Some StackExample.L1)
          StackExample.three).1.
Proof. repeat split. Qed.

(** With a layer that does not consume in front, the event goes on: on the
    stack [L1, L2] the hooks of [L2] and then [L1] see the key press. *)
Example OnEvent_two_layers :
  let s := (LayerStack.PopOverlay StackExample.vptr (Some StackExample.O)
              StackExample.three).1 in
  map LayerStack.entry
    (LayerStack.OnEvent StackExample.vptr StackExample.key_pressed s).2
  = [Some StackExample.L2; Some StackExample.L1].
Proof. reflexivity. Qed.

(** The broadcast of the example runs the callables 10 and 30, each once,
    and passes over the listener without a callback. *)
Example broadcast_three :
  exists event' s' visits,
    EventManager.DispatchEvent BroadcastExample.call elements
      BroadcastExample.key_pressed BroadcastExample.three
    = Some (event', s', visits)
    /\ user s' ≡ₚ [10; 30]%nat
    /\ length visits = 3%nat.
Proof.
  destruct (EventManager.DispatchEvent BroadcastExample.call elements
              BroadcastExample.key_pressed BroadcastExample.three)
    as [[[event' s'] visits]|] eqn:H; vm_compute in H; [|discriminate].
  exists event', s', visits. split; [reflexivity|].
  injection H as <- <- <-. split; [|reflexivity].
  simpl. first [reflexivity | apply Permutation_swap].
Qed.

(** * Further properties of the code *)

(** ** Events and kinds *)

Module EventExtra.
Import EventTypeId EventTypeIdFacts.

(** [IsInCategory] reads one bit of the envelope's mask. *)
Lemma IsInCategory_testbit e c :
  Event.IsInCategory e c =
  match c with
  | EventCategory.NONE => false
  | EventCategory.INPUT => Z.testbit (EventCategoryWrapper.m_Value (Event.m_Categories e)) 0
  | EventCategory.KEYBOARD => Z.testbit (EventCategoryWrapper.m_Value (Event.m_Categories e)) 1
  | EventCategory.MOUSE => Z.testbit (EventCategoryWrapper.m_Value (Event.m_Categories e)) 2
  | EventCategory.CONTROLLER => Z.testbit (EventCategoryWrapper.m_Value (Event.m_Categories e)) 3
  | EventCategory.WINDOW => Z.testbit (EventCategoryWrapper.m_Value (Event.m_Categories e)) 4
  | EventCategory.APPLICATION => Z.testbit (EventCategoryWrapper.m_Value (Event.m_Categories e)) 5
  | EventCategory.CUSTOM => Z.testbit (EventCategoryWrapper.m_Value (Event.m_Categories e)) 6
  end.
Proof.
  unfold Event.IsInCategory, EventCategoryWrapper.ne, EventCategoryWrapper.and,
    EventCategoryWrapper.of_category.
  cbn [EventCategoryWrapper.m_Value].
  set (v := EventCategoryWrapper.m_Value (Event.m_Categories e)).
  assert (Hpow : forall k, 0 <= k < 8 ->
    negb (static_cast_uint8 (Z.land v (static_cast_uint8 (Z.shiftl 1 k))) =?
          static_cast_uint8 0) = Z.testbit v k).
  { intros k Hk.
    assert (H1 : static_cast_uint8 (Z.shiftl 1 k) = 2 ^ k).
    { unfold static_cast_uint8. rewrite Z.shiftl_1_l. apply Z.mod_small.
      split; [lia|]. apply Z.pow_lt_mono_r; lia. }
    rewrite H1.
    assert (H2 : Z.land v (2 ^ k) = if Z.testbit v k then 2 ^ k else 0).
    { apply Z.bits_inj'. intros i Hi. rewrite Z.land_spec, Z.pow2_bits_eqb by lia.
      destruct (Z.eqb_spec k i) as [->|Hne].
      - destruct (Z.testbit v i) eqn:Hv.
        + rewrite Z.pow2_bits_eqb, Z.eqb_refl by lia. reflexivity.
        + rewrite Z.bits_0. reflexivity.
      - rewrite andb_false_r. destruct (Z.testbit v k).
        + rewrite Z.pow2_bits_eqb by lia. symmetry. apply Z.eqb_neq. congruence.
        + rewrite Z.bits_0. reflexivity. }
    rewrite H2. destruct (Z.testbit v k).
    - assert (H3 : static_cast_uint8 (2 ^ k) = 2 ^ k).
      { unfold static_cast_uint8. apply Z.mod_small.
        split; [lia|]. apply Z.pow_lt_mono_r; lia. }
      rewrite H3. unfold static_cast_uint8 at 1. rewrite Z.mod_0_l by lia.
      apply negb_true_iff, Z.eqb_neq. lia.
    - rewrite Z.eqb_refl. reflexivity. }
  destruct c; simpl EventCategory.value; try (apply Hpow; lia).
  rewrite Z.land_0_r. apply negb_false_iff, Z.eqb_refl.
Qed.

Lemma IsInCategory_NONE e : Event.IsInCategory e EventCategory.NONE = false.
Proof. rewrite IsInCategory_testbit. reflexivity. Qed.

(** The masks that [|=] accumulates from a list of flags. *)
Lemma accumulate_testbit cs (m : EventCategoryWrapper.t) i :
  0 <= i < 8 -> 0 <= EventCategoryWrapper.m_Value m < 256 ->
  Z.testbit (EventCategoryWrapper.m_Value
     (foldl (fun m c => EventCategoryWrapper.or_assign m
                          (EventCategoryWrapper.of_category c)) m cs)) i
  = Z.testbit (EventCategoryWrapper.m_Value m) i
    || existsb (fun c => Z.testbit (static_cast_uint8 (EventCategory.value c)) i) cs.
Proof.
  intros Hi. revert m. induction cs as [|c cs IH]; intros m Hm; simpl.
  - rewrite orb_false_r. reflexivity.
  - rewrite IH by apply static_cast_uint8_range. simpl.
    rewrite static_cast_uint8_testbit, Z.lor_spec by lia.
    destruct (Z.ltb_spec i 8); [|lia]. simpl. rewrite orb_assoc. reflexivity.
Qed.

(** X1. An event of a built-in class carries the id that
    [EventTypeId<T>::Get()] returns for the class, whatever custom kinds
    have been allocated; that call allocates nothing; the id is below the
    custom threshold; the event starts unconsumed; and no two built-in
    classes share an id, so the comparison of [GetTypeId()] with
    [EventTypeId<T>::Get()] tells the built-in classes apart. *)
Theorem builtin_envelope_kind (b : builtin) (st : statics) :
  Event.GetTypeId (BuiltinEvent.envelope b) = (Get (Builtin b) st).1
  /\ (Get (Builtin b) st).2 = st
  /\ Event.GetTypeId (BuiltinEvent.envelope b) < EventType.value EventType.CUSTOM_START
  /\ Event.IsConsumed (BuiltinEvent.envelope b) = false
  /\ (forall b', Event.GetTypeId (BuiltinEvent.envelope b') =
                 Event.GetTypeId (BuiltinEvent.envelope b) -> b' = b).
Proof.
  split; [destruct b; reflexivity|]. split; [reflexivity|].
  split; [destruct b; reflexivity|]. split; [destruct b; reflexivity|].
  intros b'.
  destruct b, b'; first [reflexivity | intros H; vm_compute in H; discriminate H].
Qed.

(** X2. The categories of the built-in events follow the id ranges of
    [EventType]: an event is in KEYBOARD, MOUSE, WINDOW, CONTROLLER or
    APPLICATION exactly if its id lies in the hundred of that group
    (100s, 200s, 300s, 400s, 500s); it is in INPUT exactly if it is a
    keyboard, mouse or controller event; no built-in event is in CUSTOM,
    and none is reported to be in NONE. *)
Theorem builtin_envelope_categories (b : builtin) :
  let e := BuiltinEvent.envelope b in
  let id := Event.GetTypeId e in
  Event.IsInCategory e EventCategory.KEYBOARD = (100 <=? id) && (id <? 200)
  /\ Event.IsInCategory e EventCategory.MOUSE = (200 <=? id) && (id <? 300)
  /\ Event.IsInCategory e EventCategory.WINDOW = (300 <=? id) && (id <? 400)
  /\ Event.IsInCategory e EventCategory.CONTROLLER = (400 <=? id) && (id <? 500)
  /\ Event.IsInCategory e EventCategory.APPLICATION = (500 <=? id) && (id <? 600)
  /\ Event.IsInCategory e EventCategory.INPUT =
       Event.IsInCategory e EventCategory.KEYBOARD
       || Event.IsInCategory e EventCategory.MOUSE
       || Event.IsInCategory e EventCategory.CONTROLLER
  /\ Event.IsInCategory e EventCategory.CUSTOM = false
  /\ Event.IsInCategory e EventCategory.NONE = false.
Proof.
  destruct b; repeat split; reflexivity.
Qed.

(** X3. [IsInCategory] is an exact membership test on masks:
    - no event is in NONE;
    - an event whose mask is [A | B] is in a category exactly if an event
      with mask [A] or one with mask [B] is; for [A & B], exactly if both
      are; for [~A] and a category other than NONE, exactly if the event
      with mask [A] is not;
    - an event constructed with the single category [c'] is in [c] exactly
      if [c] is [c'] and not NONE;
    - an event whose mask was accumulated with [|=] from a list of flags,
      starting from the default-constructed wrapper, is in [c] exactly if
      [c] is in the list and not NONE. *)
Theorem IsInCategory_exact typeId (A B : EventCategoryWrapper.t) (c : EventCategory.t) :
  Event.IsInCategory (Event.make typeId A) EventCategory.NONE = false
  /\ Event.IsInCategory (Event.make typeId (A |' B)) c =
       Event.IsInCategory (Event.make typeId A) c
       || Event.IsInCategory (Event.make typeId B) c
  /\ Event.IsInCategory (Event.make typeId (A &' B)) c =
       Event.IsInCategory (Event.make typeId A) c
       && Event.IsInCategory (Event.make typeId B) c
  /\ (c <> EventCategory.NONE ->
      Event.IsInCategory (Event.make typeId (~' A)) c =
        negb (Event.IsInCategory (Event.make typeId A) c))
  /\ (forall c', Event.IsInCategory (Event.make_category typeId c') c = true <->
                 c' = c /\ c <> EventCategory.NONE)
  /\ (forall cs,
        Event.IsInCategory
          (Event.make typeId
             (foldl (fun m c' => EventCategoryWrapper.or_assign m
                                   (EventCategoryWrapper.of_category c'))
                EventCategoryWrapper.default cs)) c = true <->
        c ∈ cs /\ c <> EventCategory.NONE).
Proof.
  split; [apply IsInCategory_NONE|].
  split; [|split; [|split; [|split]]].
  - rewrite !IsInCategory_testbit. cbn [Event.make Event.m_Categories
      EventCategoryWrapper.or EventCategoryWrapper.m_Value].
    destruct c; try reflexivity;
      rewrite static_cast_uint8_testbit, Z.lor_spec by lia; reflexivity.
  - rewrite !IsInCategory_testbit. cbn [Event.make Event.m_Categories
      EventCategoryWrapper.and EventCategoryWrapper.m_Value].
    destruct c; try reflexivity;
      rewrite static_cast_uint8_testbit, Z.land_spec by lia; reflexivity.
  - intros Hc. rewrite !IsInCategory_testbit. cbn [Event.make Event.m_Categories
      EventCategoryWrapper.not EventCategoryWrapper.m_Value].
    destruct c; try congruence;
      rewrite static_cast_uint8_testbit, Z.lnot_spec by lia; reflexivity.
  - intros c'. rewrite IsInCategory_testbit.
    cbn [Event.make_category Event.m_Categories EventCategoryWrapper.of_category
      EventCategoryWrapper.m_Value].
    destruct c, c'; vm_compute; intuition congruence.
  - intros cs. rewrite IsInCategory_testbit.
    cbn [Event.make Event.m_Categories].
    assert (H0 : 0 <= EventCategoryWrapper.m_Value EventCategoryWrapper.default < 256)
      by (simpl; lia).
    assert (Hex : forall i, 0 <= i < 8 ->
      existsb (fun c0 => Z.testbit (static_cast_uint8 (EventCategory.value c0)) i) cs = true
      <-> exists c0, c0 ∈ cs /\ Z.testbit (static_cast_uint8 (EventCategory.value c0)) i = true).
    { intros i Hi. rewrite existsb_exists. setoid_rewrite <- list_elem_of_In. reflexivity. }
    destruct c.
    1: { split; [discriminate | intros [_ H]; congruence]. }
    all: rewrite accumulate_testbit by (lia || exact H0);
      change (Z.testbit (EventCategoryWrapper.m_Value EventCategoryWrapper.default) _)
        with false; rewrite orb_false_l, Hex by lia;
      (split; [intros (c0 & Hin & Hbit); split; [|discriminate];
               destruct c0; vm_compute in Hbit; try discriminate Hbit; exact Hin
              | intros [Hin _]; eexists; split; [exact Hin | reflexivity]]).
Qed.

(** X4. As long as no more than 64536 custom kinds are allocated, the
    16-bit envelope loses nothing: an event constructed with the id of a
    kind carries that very id, and it equals the id that a call of
    [EventTypeId<T>::Get()] for a kind returns afterwards exactly if the
    two kinds are the same. *)
Theorem kind_test_exact st k1 k2 categories :
  reachable st ->
  allocated (Get k2 (Get k1 st).2).2 <= 64536 ->
  Event.GetTypeId (Event.make (Get k1 st).1 categories) = (Get k1 st).1
  /\ (Event.GetTypeId (Event.make (Get k1 st).1 categories)
        = (Get k2 (Get k1 st).2).1 <-> k1 = k2).
Proof.
  intros Hreach Hn.
  assert (Hsame : k1 = k2 -> (Get k2 (Get k1 st).2).1 = (Get k1 st).1).
  { intros <-.
    rewrite (Get_of_id_of k1 (Get k1 st).1 (Get k1 st).2) by apply id_of_Get.
    reflexivity. }
  set (st1 := (Get k1 st).2) in *. set (st2 := (Get k2 st1).2) in *.
  assert (Hinv : inv st2).
  { apply inv_Get, inv_Get, inv_reachable, Hreach. }
  pose proof (allocated_nonneg st2) as Hpos.
  assert (H1 : id_of st2 k1 = Some (Get k1 st).1).
  { apply id_of_Get_mono, id_of_Get. }
  assert (H2 : id_of st2 k2 = Some (Get k2 st1).1) by apply id_of_Get.
  set (id1 := (Get k1 st).1) in *. set (id2 := (Get k2 st1).1) in *.
  clearbody id1 id2.
  assert (Hid : 0 <= id1 < 2 ^ 16).
  { destruct k1 as [b|T]; simpl in H1.
    - injection H1 as <-. destruct b; vm_compute; split; congruence.
    - apply (inv_range _ Hinv) in H1; lia. }
  assert (Hcarried : Event.GetTypeId (Event.make id1 categories) = id1).
  { simpl. unfold static_cast_uint16. apply Z.mod_small. exact Hid. }
  split; [exact Hcarried|]. rewrite Hcarried. split.
  - intros ->. eapply id_of_inj; [exact Hinv | lia | exact H1 | exact H2].
  - intros Hk. symmetry. apply Hsame, Hk.
Qed.

(** Two custom kinds asked for after a built-in one. *)
Lemma kind_test_exact_witness :
  let st := run [Builtin KeyPressedEvent; Custom 7%positive] initial in
  let k1 := Custom 7%positive in
  let k2 := Custom 3%positive in
  let categories := EventCategoryWrapper.of_category EventCategory.CUSTOM in
  (reachable st /\ allocated (Get k2 (Get k1 st).2).2 <= 64536)
  /\ Event.GetTypeId (Event.make (Get k1 st).1 categories) = (Get k1 st).1
  /\ (Event.GetTypeId (Event.make (Get k1 st).1 categories)
        = (Get k2 (Get k1 st).2).1 <-> k1 = k2).
Proof.
  intros st k1 k2 categories.
  assert (Hreach : reachable st) by apply run_steps.
  assert (Hn : allocated (Get k2 (Get k1 st).2).2 <= 64536)
    by (vm_compute; discriminate).
  split; [split; assumption|].
  exact (kind_test_exact st k1 k2 categories Hreach Hn).
Defined.

Lemma run_dom ks st T :
  is_Some (s_Id (run ks st) !! T) <-> is_Some (s_Id st !! T) \/ Custom T ∈ ks.
Proof.
  revert st. induction ks as [|k ks IH]; intros st.
  - simpl. split; [auto | intros [H|H]; [exact H | apply elem_of_nil in H; contradiction]].
  - change (run (k :: ks) st) with (run ks (Get k st).2). rewrite IH.
    rewrite elem_of_cons.
    destruct k as [b|T']; simpl.
    + split; [intros [H|H]; auto | intros [H|[H|H]]; [auto | discriminate | auto]].
    + destruct (s_Id st !! T') as [id|] eqn:E; simpl.
      * split; [intros [H|H]; auto|].
        intros [H|[H|H]]; [auto | | auto].
        injection H as ->. left. rewrite E. eauto.
      * destruct (decide (T = T')) as [->|Hne].
        -- rewrite lookup_insert_eq. split; [auto | intros _; left; eauto].
        -- rewrite lookup_insert_ne by congruence.
           split; [intros [H|H]; auto | intros [H|[H|H]]; [auto | congruence | auto]].
Qed.

(** X5. After any sequence of calls of [EventTypeId<T>::Get()] from the
    start of the program, the custom kinds that hold an id are exactly the
    ones that were asked for; the counter is the threshold plus their
    number (as a [uint32_t]); and as long as the counter has not run through
    its range, the ids in use are exactly the consecutive numbers from 1000
    up to the counter, without a gap. *)
Theorem custom_ids_dense ks :
  let st := run ks initial in
  (forall T, is_Some (s_Id st !! T) <-> Custom T ∈ ks)
  /\ s_NextId st = static_cast_uint32 (1000 + allocated st)
  /\ (1000 + allocated st <= 2 ^ 32 ->
      forall id, (exists T, s_Id st !! T = Some id) <-> 1000 <= id < 1000 + allocated st).
Proof.
  intros st.
  assert (Hinv : inv st) by (apply inv_reachable, run_steps).
  split; [|split].
  - intros T. subst st. rewrite run_dom. simpl. rewrite lookup_empty.
    split; [intros [[? H]|H]; [discriminate | exact H] | auto].
  - apply (inv_next _ Hinv).
  - intros Hb id. split.
    + intros [T HT]. apply (inv_range _ Hinv Hb) in HT. exact HT.
    + intros Hid. destruct (inv_cover _ Hinv (id - 1000)) as [T HT]; [lia|].
      exists T. rewrite HT. f_equal. unfold static_cast_uint32.
      rewrite Z.mod_small by lia. lia.
Qed.

End EventExtra.

(** ** The registry, through the public operations *)

Module ClientFacts.
Import EventManager EventListener RegistryFacts EventManagerFacts Client.

Section Facts.

Context {Callback U : Type}.
Context (call : Callback -> Event.t -> (addr -> option Callback) * U ->
                Event.t * ((addr -> option Callback) * U)).
Context (iteration : gset ptr -> list ptr).
Implicit Types (s : process Callback U).

(** *** The operations, on the registry *)

Lemma AddListener_null AE_DEBUG (a : addr) s :
  nullptr ∈ m_pListeners (AddListener AE_DEBUG (Some a) s) <-> nullptr ∈ m_pListeners s.
Proof. apply AddListener_other. discriminate. Qed.

Lemma RemoveListener_null AE_DEBUG (a : addr) s :
  nullptr ∈ m_pListeners (RemoveListener AE_DEBUG (Some a) s) <-> nullptr ∈ m_pListeners s.
Proof. apply RemoveListener_other. discriminate. Qed.

Lemma AddListener_fresh AE_DEBUG (a : addr) s :
  Some a ∉ m_pListeners s ->
  AddListener AE_DEBUG (Some a) s = set_m_pListeners ({[Some a]} ∪ m_pListeners s) s.
Proof.
  intros Hout. unfold AddListener.
  rewrite bool_decide_eq_false_2 by discriminate. rewrite andb_false_r.
  rewrite bool_decide_eq_false_2 by assumption. rewrite andb_false_r.
  reflexivity.
Qed.

Lemma RemoveListener_present AE_DEBUG (a : addr) s :
  Some a ∈ m_pListeners s ->
  RemoveListener AE_DEBUG (Some a) s = set_m_pListeners (m_pListeners s ∖ {[Some a]}) s.
Proof.
  intros Hin. unfold RemoveListener.
  rewrite bool_decide_eq_false_2 by discriminate. rewrite andb_false_r.
  rewrite bool_decide_eq_false_2 by (intros H; exact (H Hin)).
  reflexivity.
Qed.

(** The order of iteration enumerates the set. *)
Hypothesis iteration_enumerates : forall r, iteration r ≡ₚ elements r.

Lemma Dispatch_returns event s :
  nullptr ∉ m_pListeners s ->
  exists event' mem' visits,
    DispatchEvent_loop call (iteration (m_pListeners s)) event (m_Callback s, user s)
      = Some (event', mem', visits)
    /\ Dispatch call iteration event s =
       Some (event', mkProcess (m_pListeners s) mem'.1 mem'.2 (log s), visits)
    /\ (forall p, p ∈ map visited visits <-> p ∈ m_pListeners s)
    /\ Forall visit_ok visits
    /\ chained call (event, (m_Callback s, user s)) visits (event', mem').
Proof.
  intros Hnull.
  assert (Hnull' : nullptr ∉ iteration (m_pListeners s)).
  { rewrite iteration_enumerates, elem_of_elements. exact Hnull. }
  destruct (DispatchEvent_loop_spec call (iteration (m_pListeners s)) event
              (m_Callback s, user s) Hnull')
    as (event' & mem' & visits & Hloop & Hv & Hok & Hch).
  exists event', mem', visits. split; [exact Hloop|].
  split; [unfold Dispatch, DispatchEvent; rewrite Hloop; reflexivity|].
  split; [|split; assumption].
  intros p. rewrite Hv, iteration_enumerates, elem_of_elements. reflexivity.
Qed.

Lemma alive_after_execute AE_DEBUG o s s' (alive : gset addr) :
  (forall p, p ∈ m_pListeners s -> exists a, p = Some a /\ a ∈ alive) ->
  execute AE_DEBUG call iteration o s = Some s' ->
  forall p, p ∈ m_pListeners s' -> exists a, p = Some a /\ a ∈ alive_after o alive.
Proof.
  intros Hs H p Hp.
  assert (Hadd : forall this s0,
            (forall p, p ∈ m_pListeners s0 ->
               exists a, p = Some a /\ a ∈ alive_after o alive) ->
            this ∈ alive_after o alive ->
            p ∈ m_pListeners (AddListener AE_DEBUG (Some this) s0) ->
            exists a, p = Some a /\ a ∈ alive_after o alive).
  { intros this s0 Hs0 Hthis Hp0.
    destruct (decide (p = Some this)) as [->|Hne]; [eauto|].
    apply AddListener_other in Hp0; [auto | exact Hne]. }
  assert (Hrm : forall this s0,
            p ∈ m_pListeners (RemoveListener AE_DEBUG (Some this) s0) ->
            p <> Some this /\ p ∈ m_pListeners s0).
  { intros this s0 Hp0.
    destruct (decide (p = Some this)) as [->|Hne].
    - exfalso. exact (RemoveListener_gone _ _ _ Hp0).
    - split; [exact Hne|]. apply RemoveListener_other in Hp0; assumption. }
  destruct o as [this|this cb|this other|this other|this|this cb|event];
    cbn [execute] in H; cbn [alive_after] in *; try (injection H as <-).
  - unfold constructor in Hp. cbn zeta in Hp. apply Hadd in Hp; [exact Hp | | set_solver].
    intros q Hq. destruct (Hs q Hq) as (a & -> & Ha). exists a. split; [reflexivity | set_solver].
  - unfold constructor_callback in Hp. cbn zeta in Hp.
    apply Hadd in Hp; [exact Hp | | set_solver].
    intros q Hq. destruct (Hs q Hq) as (a & -> & Ha). exists a. split; [reflexivity | set_solver].
  - unfold move_constructor in Hp. cbn zeta in Hp. cbn [set_m_Callback m_pListeners] in Hp.
    apply Hadd in Hp; [exact Hp | | set_solver].
    intros q Hq.
    assert (Hq' : q ∈ m_pListeners s).
    { destruct (decide (q = Some other)) as [->|Hne].
      - exfalso. exact (RemoveListener_gone _ _ _ Hq).
      - apply RemoveListener_other in Hq; assumption. }
    destruct (Hs q Hq') as (a & -> & Ha). exists a. split; [reflexivity | set_solver].
  - unfold move_assignment in Hp. case_bool_decide; [|auto].
    cbn zeta in Hp. cbn [set_m_Callback m_pListeners] in Hp.
    apply Hrm in Hp as [_ Hp]. auto.
  - unfold destructor in Hp. apply Hrm in Hp as [Hne Hp].
    destruct (Hs p Hp) as (a & -> & Ha). exists a. split; [reflexivity|].
    set_solver.
  - auto.
  - unfold Dispatch, DispatchEvent in H.
    destruct (DispatchEvent_loop call (iteration (m_pListeners s)) event
                (m_Callback s, user s)) as [[[e mem] visits]|]; [|discriminate].
    simpl in H. injection H as <-. auto.
Qed.

(** X6. Through the public operations (the members of [EventListener] and
    [Event::Dispatch]), in any build and in any order, the registry holds
    only handles of listener objects whose lifetime has begun and not
    ended, never the null handle; and every broadcast on the way
    returns: none dereferences a null handle. *)
Theorem registered_listeners_are_alive AE_DEBUG os s (alive : gset addr) :
  (forall p, p ∈ m_pListeners s -> exists a, p = Some a /\ a ∈ alive) ->
  exists s', run AE_DEBUG call iteration os s = Some s'
             /\ forall p, p ∈ m_pListeners s' ->
                  exists a, p = Some a /\ a ∈ alive_after_run os alive.
Proof.
  revert s alive. induction os as [|o os IH]; intros s alive Hs.
  - exists s. split; [reflexivity | exact Hs].
  - assert (Hnull : nullptr ∉ m_pListeners s).
    { intros H. destruct (Hs _ H) as (a & Ha & _). discriminate. }
    assert (Hex : exists s1, execute AE_DEBUG call iteration o s = Some s1).
    { destruct o; cbn [execute]; eauto.
      destruct (Dispatch_returns event s Hnull) as (e' & mem' & visits & _ & -> & _).
      simpl. eauto. }
    destruct Hex as [s1 Hs1]. cbn [run]. rewrite Hs1. simpl.
    apply IH. apply (alive_after_execute _ _ _ _ _ Hs Hs1).
Qed.


(** *** Who is called in a broadcast *)

Lemma loop_static todo event mem event' mem' visits :
  (forall callback e m, (call callback e m).2.1 = m.1) ->
  DispatchEvent_loop call todo event mem = Some (event', mem', visits) ->
  Forall (fun v => match v with
                  | Invoked _ _ _ m | Skipped _ m => m.1 = mem.1
                  end) visits.
Proof.
  intros Hstatic. revert event mem event' mem' visits.
  induction todo as [|p todo IH]; intros event mem event' mem' visits H.
  - simpl in H. injection H as <- <- <-. constructor.
  - destruct p as [pListener|]; [|discriminate]. simpl in H.
    destruct (mem.1 pListener) as [callback|] eqn:Hcb.
    + destruct (call callback (Event.reset_consumed event) mem)
        as [event1 mem1] eqn:Hcall.
      destruct (DispatchEvent_loop call todo event1 mem1)
        as [[[event2 mem2] visits2]|] eqn:Hloop; [|discriminate].
      simpl in H. injection H as <- <- <-.
      constructor; [reflexivity|].
      assert (Hmem : mem1.1 = mem.1).
      { rewrite <- (Hstatic callback (Event.reset_consumed event) mem), Hcall.
        reflexivity. }
      rewrite <- Hmem. exact (IH _ _ _ _ _ Hloop).
    + destruct (DispatchEvent_loop call todo event mem)
        as [[[event2 mem2] visits2]|] eqn:Hloop; [|discriminate].
      simpl in H. injection H as <- <- <-.
      constructor; [reflexivity|]. exact (IH _ _ _ _ _ Hloop).
Qed.

Lemma Dispatch_static event s :
  (forall callback e m, (call callback e m).2.1 = m.1) ->
  nullptr ∉ m_pListeners s ->
  (forall a c, Some a ∈ m_pListeners s -> m_Callback s a = Some c ->
     invokes call iteration event s a c)
  /\ (forall a, Some a ∈ m_pListeners s -> m_Callback s a = None ->
        passes_over call iteration event s a)
  /\ (forall a, Some a ∉ m_pListeners s -> leaves_out call iteration event s a).
Proof.
  intros Hstatic Hnull.
  destruct (Dispatch_returns event s Hnull)
    as (event' & mem' & visits & Hloop & Hd & Hv & Hok & _).
  pose proof (loop_static _ _ _ _ _ _ Hstatic Hloop) as Hmem.
  rewrite Forall_forall in Hok, Hmem.
  split; [|split].
  - intros a c Hin Hc. apply Hv in Hin.
    apply list_elem_of_fmap in Hin as (v & Hva & Hvin).
    specialize (Hok v Hvin). specialize (Hmem v Hvin).
    destruct v as [a' c' e mem|a' mem]; simpl in *; injection Hva as ->.
    + destruct Hok as [Hc' Hfresh]. rewrite Hmem, Hc in Hc'. injection Hc' as <-.
      exists event', (mkProcess (m_pListeners s) mem'.1 mem'.2 (log s)), visits, e, mem.
      auto.
    + rewrite Hmem, Hc in Hok. discriminate.
  - intros a Hin Hc.
    exists event', (mkProcess (m_pListeners s) mem'.1 mem'.2 (log s)), visits.
    split; [exact Hd|]. split; [apply Hv, Hin|].
    unfold invoked. rewrite list_elem_of_omap. intros (v & Hvin & Hva).
    specialize (Hok v Hvin). specialize (Hmem v Hvin).
    destruct v as [a' c' e mem|a' mem]; [|discriminate].
    simpl in *. injection Hva as ->. destruct Hok as [Hc' _].
    rewrite Hmem, Hc in Hc'. discriminate.
  - intros a Hout.
    exists event', (mkProcess (m_pListeners s) mem'.1 mem'.2 (log s)), visits.
    split; [exact Hd|]. rewrite Hv. exact Hout.
Qed.

(** X8. When callbacks leave the listeners' callbacks alone, the next
    broadcast after an operation treats the handles as follows: a listener
    constructed with a callback is invoked with it; a default-constructed
    one is passed over; on a registered listener [SetCallback] replaces
    what is invoked, and [SetCallback(nullptr)] makes the broadcast pass it
    over; a destroyed listener and the source of a move are not visited at
    all; the target of a move construction is invoked with the callback the
    source had; a move assignment into an unregistered target leaves the
    target unvisited although it now holds the callback. *)
Theorem broadcast_after_listener_operations AE_DEBUG (this other : addr)
    (c : Callback) event s :
  (forall callback e m, (call callback e m).2.1 = m.1) ->
  nullptr ∉ m_pListeners s ->
  this <> other ->
  invokes call iteration event (constructor_callback AE_DEBUG this (Some c) s) this c
  /\ passes_over call iteration event (constructor AE_DEBUG this s) this
  /\ (Some this ∈ m_pListeners s ->
      invokes call iteration event (SetCallback this (Some c) s) this c
      /\ passes_over call iteration event (SetCallback this None s) this)
  /\ leaves_out call iteration event (destructor AE_DEBUG this s) this
  /\ leaves_out call iteration event (move_constructor AE_DEBUG this other s) other
  /\ (m_Callback s other = Some c ->
      invokes call iteration event (move_constructor AE_DEBUG this other s) this c)
  /\ leaves_out call iteration event (move_assignment AE_DEBUG this other s) other
  /\ (Some this ∉ m_pListeners s ->
      leaves_out call iteration event (move_assignment AE_DEBUG this other s) this).
Proof.
  intros Hstatic Hnull Hne.
  assert (Hadd : forall s0, nullptr ∉ m_pListeners s0 ->
            nullptr ∉ m_pListeners (AddListener AE_DEBUG (Some this) s0)).
  { intros s0 H0. rewrite AddListener_null. exact H0. }
  assert (Hrm : forall a s0, nullptr ∉ m_pListeners s0 ->
            nullptr ∉ m_pListeners (RemoveListener AE_DEBUG (Some a) s0)).
  { intros a s0 H0. rewrite RemoveListener_null. exact H0. }
  split; [|split; [|split; [|split; [|split; [|split; [|split]]]]]].
  - apply Dispatch_static; [exact Hstatic | apply Hadd, Hnull | apply AddListener_elem |].
    unfold constructor_callback. cbn zeta.
    rewrite AddListener_m_Callback. apply fn_lookup_insert.
  - apply Dispatch_static; [exact Hstatic | apply Hadd, Hnull | apply AddListener_elem |].
    unfold constructor. cbn zeta.
    rewrite AddListener_m_Callback. apply fn_lookup_insert.
  - intros Hin. split.
    + apply Dispatch_static; [exact Hstatic | exact Hnull | exact Hin |].
      apply fn_lookup_insert.
    + apply Dispatch_static; [exact Hstatic | exact Hnull | exact Hin |].
      apply fn_lookup_insert.
  - apply Dispatch_static; [exact Hstatic | apply Hrm, Hnull |].
    apply RemoveListener_gone.
  - apply Dispatch_static; [exact Hstatic | |].
    + unfold move_constructor. cbn zeta. cbn [set_m_Callback m_pListeners].
      apply Hadd, Hrm, Hnull.
    + unfold move_constructor. cbn zeta. cbn [set_m_Callback m_pListeners].
      rewrite AddListener_other by congruence. apply RemoveListener_gone.
  - intros Hc. apply Dispatch_static; [exact Hstatic | | |].
    + unfold move_constructor. cbn zeta. cbn [set_m_Callback m_pListeners].
      apply Hadd, Hrm, Hnull.
    + unfold move_constructor. cbn zeta. cbn [set_m_Callback m_pListeners].
      apply AddListener_elem.
    + unfold move_constructor. cbn zeta. cbn [set_m_Callback m_Callback].
      rewrite AddListener_m_Callback, RemoveListener_m_Callback. simpl.
      rewrite fn_lookup_insert_ne by congruence. rewrite fn_lookup_insert. exact Hc.
  - apply Dispatch_static; [exact Hstatic | |].
    + unfold move_assignment. rewrite bool_decide_eq_true_2 by assumption.
      cbn zeta. cbn [set_m_Callback m_pListeners]. apply Hrm, Hnull.
    + unfold move_assignment. rewrite bool_decide_eq_true_2 by assumption.
      cbn zeta. cbn [set_m_Callback m_pListeners]. apply RemoveListener_gone.
  - intros Hout. apply Dispatch_static; [exact Hstatic | |].
    + unfold move_assignment. rewrite bool_decide_eq_true_2 by assumption.
      cbn zeta. cbn [set_m_Callback m_pListeners]. apply Hrm, Hnull.
    + unfold move_assignment. rewrite bool_decide_eq_true_2 by assumption.
      cbn zeta. cbn [set_m_Callback m_pListeners].
      rewrite RemoveListener_other by congruence. exact Hout.
Qed.


(** *** What a broadcast returns *)

Lemma loop_result todo event mem event' mem' visits :
  DispatchEvent_loop call todo event mem = Some (event', mem', visits) ->
  (invoked visits = [] -> event' = event /\ mem' = mem)
  /\ (forall before a c e m after,
        visits = before ++ Invoked a c e m :: after -> invoked after = [] ->
        event' = (call c e m).1 /\ mem' = (call c e m).2
        /\ Event.IsConsumed e = false).
Proof.
  revert event mem event' mem' visits.
  induction todo as [|p todo IH]; intros event mem event' mem' visits H.
  - simpl in H. injection H as <- <- <-. split; [auto|].
    intros before a c e m after Hv. destruct before; discriminate.
  - destruct p as [pListener|]; [|discriminate]. simpl in H.
    destruct (mem.1 pListener) as [callback|] eqn:Hcb.
    + destruct (call callback (Event.reset_consumed event) mem)
        as [event1 mem1] eqn:Hcall.
      destruct (DispatchEvent_loop call todo event1 mem1)
        as [[[event2 mem2] visits2]|] eqn:Hloop; [|discriminate].
      simpl in H. injection H as <- <- <-.
      destruct (IH _ _ _ _ _ Hloop) as [IH1 IH2].
      split; [discriminate|].
      intros before a c e m after Hv Hafter.
      destruct before as [|v before]; simpl in Hv.
      * injection Hv as <- <- <- <- <-. rewrite Hcall.
        destruct (IH1 Hafter) as [-> ->]. auto.
      * injection Hv as _ Hv. exact (IH2 _ _ _ _ _ _ Hv Hafter).
    + destruct (DispatchEvent_loop call todo event mem)
        as [[[event2 mem2] visits2]|] eqn:Hloop; [|discriminate].
      simpl in H. injection H as <- <- <-.
      destruct (IH _ _ _ _ _ Hloop) as [IH1 IH2].
      split; [exact IH1|].
      intros before a c e m after Hv Hafter.
      destruct before as [|v before]; simpl in Hv; [discriminate|].
      injection Hv as _ Hv. exact (IH2 _ _ _ _ _ _ Hv Hafter).
Qed.

(** X9. What [Dispatch] leaves in the event: if no callback ran, the event
    is as it was, a consumed flag included, and nothing else changed;
    otherwise it is what the callback that ran last made of an unconsumed
    copy, so that a consumption by an earlier callback does not show.  The
    registry and the log are as before. *)
Theorem Dispatch_result_event event s :
  nullptr ∉ m_pListeners s ->
  exists event' s' visits,
    Dispatch call iteration event s = Some (event', s', visits)
    /\ m_pListeners s' = m_pListeners s
    /\ log s' = log s
    /\ (invoked visits = [] ->
        event' = event /\ m_Callback s' = m_Callback s /\ user s' = user s)
    /\ (forall before a c e mem after,
          visits = before ++ Invoked a c e mem :: after -> invoked after = [] ->
          Event.IsConsumed e = false
          /\ event' = (call c e mem).1
          /\ (m_Callback s', user s') = (call c e mem).2).
Proof.
  intros Hnull.
  destruct (Dispatch_returns event s Hnull)
    as (event' & mem' & visits & Hloop & Hd & _).
  destruct (loop_result _ _ _ _ _ _ Hloop) as [H1 H2].
  exists event', (mkProcess (m_pListeners s) mem'.1 mem'.2 (log s)), visits.
  split; [exact Hd|]. split; [reflexivity|]. split; [reflexivity|].
  cbn [m_Callback user]. split.
  - intros Hnone. destruct (H1 Hnone) as [-> ->]. auto.
  - intros before a c e mem after Hv Hafter.
    destruct (H2 _ _ _ _ _ _ Hv Hafter) as (-> & -> & Hfresh).
    split; [exact Hfresh|]. split; [reflexivity|].
    destruct (call c e mem).2; reflexivity.
Qed.

End Facts.

Section Lifetime.

Context {Callback U : Type}.
Implicit Types (s : process Callback U).

(** *** A lifetime *)

(** X7. Constructing a listener on storage whose handle is not registered
    registers exactly that handle, with the callback given (none for the
    default constructor), touches no other handle and no other callback
    and logs nothing; destroying it again gives back the registry as it
    was, again without a log record. *)
Theorem listener_lifetime_round_trip AE_DEBUG (this : addr) callback s :
  Some this ∉ m_pListeners s ->
  let s1 := constructor_callback AE_DEBUG this callback s in
  let s2 := destructor AE_DEBUG this s1 in
  constructor AE_DEBUG this s = constructor_callback AE_DEBUG this None s
  /\ Some this ∈ m_pListeners s1
  /\ m_Callback s1 this = callback
  /\ (forall p, p <> Some this -> p ∈ m_pListeners s1 <-> p ∈ m_pListeners s)
  /\ (forall a, a <> this -> m_Callback s1 a = m_Callback s a)
  /\ log s1 = log s
  /\ m_pListeners s2 = m_pListeners s
  /\ log s2 = log s
  /\ user s2 = user s.
Proof.
  intros Hout s1 s2.
  assert (H1 : s1 = set_m_pListeners ({[Some this]} ∪ m_pListeners s)
                 (set_m_Callback this callback s)).
  { subst s1. unfold constructor_callback. cbn zeta.
    apply (AddListener_fresh AE_DEBUG this (set_m_Callback this callback s)).
    exact Hout. }
  assert (Hin : Some this ∈ m_pListeners s1) by (rewrite H1; simpl; set_solver).
  assert (H2 : s2 = set_m_pListeners (m_pListeners s1 ∖ {[Some this]}) s1).
  { subst s2. unfold destructor. apply RemoveListener_present. exact Hin. }
  split; [reflexivity|]. split; [exact Hin|].
  rewrite H2, H1. cbn [set_m_pListeners set_m_Callback m_pListeners m_Callback log user].
  split; [apply fn_lookup_insert|]. split; [intros p Hp; set_solver|].
  split; [intros a Ha; apply fn_lookup_insert_ne; congruence|].
  split; [reflexivity|]. split; [set_solver|]. split; reflexivity.
Qed.

End Lifetime.

End ClientFacts.

(** A listener is constructed, moved, a key press is broadcast, and the
    moved-from listener is destroyed, in a build that is not validated. *)
Lemma registered_listeners_are_alive_witness :
  let os := [Client.ConstructWith 1%positive (Some 10%nat);
             Client.MoveConstruct 2%positive 1%positive;
             Client.DoDispatch BroadcastExample.key_pressed;
             Client.Destroy 1%positive] in
  exists s', Client.run false BroadcastExample.call elements os idle = Some s'
             /\ forall p, p ∈ m_pListeners s' ->
                  exists a, p = Some a /\ a ∈ Client.alive_after_run os ∅.
Proof.
  intros os.
  apply (ClientFacts.registered_listeners_are_alive BroadcastExample.call elements
           (fun r => reflexivity (elements r)) false os idle ∅).
  intros p Hp. simpl in Hp. set_solver.
Defined.

(** A fourth listener beside the three of the example. *)
Lemma listener_lifetime_round_trip_witness :
  let s1 := EventListener.constructor_callback true 4%positive (Some 40%nat)
              BroadcastExample.three in
  let s2 := EventListener.destructor true 4%positive s1 in
  (Some 4%positive ∉ m_pListeners BroadcastExample.three)
  /\ Some 4%positive ∈ m_pListeners s1
  /\ m_pListeners s2 = m_pListeners BroadcastExample.three
  /\ log s2 = log BroadcastExample.three.
Proof.
  intros s1 s2.
  assert (Hout : Some 4%positive ∉ m_pListeners BroadcastExample.three).
  { vm_compute. set_solver. }
  destruct (ClientFacts.listener_lifetime_round_trip true 4%positive (Some 40%nat)
              BroadcastExample.three Hout)
    as (_ & H1 & _ & _ & _ & _ & H2 & H3 & _).
  split; [exact Hout|]. split; [exact H1|]. split; [exact H2 | exact H3].
Defined.

(** Beside the three listeners of the example, whose callables leave the
    callbacks alone: a fourth one constructed, and the first one moved. *)
Lemma broadcast_after_listener_operations_witness :
  (forall callback e m, (BroadcastExample.call callback e m).2.1 = m.1)
  /\ (nullptr ∉ m_pListeners BroadcastExample.three)
  /\ (4 <> 1)%positive
  /\ Client.invokes BroadcastExample.call elements BroadcastExample.key_pressed
       (EventListener.constructor_callback true 4%positive (Some 40%nat)
          BroadcastExample.three) 4%positive 40%nat
  /\ Client.leaves_out BroadcastExample.call elements BroadcastExample.key_pressed
       (EventListener.move_constructor true 4%positive 1%positive
          BroadcastExample.three) 1%positive
  /\ Client.invokes BroadcastExample.call elements BroadcastExample.key_pressed
       (EventListener.move_constructor true 4%positive 1%positive
          BroadcastExample.three) 4%positive 10%nat.
Proof.
  assert (Hstatic : forall callback e m, (BroadcastExample.call callback e m).2.1 = m.1)
    by reflexivity.
  assert (Hnull : nullptr ∉ m_pListeners BroadcastExample.three).
  { vm_compute. set_solver. }
  assert (Hne : (4 <> 1)%positive) by discriminate.
  destruct (ClientFacts.broadcast_after_listener_operations BroadcastExample.call
              elements (fun r => reflexivity (elements r)) true 4%positive 1%positive
              40%nat BroadcastExample.key_pressed BroadcastExample.three
              Hstatic Hnull Hne)
    as (H1 & _ & _ & _ & H5 & _).
  destruct (ClientFacts.broadcast_after_listener_operations BroadcastExample.call
              elements (fun r => reflexivity (elements r)) true 4%positive 1%positive
              10%nat BroadcastExample.key_pressed BroadcastExample.three
              Hstatic Hnull Hne)
    as (_ & _ & _ & _ & _ & H6 & _).
  split; [exact Hstatic|]. split; [exact Hnull|]. split; [exact Hne|].
  split; [exact H1|]. split; [exact H5|]. apply H6. reflexivity.
Defined.

(** The broadcast of the example. *)
Lemma Dispatch_result_event_witness :
  (nullptr ∉ m_pListeners BroadcastExample.three)
  /\ exists event' s' visits,
       Client.Dispatch BroadcastExample.call elements BroadcastExample.key_pressed
         BroadcastExample.three = Some (event', s', visits)
       /\ m_pListeners s' = m_pListeners BroadcastExample.three
       /\ log s' = log BroadcastExample.three.
Proof.
  assert (Hnull : nullptr ∉ m_pListeners BroadcastExample.three).
  { vm_compute. set_solver. }
  split; [exact Hnull|].
  destruct (ClientFacts.Dispatch_result_event BroadcastExample.call elements
              (fun r => reflexivity (elements r)) BroadcastExample.key_pressed
              BroadcastExample.three Hnull)
    as (event' & s' & visits & H1 & H2 & H3 & _).
  exists event', s', visits. auto.
Defined.

(** ** The layer stack, further *)

Module LayerStackExtra.
Import LayerStack LayerStackFacts.

Section Facts.

Context (AE_DEBUG : bool).
Context {U double : Type}.
Context (vptr : addr -> Layer.vtable U double).
Implicit Types (s : t U) (pLayer : ptr) (a : addr).

(** *** The entries, operation by operation *)

Lemma elem_of_vector_insert i pLayer (l : list ptr) p :
  p ∈ vector_insert i pLayer l <-> p = pLayer \/ p ∈ l.
Proof.
  unfold vector_insert. rewrite elem_of_app, elem_of_cons.
  assert (H : p ∈ l <-> p ∈ take i l \/ p ∈ drop i l).
  { rewrite <- (take_drop i l) at 1. apply elem_of_app. }
  tauto.
Qed.

Lemma elem_of_delete_sub (l : list ptr) it p : p ∈ delete it l -> p ∈ l.
Proof.
  apply list_elem_of_delete_inv.
Qed.

Lemma NoDup_vector_insert i pLayer (l : list ptr) :
  pLayer ∉ l -> NoDup l -> NoDup (vector_insert i pLayer l).
Proof.
  intros Hout Hnodup. unfold vector_insert.
  rewrite <- (take_drop i l) in Hnodup, Hout.
  apply NoDup_app in Hnodup as (H1 & H2 & H3).
  rewrite elem_of_app in Hout.
  apply NoDup_app. split; [exact H1|]. split.
  - intros x Hx Hin. apply elem_of_cons in Hin as [->|Hin]; [tauto|].
    exact (H2 x Hx Hin).
  - apply NoDup_cons. tauto.
Qed.

Lemma NoDup_delete_entry (l : list ptr) it : NoDup l -> NoDup (delete it l).
Proof. intros H. eapply sublist_NoDup; [exact H | apply sublist_delete]. Qed.

(** What an operation does to the stored sequence. *)
Lemma execute_m_Layers o s :
  boundary_ok s ->
  same_stack s (execute AE_DEBUG vptr o s)
  \/ (exists a, accepts AE_DEBUG (Some a) s = true
        /\ m_Layers (execute AE_DEBUG vptr o s) =
           vector_insert (Z.to_nat (m_LayerInsertIndex s)) (Some a) (m_Layers s))
  \/ (exists a, accepts AE_DEBUG (Some a) s = true
        /\ m_Layers (execute AE_DEBUG vptr o s) = m_Layers s ++ [Some a])
  \/ (exists it, m_Layers (execute AE_DEBUG vptr o s) = delete it (m_Layers s)).
Proof.
  intros Hok.
  destruct o as [p|p|p|p|event|deltaTime| | |f]; cbn [execute].
  - destruct (accepts AE_DEBUG p s) eqn:Hacc.
    + destruct p as [a|]; [|discriminate]. right. left. exists a.
      split; [exact Hacc|]. apply (PushLayer_stack AE_DEBUG vptr a s Hacc).
    + left. apply PushLayer_refused_same_stack, Hacc.
  - destruct (decide (p ∈ layers s)) as [Hin|Hout].
    + destruct p as [a|].
      * destruct (PopLayer_stack vptr a s Hok Hin) as (it & _ & _ & _ & Hl & _).
        right. right. right. eauto.
      * left. split; reflexivity.
    + left. apply PopLayer_absent_same_stack, Hout.
  - destruct (accepts AE_DEBUG p s) eqn:Hacc.
    + destruct p as [a|]; [|discriminate]. right. right. left. exists a.
      split; [exact Hacc|]. apply (PushOverlay_stack AE_DEBUG vptr a s Hacc).
    + left. apply PushOverlay_refused_same_stack, Hacc.
  - destruct (decide (p ∈ overlays s)) as [Hin|Hout].
    + destruct p as [a|].
      * destruct (PopOverlay_stack vptr a s Hin) as (it & _ & _ & Hl & _).
        right. right. right. eauto.
      * left. split; reflexivity.
    + left. apply PopOverlay_absent_same_stack, Hout.
  - left. apply OnEvent_same_stack.
  - left. apply for_each_same_stack. exact I.
  - left. apply for_each_same_stack. exact I.
  - left. apply for_each_same_stack. exact I.
  - left. split; reflexivity.
Qed.

Lemma no_null_reachable s : reachable AE_DEBUG vptr s -> nullptr ∉ m_Layers s.
Proof.
  induction 1 as [w l|o s Hreach IH]; [simpl; apply not_elem_of_nil|].
  pose proof (boundary_ok_reachable AE_DEBUG vptr s Hreach) as Hok.
  destruct (execute_m_Layers o s Hok)
    as [[Hl _]|[(a & _ & Hl)|[(a & _ & Hl)|(it & Hl)]]]; rewrite Hl.
  - exact IH.
  - rewrite elem_of_vector_insert. intros [H|H]; [discriminate | exact (IH H)].
  - rewrite elem_of_app, list_elem_of_singleton.
    intros [H|H]; [exact (IH H) | discriminate].
  - intros H. apply IH. eapply elem_of_delete_sub, H.
Qed.


(** *** Overlays *)

Lemma PushLayer_world a s :
  accepts AE_DEBUG (Some a) s = true ->
  world (PushLayer AE_DEBUG vptr (Some a) s).1 = Layer.OnAttach (vptr a) (world s).
Proof.
  intros Hacc. rewrite (PushLayer_accepted AE_DEBUG vptr a s Hacc).
  cbn zeta. cbn [fst]. unfold AE_LOG. cbn [world]. rewrite call_world. reflexivity.
Qed.

Lemma PushOverlay_world a s :
  accepts AE_DEBUG (Some a) s = true ->
  world (PushOverlay AE_DEBUG vptr (Some a) s).1 = Layer.OnAttach (vptr a) (world s).
Proof.
  intros Hacc. rewrite (PushOverlay_accepted AE_DEBUG vptr a s Hacc).
  cbn zeta. cbn [fst]. unfold AE_LOG. cbn [world]. rewrite call_world. reflexivity.
Qed.

Lemma PopOverlay_effect a s :
  Some a ∈ overlays s ->
  exists it,
    (Z.to_nat (m_LayerInsertIndex s) <= it < length (m_Layers s))%nat
    /\ m_Layers s !! it = Some (Some a)
    /\ (forall j, (Z.to_nat (m_LayerInsertIndex s) <= j < it)%nat ->
          m_Layers s !! j <> Some (Some a))
    /\ m_Layers (PopOverlay vptr (Some a) s).1 = delete it (m_Layers s)
    /\ m_LayerInsertIndex (PopOverlay vptr (Some a) s).1 = m_LayerInsertIndex s
    /\ (PopOverlay vptr (Some a) s).2 = [Invoked Layer.DetachHook a s]
    /\ world (PopOverlay vptr (Some a) s).1 = Layer.OnDetach (vptr a) (world s).
Proof.
  intros Hin.
  destruct (PopOverlay_found vptr a s Hin) as (it & Hfind & Hpop).
  apply std_find_Some in Hfind as (Hit & Hlook & Hfirst).
  exists it. rewrite Hpop. cbn zeta. cbn [fst snd].
  destruct (call_same_stack vptr Layer.DetachHook a s) as [H1 H2].
  split; [lia|]. split; [exact Hlook|]. split; [exact Hfirst|].
  unfold AE_LOG. cbn [m_Layers m_LayerInsertIndex world].
  rewrite H1, H2, call_world. repeat split.
Qed.


(** *** Push, then pop *)

Lemma accepts_execute_PushLayer a s :
  boundary_ok s -> accepts AE_DEBUG (Some a) s = true ->
  Z.of_nat (length (m_Layers s)) + 1 < 2 ^ 32 ->
  let s1 := (PushLayer AE_DEBUG vptr (Some a) s).1 in
  m_Layers s1 = layers s ++ Some a :: overlays s
  /\ m_LayerInsertIndex s1 = m_LayerInsertIndex s + 1
  /\ layers s1 = layers s ++ [Some a]
  /\ overlays s1 = overlays s
  /\ boundary_ok s1.
Proof.
  intros Hok Hacc Hroom s1. pose proof Hok as [Hrange Hle].
  destruct (PushLayer_stack AE_DEBUG vptr a s Hacc) as [Hl Hi]. fold s1 in Hl, Hi.
  assert (Hi' : m_LayerInsertIndex s1 = m_LayerInsertIndex s + 1).
  { rewrite Hi. unfold static_cast_uint32. apply Z.mod_small. lia. }
  assert (Hlen : length (layers s) = Z.to_nat (m_LayerInsertIndex s)).
  { unfold layers. rewrite length_take. lia. }
  assert (Hl' : m_Layers s1 = (layers s ++ [Some a]) ++ overlays s).
  { rewrite Hl. unfold vector_insert, layers, overlays.
    rewrite <- app_assoc. reflexivity. }
  assert (Hn : Z.to_nat (m_LayerInsertIndex s1) = length (layers s ++ [Some a])).
  { rewrite Hi', length_app, Hlen. simpl. lia. }
  split; [rewrite Hl', <- app_assoc; reflexivity|]. split; [exact Hi'|].
  split; [unfold layers at 1; rewrite Hn, Hl'; apply take_app_length|].
  split; [unfold overlays at 1; rewrite Hn, Hl'; apply drop_app_length|].
  apply (boundary_ok_execute AE_DEBUG vptr (DoPushLayer (Some a)) s Hok).
Qed.

(** X12. In a reached state with room for one more entry, a [PushLayer]
    that goes through followed by [PopLayer] of the same pointer restores
    the stored sequence and the boundary, provided the pointer was not in
    the layer partition before; the world has seen [OnAttach] and then
    [OnDetach] of that layer.  The same holds for [PushOverlay] and
    [PopOverlay] with the overlay partition. *)
Theorem push_then_pop_restores a s :
  reachable AE_DEBUG vptr s ->
  accepts AE_DEBUG (Some a) s = true ->
  Z.of_nat (length (m_Layers s)) + 1 < 2 ^ 32 ->
  (Some a ∉ layers s ->
   let s2 := (PopLayer vptr (Some a) (PushLayer AE_DEBUG vptr (Some a) s).1).1 in
   same_stack s s2
   /\ world s2 = Layer.OnDetach (vptr a) (Layer.OnAttach (vptr a) (world s)))
  /\ (Some a ∉ overlays s ->
      let s2 := (PopOverlay vptr (Some a) (PushOverlay AE_DEBUG vptr (Some a) s).1).1 in
      same_stack s s2
      /\ world s2 = Layer.OnDetach (vptr a) (Layer.OnAttach (vptr a) (world s))).
Proof.
  intros Hreach Hacc Hroom.
  pose proof (boundary_ok_reachable AE_DEBUG vptr s Hreach) as Hok.
  pose proof Hok as [Hrange Hle].
  split.
  - intros Hnew.
    destruct (accepts_execute_PushLayer a s Hok Hacc Hroom)
      as (Hl & Hi & Hlay & Hov & Hok1).
    pose proof (PushLayer_world a s Hacc) as Hw.
    set (s1 := (PushLayer AE_DEBUG vptr (Some a) s).1) in *. cbn zeta.
    assert (Hin : Some a ∈ layers s1) by (rewrite Hlay; set_solver).
    destruct (PopLayer_stack vptr a s1 Hok1 Hin)
      as (it & Hit & Hlook & Hfirst & Hl2 & Hi2 & _ & Hw2).
    assert (Hlen : length (layers s) = Z.to_nat (m_LayerInsertIndex s)).
    { unfold layers. rewrite length_take. lia. }
    assert (Heq : it = length (layers s)).
    { destruct (decide (it < length (layers s))%nat) as [Hlt|Hge]; [|lia].
      exfalso. apply Hnew. rewrite Hl in Hlook.
      rewrite lookup_app_l in Hlook by exact Hlt.
      eapply list_elem_of_lookup_2, Hlook. }
    split; [split|].
    + rewrite Hl2, Hl, Heq, delete_middle. symmetry. apply partitions.
    + lia.
    + rewrite Hw2, Hw. reflexivity.
  - intros Hnew.
    destruct (PushOverlay_stack AE_DEBUG vptr a s Hacc) as [Hl Hi].
    pose proof (PushOverlay_world a s Hacc) as Hw.
    set (s1 := (PushOverlay AE_DEBUG vptr (Some a) s).1) in *. cbn zeta.
    assert (Hov : overlays s1 = overlays s ++ [Some a]).
    { unfold overlays. rewrite Hl, Hi. apply drop_app_le. lia. }
    assert (Hin : Some a ∈ overlays s1) by (rewrite Hov; set_solver).
    destruct (PopOverlay_effect a s1 Hin)
      as (it & Hit & Hlook & _ & Hl2 & Hi2 & _ & Hw2).
    assert (Heq : it = length (m_Layers s)).
    { destruct (decide (it < length (m_Layers s))%nat) as [Hlt|Hge].
      - exfalso. apply Hnew. rewrite Hl in Hlook.
        rewrite lookup_app_l in Hlook by exact Hlt.
        unfold overlays. apply list_elem_of_lookup.
        exists (it - Z.to_nat (m_LayerInsertIndex s))%nat.
        rewrite lookup_drop. rewrite Hi in Hit.
        replace (Z.to_nat (m_LayerInsertIndex s) + (it - Z.to_nat (m_LayerInsertIndex s)))%nat
          with it by lia.
        exact Hlook.
      - rewrite Hl, length_app in Hit. simpl in Hit. lia. }
    split; [split|].
    + rewrite Hl2, Hl, Heq. rewrite delete_middle. apply app_nil_r.
    + rewrite Hi2, Hi. reflexivity.
    + rewrite Hw2, Hw. reflexivity.
Qed.


(** *** The destructor *)

Lemma destructor_loop_spec todo s :
  let r := destructor_loop vptr todo s in
  map entry r.2 = todo
  /\ Forall (fun st => match st with
                       | Invoked h _ _ => h = Layer.DetachHook
                       | Skipped h p _ => h = Layer.DetachHook /\ p = nullptr
                       end) r.2
  /\ chained vptr Layer.DetachHook s r.2 Layer.DetachHook r.1
  /\ same_stack s r.1
  /\ world r.1 = foldl (fun w p => match p with
                                   | Some a => Layer.OnDetach (vptr a) w
                                   | None => w
                                   end) (world s) todo.
Proof.
  revert s. induction todo as [|pLayer todo IH]; intros s.
  - simpl. repeat split. constructor.
  - cbn [destructor_loop].
    destruct pLayer as [a|].
    + specialize (IH (call vptr Layer.DetachHook a s).2)
        as (IHe & IHok & IHch & IHsame & IHw).
      pose proof (call_same_stack vptr Layer.DetachHook a s) as Hsame.
      pose proof (call_world vptr Layer.DetachHook a s) as Hw.
      pose proof (call_plain vptr Layer.DetachHook a s I) as Hh.
      destruct (destructor_loop vptr todo (call vptr Layer.DetachHook a s).2)
        as [s2 steps] eqn:Hl.
      cbn [fst snd map foldl] in *.
      split; [f_equal; assumption|].
      split; [constructor; [reflexivity | assumption]|].
      split; [|split; [exact (same_stack_trans _ _ _ Hsame IHsame)|]].
      * split; [reflexivity|]. split; [reflexivity|]. rewrite Hh. exact IHch.
      * rewrite IHw, Hw. reflexivity.
    + specialize (IH s) as (IHe & IHok & IHch & IHsame & IHw).
      destruct (destructor_loop vptr todo s) as [s2 steps] eqn:Hl.
      cbn [fst snd map foldl] in *.
      split; [f_equal; assumption|].
      split; [constructor; [split; reflexivity | assumption]|].
      split; [|split; assumption].
      split; [reflexivity|]. split; [reflexivity|]. exact IHch.
Qed.

(** X13. The destructor of a stack goes over the stored sequence in stored
    order and calls [OnDetach] on every entry that is not null, enabled or
    not, each call starting from the world the one before left; the hooks
    called are exactly those of the entries.  On a reached stack no entry
    is passed over. *)
Theorem destructor_detaches_every_entry s :
  let r := destructor vptr s in
  map entry r.2 = m_Layers s
  /\ (forall a, Some a ∈ m_Layers s ->
        exists at_call, Invoked Layer.DetachHook a at_call ∈ r.2)
  /\ (forall a at_call, Invoked Layer.DetachHook a at_call ∈ r.2 ->
        Some a ∈ m_Layers s)
  /\ chained vptr Layer.DetachHook s r.2 Layer.DetachHook r.1
  /\ world r.1 = foldl (fun w p => match p with
                                   | Some a => Layer.OnDetach (vptr a) w
                                   | None => w
                                   end) (world s) (m_Layers s)
  /\ (reachable AE_DEBUG vptr s ->
      Forall (fun st => match st with
                        | Invoked h _ _ => h = Layer.DetachHook
                        | Skipped _ _ _ => False
                        end) r.2).
Proof.
  intros r. subst r. unfold destructor.
  destruct (destructor_loop_spec (m_Layers s) s) as (He & Hok & Hch & _ & Hw).
  split; [exact He|]. split; [|split; [|split; [exact Hch|split; [exact Hw|]]]].
  - intros a Hin. rewrite <- He in Hin.
    apply list_elem_of_fmap in Hin as (st & Hst & Hin).
    rewrite Forall_forall in Hok. specialize (Hok st Hin).
    destruct st as [h a' x|h p x]; simpl in *.
    + subst h. injection Hst as ->. eauto.
    + destruct Hok as [_ ->]. discriminate.
  - intros a at_call Hin. rewrite <- He.
    apply list_elem_of_fmap. exists (Invoked Layer.DetachHook a at_call).
    split; [reflexivity | exact Hin].
  - intros Hreach. pose proof (no_null_reachable s Hreach) as Hnull.
    rewrite <- He in Hnull. rewrite Forall_forall in *.
    intros st Hin. specialize (Hok st Hin).
    destruct st as [h a' x|h p x]; [exact Hok|].
    destruct Hok as [_ ->]. apply Hnull.
    apply list_elem_of_fmap. eexists. split; [|exact Hin]. reflexivity.
Qed.

(** *** Passes that call nothing *)

Lemma for_each_disabled todo h s :
  (forall a, Some a ∈ todo -> IsEnabled a s = false) ->
  for_each vptr todo h s = (s, map (fun p => Skipped h p s) todo).
Proof.
  induction todo as [|p todo IH]; intros Hoff; [reflexivity|].
  cbn [for_each visit].
  assert (Hv : visit vptr h p s = (h, s, Skipped h p s)).
  { unfold visit. destruct p as [a|]; [|reflexivity].
    rewrite Hoff by (left). reflexivity. }
  rewrite Hv. rewrite IH; [reflexivity|].
  intros a Ha. apply Hoff. right. exact Ha.
Qed.

Lemma OnEvent_loop_disabled todo event s :
  Event.IsConsumed event = false ->
  (forall a, Some a ∈ todo -> IsEnabled a s = false) ->
  OnEvent_loop vptr todo event s =
  (event, s, map (fun p => Skipped (Layer.EventHook event) p s) todo).
Proof.
  intros Hfresh.
  induction todo as [|p todo IH]; intros Hoff; [reflexivity|].
  cbn [OnEvent_loop]. rewrite Hfresh.
  assert (Hv : visit vptr (Layer.EventHook event) p s =
               (Layer.EventHook event, s, Skipped (Layer.EventHook event) p s)).
  { unfold visit. destruct p as [a|]; [|reflexivity].
    rewrite Hoff by (left). reflexivity. }
  rewrite Hv. rewrite IH; [reflexivity|].
  intros a Ha. apply Hoff. right. exact Ha.
Qed.

(** X14. On a stack whose entries are all disabled (an empty stack
    included) the three forward passes and [OnEvent] go over every entry
    without a call and change nothing: the event comes back unconsumed.
    Called with an event that is consumed already, [OnEvent] visits no
    entry at all. *)
Theorem passes_over_disabled_layers deltaTime event s :
  (forall a, Some a ∈ m_Layers s -> IsEnabled a s = false) ->
  OnUpdate vptr deltaTime s =
    (s, map (fun p => Skipped (Layer.UpdateHook deltaTime) p s) (m_Layers s))
  /\ OnRender vptr s = (s, map (fun p => Skipped Layer.RenderHook p s) (m_Layers s))
  /\ OnImGuiRender vptr s =
       (s, map (fun p => Skipped Layer.ImGuiRenderHook p s) (m_Layers s))
  /\ (Event.IsConsumed event = false ->
      OnEvent vptr event s =
        (event, s, map (fun p => Skipped (Layer.EventHook event) p s)
                     (reverse (m_Layers s))))
  /\ (Event.IsConsumed event = true -> OnEvent vptr event s = (event, s, [])).
Proof.
  intros Hoff.
  split; [apply for_each_disabled, Hoff|].
  split; [apply for_each_disabled, Hoff|].
  split; [apply for_each_disabled, Hoff|].
  split.
  - intros Hfresh. apply OnEvent_loop_disabled; [exact Hfresh|].
    intros a Ha. apply Hoff. apply elem_of_reverse. exact Ha.
  - intros Hcons. unfold OnEvent.
    destruct (reverse (m_Layers s)); cbn [OnEvent_loop]; [reflexivity|].
    rewrite Hcons. reflexivity.
Qed.

(** *** The newest entry and the next event *)

Lemma OnEvent_loop_head a todo event s :
  Event.IsConsumed event = false -> IsEnabled a s = true ->
  exists rest,
    (OnEvent_loop vptr (Some a :: todo) event s).2 =
    Invoked (Layer.EventHook event) a s :: rest
    /\ (Event.IsConsumed (Layer.OnEvent (vptr a) event (world s)).1 = true ->
        rest = []).
Proof.
  intros Hfresh Hen. cbn [OnEvent_loop]. rewrite Hfresh.
  unfold visit. rewrite Hen.
  pose proof (call_event vptr event a s) as Hcall.
  destruct (call vptr (Layer.EventHook event) a s) as [h1 s1].
  simpl in Hcall. subst h1.
  destruct (OnEvent_loop vptr todo (Layer.OnEvent (vptr a) event (world s)).1 s1)
    as [[event2 s2] steps] eqn:Hl.
  exists steps. split; [reflexivity|].
  intros Hcons. destruct todo; cbn [OnEvent_loop] in Hl.
  - injection Hl as _ _ <-. reflexivity.
  - rewrite Hcons in Hl. injection Hl as _ _ <-. reflexivity.
Qed.

(** X15. After a [PushOverlay] that goes through, the new overlay, if
    enabled, is the first entry whose [OnEvent] runs on the next unconsumed
    event, and the only one if it consumes the event.  After a [PushLayer]
    that goes through, [OnEvent] comes to the new layer after all overlays
    and before all older layers; with no overlays it is the first. *)
Theorem newest_entry_sees_event_first a event s :
  reachable AE_DEBUG vptr s ->
  accepts AE_DEBUG (Some a) s = true ->
  Z.of_nat (length (m_Layers s)) + 1 < 2 ^ 32 ->
  Event.IsConsumed event = false ->
  (let s1 := (PushOverlay AE_DEBUG vptr (Some a) s).1 in
   IsEnabled a s1 = true ->
   exists rest,
     (OnEvent vptr event s1).2 = Invoked (Layer.EventHook event) a s1 :: rest
     /\ (Event.IsConsumed (Layer.OnEvent (vptr a) event (world s1)).1 = true ->
         rest = []))
  /\ (let s1 := (PushLayer AE_DEBUG vptr (Some a) s).1 in
      reverse (m_Layers s1) = reverse (overlays s) ++ Some a :: reverse (layers s)
      /\ (overlays s = [] -> IsEnabled a s1 = true ->
          exists rest,
            (OnEvent vptr event s1).2 = Invoked (Layer.EventHook event) a s1 :: rest
            /\ (Event.IsConsumed (Layer.OnEvent (vptr a) event (world s1)).1 = true ->
                rest = []))).
Proof.
  intros Hreach Hacc Hroom Hfresh.
  pose proof (boundary_ok_reachable AE_DEBUG vptr s Hreach) as Hok.
  split.
  - intros s1 Hen. unfold OnEvent.
    destruct (PushOverlay_stack AE_DEBUG vptr a s Hacc) as [Hl _]. fold s1 in Hl.
    rewrite Hl, reverse_snoc. apply OnEvent_loop_head; assumption.
  - intros s1.
    destruct (accepts_execute_PushLayer a s Hok Hacc Hroom) as (Hl & _). fold s1 in Hl.
    assert (Hrev : reverse (m_Layers s1) =
                   reverse (overlays s) ++ Some a :: reverse (layers s)).
    { rewrite Hl, reverse_app, reverse_cons, <- app_assoc. reflexivity. }
    split; [exact Hrev|].
    intros Hnone Hen. unfold OnEvent. rewrite Hrev, Hnone. simpl.
    apply OnEvent_loop_head; assumption.
Qed.

(** *** [Size] and [Empty] *)

(** X16. In a state whose boundary lies within the stored sequence (the
    condition under which [m_Layers.begin() + m_LayerInsertIndex] is an
    iterator of the vector), [Size()] is the number of layers plus the
    number of overlays; [Empty()] holds exactly if it is 0; a push adds one
    exactly if it goes through; [PopLayer] takes one off exactly if the
    pointer is in the layer partition, [PopOverlay] exactly if it is in the
    overlay partition, and neither does on the null pointer; the four
    passes leave it; a new stack has size 0. *)
Theorem Size_accounting s :
  boundary_ok s ->
  Size s = Z.of_nat (length (layers s)) + Z.of_nat (length (overlays s))
  /\ (Empty s = true <-> Size s = 0)
  /\ (forall p, Size (PushLayer AE_DEBUG vptr p s).1 =
                Size s + (if accepts AE_DEBUG p s then 1 else 0))
  /\ (forall p, Size (PushOverlay AE_DEBUG vptr p s).1 =
                Size s + (if accepts AE_DEBUG p s then 1 else 0))
  /\ (forall a, Size (PopLayer vptr (Some a) s).1 =
                Size s - (if bool_decide (Some a ∈ layers s) then 1 else 0))
  /\ (forall a, Size (PopOverlay vptr (Some a) s).1 =
                Size s - (if bool_decide (Some a ∈ overlays s) then 1 else 0))
  /\ Size (PopLayer vptr nullptr s).1 = Size s
  /\ Size (PopOverlay vptr nullptr s).1 = Size s
  /\ (forall event, Size (OnEvent vptr event s).1.2 = Size s)
  /\ (forall deltaTime, Size (OnUpdate vptr deltaTime s).1 = Size s)
  /\ Size (OnRender vptr s).1 = Size s
  /\ Size (OnImGuiRender vptr s).1 = Size s
  /\ Size (make (world s) (log s)) = 0.
Proof.
  intros Hok.
  assert (Hsame : forall s', same_stack s s' -> Size s' = Size s).
  { intros s' [Hl _]. unfold Size. rewrite Hl. reflexivity. }
  unfold Size in *.
  split; [|split; [|split; [|split; [|split; [|split; [|split; [|split]]]]]]].
  - rewrite (partitions s) at 1. rewrite length_app. lia.
  - unfold Empty. rewrite bool_decide_eq_true.
    destruct (m_Layers s); simpl; split; intros H; try reflexivity; try discriminate; lia.
  - intros p. destruct (accepts AE_DEBUG p s) eqn:Hacc.
    + destruct p as [a|]; [|discriminate].
      destruct (PushLayer_stack AE_DEBUG vptr a s Hacc) as [Hl _].
      rewrite Hl, length_vector_insert. lia.
    + rewrite (Hsame _ (PushLayer_refused_same_stack AE_DEBUG vptr p s Hacc)). lia.
  - intros p. destruct (accepts AE_DEBUG p s) eqn:Hacc.
    + destruct p as [a|]; [|discriminate].
      destruct (PushOverlay_stack AE_DEBUG vptr a s Hacc) as [Hl _].
      rewrite Hl, length_app. simpl. lia.
    + rewrite (Hsame _ (PushOverlay_refused_same_stack AE_DEBUG vptr p s Hacc)). lia.
  - intros a. destruct (decide (Some a ∈ layers s)) as [Hin|Hin];
      [rewrite bool_decide_eq_true_2 by assumption
      |rewrite bool_decide_eq_false_2 by assumption].
    + destruct (PopLayer_stack vptr a s Hok Hin) as (it & _ & Hlook & _ & Hl & _).
      rewrite Hl, length_delete by eauto.
      destruct (m_Layers s); [rewrite lookup_nil in Hlook; discriminate|].
      simpl. lia.
    + rewrite (Hsame _ (PopLayer_absent_same_stack vptr (Some a) s Hin)). lia.
  - intros a. destruct (decide (Some a ∈ overlays s)) as [Hin|Hin];
      [rewrite bool_decide_eq_true_2 by assumption
      |rewrite bool_decide_eq_false_2 by assumption].
    + destruct (PopOverlay_stack vptr a s Hin) as (it & _ & Hlook & Hl & _).
      rewrite Hl, length_delete by eauto.
      destruct (m_Layers s); [rewrite lookup_nil in Hlook; discriminate|].
      simpl. lia.
    + rewrite (Hsame _ (PopOverlay_absent_same_stack vptr (Some a) s Hin)). lia.
  - reflexivity.
  - reflexivity.
  - split; [intros event; apply Hsame, OnEvent_same_stack|].
    split; [intros deltaTime; apply Hsame, for_each_same_stack; exact I|].
    split; [apply Hsame, for_each_same_stack; exact I|].
    split; [apply Hsame, for_each_same_stack; exact I|]. reflexivity.
Qed.

End Facts.

Section Builds.

Context {U double : Type}.
Context (vptr : addr -> Layer.vtable U double).
Implicit Types (s : t U) (pLayer : ptr) (a : addr).

Lemma accepts_validated a s : accepts true (Some a) s = true -> Some a ∉ m_Layers s.
Proof.
  unfold accepts. simpl. intros H. apply negb_true_iff in H.
  apply bool_decide_eq_false in H. exact H.
Qed.

Lemma NoDup_reachable s : reachable true vptr s -> NoDup (m_Layers s).
Proof.
  induction 1 as [w l|o s Hreach IH]; [simpl; constructor|].
  pose proof (boundary_ok_reachable true vptr s Hreach) as Hok.
  destruct (execute_m_Layers true vptr o s Hok)
    as [[Hl _]|[(a & Hacc & Hl)|[(a & Hacc & Hl)|(it & Hl)]]]; rewrite Hl.
  - exact IH.
  - apply NoDup_vector_insert; [apply accepts_validated, Hacc | exact IH].
  - apply NoDup_app. split; [exact IH|]. split; [|apply NoDup_singleton].
    intros x Hx Hin. apply list_elem_of_singleton in Hin as ->.
    exact (accepts_validated a s Hacc Hx).
  - apply NoDup_delete_entry, IH.
Qed.


Lemma NoDup_delete_lookup (l : list ptr) it x :
  NoDup l -> l !! it = Some x -> x ∉ delete it l.
Proof.
  intros Hnodup Hlook. rewrite delete_take_drop.
  rewrite <- (take_drop_middle l it x Hlook) in Hnodup.
  apply NoDup_app in Hnodup as (_ & H2 & H3).
  apply NoDup_cons in H3 as [H3 _].
  rewrite elem_of_app. intros [H|H]; [|exact (H3 H)].
  apply (H2 x H). left.
Qed.

Lemma count_delete_lookup (l : list ptr) it x :
  l !! it = Some x ->
  length (filter (fun p => p = x) l) = S (length (filter (fun p => p = x) (delete it l))).
Proof.
  intros Hlook. rewrite delete_take_drop.
  rewrite <- (take_drop_middle l it x Hlook) at 1.
  rewrite !filter_app, filter_cons_True by reflexivity.
  rewrite !length_app. simpl. lia.
Qed.

(** X10. No stack a program reaches holds the null pointer.  In a
    validated build no pointer is stored twice, so no layer is a layer and
    an overlay at once, and after the pop that finds it a layer is in the
    stack no more. *)
Theorem stack_entries_invariant AE_DEBUG s :
  reachable AE_DEBUG vptr s ->
  (nullptr ∉ m_Layers s)
  /\ (AE_DEBUG = true ->
      NoDup (m_Layers s)
      /\ (forall p, p ∈ layers s -> p ∉ overlays s)
      /\ (forall a, Some a ∈ layers s ->
            Some a ∉ m_Layers (PopLayer vptr (Some a) s).1)
      /\ (forall a, Some a ∈ overlays s ->
            Some a ∉ m_Layers (PopOverlay vptr (Some a) s).1)).
Proof.
  intros Hreach. split; [apply (no_null_reachable AE_DEBUG vptr s Hreach)|].
  intros ->. pose proof (NoDup_reachable s Hreach) as Hnodup.
  pose proof (boundary_ok_reachable true vptr s Hreach) as Hok.
  split; [exact Hnodup|]. split; [|split].
  - intros p Hl Ho. rewrite (partitions s) in Hnodup.
    apply NoDup_app in Hnodup as (_ & H & _). exact (H p Hl Ho).
  - intros a Hin.
    destruct (PopLayer_stack vptr a s Hok Hin) as (it & _ & Hlook & _ & Hl & _).
    rewrite Hl. apply NoDup_delete_lookup; assumption.
  - intros a Hin.
    destruct (PopOverlay_stack vptr a s Hin) as (it & _ & Hlook & Hl & _).
    rewrite Hl. apply NoDup_delete_lookup; assumption.
Qed.

(** X17. In a build that is not validated, pushing a pointer that is in
    the stack already goes through: [OnAttach] runs again and the pointer
    is stored once more, as a layer or as an overlay.  One [PopLayer] then
    erases one occurrence only: the pointer is still in the stack. *)
Theorem unvalidated_push_keeps_duplicates a s :
  reachable false vptr s ->
  Some a ∈ m_Layers s ->
  let count (x : t U) := length (filter (fun p => p = Some a) (m_Layers x)) in
  let s1 := (PushLayer false vptr (Some a) s).1 in
  (exists at_call,
     (PushLayer false vptr (Some a) s).2 = [Invoked Layer.AttachHook a at_call])
  /\ count s1 = S (count s)
  /\ (exists at_call,
        (PushOverlay false vptr (Some a) s).2 = [Invoked Layer.AttachHook a at_call])
  /\ count (PushOverlay false vptr (Some a) s).1 = S (count s)
  /\ (Z.of_nat (length (m_Layers s)) + 1 < 2 ^ 32 ->
      count (PopLayer vptr (Some a) s1).1 = count s
      /\ Some a ∈ m_Layers (PopLayer vptr (Some a) s1).1).
Proof.
  intros Hreach Hin count s1.
  set (P := fun p : ptr => p = Some a) in *.
  assert (Hcount : forall x, count x = length (filter P (m_Layers x))) by reflexivity.
  clearbody count.
  pose proof (boundary_ok_reachable false vptr s Hreach) as Hok.
  assert (Hacc : accepts false (Some a) s = true) by reflexivity.
  destruct (PushLayer_stack false vptr a s Hacc) as [Hl _]. fold s1 in Hl.
  destruct (PushOverlay_stack false vptr a s Hacc) as [Hl' _].
  assert (Hc1 : count s1 = S (count s)).
  { rewrite !Hcount, Hl. unfold vector_insert.
    assert (Hcnt : length (filter P (m_Layers s)) =
              (length (filter P
                         (take (Z.to_nat (m_LayerInsertIndex s)) (m_Layers s)))
               + length (filter P
                           (drop (Z.to_nat (m_LayerInsertIndex s)) (m_Layers s))))%nat).
    { rewrite <- (take_drop (Z.to_nat (m_LayerInsertIndex s)) (m_Layers s)) at 1.
      rewrite filter_app, length_app. reflexivity. }
    rewrite Hcnt, filter_app, filter_cons_True, length_app by reflexivity.
    simpl. lia. }
  split; [rewrite (PushLayer_accepted false vptr a s Hacc); simpl; eauto|].
  split; [exact Hc1|].
  split; [rewrite (PushOverlay_accepted false vptr a s Hacc); simpl; eauto|].
  split.
  { rewrite !Hcount, Hl', filter_app, filter_cons_True by reflexivity.
    rewrite length_app. simpl. lia. }
  intros Hroom.
  destruct (accepts_execute_PushLayer false vptr a s Hok Hacc Hroom)
    as (_ & _ & Hlay & _ & Hok1). fold s1 in Hlay, Hok1.
  assert (Hin1 : Some a ∈ layers s1) by (rewrite Hlay; set_solver).
  destruct (PopLayer_stack vptr a s1 Hok1 Hin1) as (it & _ & Hlook & _ & Hl2 & _).
  assert (Hc2 : count (PopLayer vptr (Some a) s1).1 = count s).
  { pose proof (count_delete_lookup _ _ _ Hlook
                  : length (filter P _) = S (length (filter P _))) as Hc.
    rewrite !Hcount in *. rewrite Hl2. lia. }
  split; [exact Hc2|].
  assert (Hpos : (0 < count s)%nat).
  { rewrite Hcount. apply list_elem_of_In, in_split in Hin as (l1 & l2 & ->).
    rewrite filter_app, filter_cons_True by reflexivity.
    rewrite length_app. simpl. lia. }
  rewrite <- Hc2, Hcount in Hpos.
  destruct (filter P (m_Layers (PopLayer vptr (Some a) s1).1))
    as [|x l] eqn:Hf; [simpl in Hpos; lia|].
  assert (Hx : x ∈ filter P (m_Layers (PopLayer vptr (Some a) s1).1))
    by (rewrite Hf; left).
  apply list_elem_of_filter in Hx as [-> Hx]. exact Hx.
Qed.

End Builds.

Section Base.

Context {U double : Type}.
Context (vptr : addr -> Layer.vtable U double).
Implicit Types (s : t U) (pLayer : ptr) (a : addr).

Lemma call_base h a s :
  vptr a = Layer.base -> LayerStack.call vptr h a s = (h, s).
Proof.
  intros Hbase. unfold LayerStack.call. rewrite Hbase.
  destruct s, h; reflexivity.
Qed.

Lemma visit_base h p s :
  (forall a, p = Some a -> vptr a = Layer.base) ->
  exists st, visit vptr h p s = (h, s, st) /\ entry st = p.
Proof.
  intros Hbase. unfold visit. destruct p as [a|]; [|eauto].
  destruct (IsEnabled a s); [|eauto].
  rewrite call_base by (apply Hbase; reflexivity). eauto.
Qed.

Lemma for_each_base todo h s :
  (forall a, Some a ∈ todo -> vptr a = Layer.base) ->
  (for_each vptr todo h s).1 = s.
Proof.
  induction todo as [|p todo IH]; intros Hbase; [reflexivity|].
  cbn [for_each].
  destruct (visit_base h p s) as (st & -> & _).
  { intros a ->. apply Hbase. left. }
  assert (IH' : (for_each vptr todo h s).1 = s)
    by (apply IH; intros a Ha; apply Hbase; right; exact Ha).
  destruct (for_each vptr todo h s) as [s2 steps]. exact IH'.
Qed.

Lemma OnEvent_loop_base todo event s :
  (forall a, Some a ∈ todo -> vptr a = Layer.base) ->
  (OnEvent_loop vptr todo event s).1 = (event, s)
  /\ (Event.IsConsumed event = false ->
      map entry (OnEvent_loop vptr todo event s).2 = todo).
Proof.
  induction todo as [|p todo IH]; intros Hbase; [split; reflexivity|].
  cbn [OnEvent_loop].
  destruct (Event.IsConsumed event) eqn:Hc; [split; [reflexivity | discriminate]|].
  destruct (visit_base (Layer.EventHook event) p s) as (st & -> & Hst).
  { intros a ->. apply Hbase. left. }
  destruct IH as [IH1 IH2]; [intros a Ha; apply Hbase; right; exact Ha|].
  destruct (OnEvent_loop vptr todo event s) as [[e2 s2] steps].
  cbn [fst snd map] in *. split; [exact IH1|].
  intros _. rewrite Hst, IH2 by reflexivity. reflexivity.
Qed.

Lemma destructor_loop_base todo s :
  (forall a, Some a ∈ todo -> vptr a = Layer.base) ->
  (destructor_loop vptr todo s).1 = s.
Proof.
  induction todo as [|p todo IH]; intros Hbase; [reflexivity|].
  cbn [destructor_loop].
  assert (IH' : (destructor_loop vptr todo s).1 = s)
    by (apply IH; intros a Ha; apply Hbase; right; exact Ha).
  destruct p as [a|].
  - rewrite call_base by (apply Hbase; left). cbn [snd].
    destruct (destructor_loop vptr todo s) as [s2 steps]. exact IH'.
  - destruct (destructor_loop vptr todo s) as [s2 steps]. exact IH'.
Qed.

(** X18. On a stack whose entries are objects that override no hook of
    [Layer], every pass and the destructor leave the state as it is; an
    unconsumed event goes through the whole stack, from the back, and
    comes back unchanged. *)
Theorem base_hooks_change_nothing deltaTime event s :
  (forall a, Some a ∈ m_Layers s -> vptr a = Layer.base) ->
  (OnUpdate vptr deltaTime s).1 = s
  /\ (OnRender vptr s).1 = s
  /\ (OnImGuiRender vptr s).1 = s
  /\ (OnEvent vptr event s).1 = (event, s)
  /\ (Event.IsConsumed event = false ->
      map entry (OnEvent vptr event s).2 = reverse (m_Layers s))
  /\ (destructor vptr s).1 = s.
Proof.
  intros Hbase.
  assert (Hrev : forall a, Some a ∈ reverse (m_Layers s) -> vptr a = Layer.base).
  { intros a Ha. apply Hbase. apply elem_of_reverse. exact Ha. }
  split; [apply for_each_base, Hbase|].
  split; [apply for_each_base, Hbase|].
  split; [apply for_each_base, Hbase|].
  split; [apply OnEvent_loop_base, Hrev|].
  split; [apply OnEvent_loop_base, Hrev|].
  apply destructor_loop_base, Hbase.
Qed.

End Base.

End LayerStackExtra.

(** The stack of the example, in the build that is not validated, after
    the layer at address 1 was pushed. *)
Lemma one_reachable_unvalidated :
  LayerStack.reachable false StackExample.vptr
    (LayerStack.execute false StackExample.vptr
       (LayerStack.DoPushLayer (Some StackExample.L1)) StackExample.fresh).
Proof. apply LayerStack.reachable_execute, LayerStack.reachable_make. Qed.

(** The stack of the example. *)
Lemma stack_entries_invariant_witness :
  LayerStack.reachable true StackExample.vptr StackExample.three
  /\ (nullptr ∉ LayerStack.m_Layers StackExample.three)
  /\ NoDup (LayerStack.m_Layers StackExample.three)
  /\ (Some StackExample.L1 ∉
        LayerStack.m_Layers
          (LayerStack.PopLayer StackExample.vptr (Some StackExample.L1)
             StackExample.three).1).
Proof.
  assert (Hin : Some StackExample.L1 ∈ LayerStack.layers StackExample.three)
    by (vm_compute; left).
  destruct (LayerStackExtra.stack_entries_invariant StackExample.vptr true
              StackExample.three three_reachable) as [Hnull Hval].
  destruct (Hval eq_refl) as (Hnodup & _ & Hpop & _).
  split; [exact three_reachable|]. split; [exact Hnull|]. split; [exact Hnodup|].
  apply Hpop, Hin.
Defined.

(** A fourth layer object pushed onto the stack of the example and popped
    again. *)
Lemma push_then_pop_restores_witness :
  let a := 4%positive in
  (LayerStack.reachable true StackExample.vptr StackExample.three
   /\ LayerStack.accepts true (Some a) StackExample.three = true
   /\ Z.of_nat (length (LayerStack.m_Layers StackExample.three)) + 1 < 2 ^ 32)
  /\ LayerStack.same_stack StackExample.three
       (LayerStack.PopLayer StackExample.vptr (Some a)
          (LayerStack.PushLayer true StackExample.vptr (Some a) StackExample.three).1).1
  /\ LayerStack.same_stack StackExample.three
       (LayerStack.PopOverlay StackExample.vptr (Some a)
          (LayerStack.PushOverlay true StackExample.vptr (Some a) StackExample.three).1).1.
Proof.
  intros a.
  assert (Hacc : LayerStack.accepts true (Some a) StackExample.three = true)
    by reflexivity.
  assert (Hroom : Z.of_nat (length (LayerStack.m_Layers StackExample.three)) + 1 < 2 ^ 32)
    by reflexivity.
  assert (Hl : Some a ∉ LayerStack.layers StackExample.three)
    by (vm_compute; set_solver).
  assert (Ho : Some a ∉ LayerStack.overlays StackExample.three)
    by (vm_compute; set_solver).
  destruct (LayerStackExtra.push_then_pop_restores true StackExample.vptr a
              StackExample.three three_reachable Hacc Hroom) as [H1 H2].
  split; [split; [exact three_reachable | split; assumption]|].
  split; [exact (proj1 (H1 Hl)) | exact (proj1 (H2 Ho))].
Defined.

(** The stack of the example after every layer object was disabled. *)
Lemma passes_over_disabled_layers_witness :
  let s := LayerStack.execute true StackExample.vptr
             (LayerStack.Elsewhere
                (fun w => Layer.mkWorld
                            (fun a => Layer.SetEnabled false (Layer.objects w a))
                            (Layer.user w)))
             StackExample.three in
  (forall a, Some a ∈ LayerStack.m_Layers s -> LayerStack.IsEnabled a s = false)
  /\ (LayerStack.OnUpdate StackExample.vptr 16 s).1 = s
  /\ (LayerStack.OnEvent StackExample.vptr StackExample.key_pressed s).1
     = (StackExample.key_pressed, s).
Proof.
  intros s.
  assert (Hoff : forall a, Some a ∈ LayerStack.m_Layers s ->
                           LayerStack.IsEnabled a s = false)
    by (intros a _; reflexivity).
  destruct (LayerStackExtra.passes_over_disabled_layers StackExample.vptr 16
              StackExample.key_pressed s Hoff) as (H1 & _ & _ & H4 & _).
  split; [exact Hoff|]. split; [rewrite H1; reflexivity|].
  rewrite H4 by reflexivity. reflexivity.
Defined.

(** A fourth layer object pushed as an overlay onto the stack of the
    example. *)
Lemma newest_entry_sees_event_first_witness :
  let a := 4%positive in
  let s1 := (LayerStack.PushOverlay true StackExample.vptr (Some a)
               StackExample.three).1 in
  (LayerStack.reachable true StackExample.vptr StackExample.three
   /\ LayerStack.accepts true (Some a) StackExample.three = true
   /\ Z.of_nat (length (LayerStack.m_Layers StackExample.three)) + 1 < 2 ^ 32
   /\ Event.IsConsumed StackExample.key_pressed = false)
  /\ exists rest,
       (LayerStack.OnEvent StackExample.vptr StackExample.key_pressed s1).2
       = LayerStack.Invoked (Layer.EventHook StackExample.key_pressed) a s1 :: rest.
Proof.
  intros a s1.
  assert (Hacc : LayerStack.accepts true (Some a) StackExample.three = true)
    by reflexivity.
  assert (Hroom : Z.of_nat (length (LayerStack.m_Layers StackExample.three)) + 1 < 2 ^ 32)
    by reflexivity.
  assert (Hfresh : Event.IsConsumed StackExample.key_pressed = false) by reflexivity.
  destruct (LayerStackExtra.newest_entry_sees_event_first true StackExample.vptr a
              StackExample.key_pressed StackExample.three three_reachable
              Hacc Hroom Hfresh) as [H1 _].
  split; [split; [exact three_reachable | repeat split; assumption]|].
  destruct (H1 eq_refl) as (rest & Hrest & _). exists rest. exact Hrest.
Defined.

(** The stack of the example: popping the overlay as a layer leaves the
    size, popping it as an overlay takes one off. *)
Lemma Size_accounting_witness :
  LayerStack.boundary_ok StackExample.three
  /\ LayerStack.Size StackExample.three = 3
  /\ LayerStack.Size
       (LayerStack.PopLayer StackExample.vptr (Some StackExample.O)
          StackExample.three).1 = 3
  /\ LayerStack.Size
       (LayerStack.PopOverlay StackExample.vptr (Some StackExample.O)
          StackExample.three).1 = 2.
Proof.
  assert (Hok : LayerStack.boundary_ok StackExample.three).
  { repeat split; vm_compute; first [reflexivity | discriminate]. }
  destruct (LayerStackExtra.Size_accounting true StackExample.vptr
              StackExample.three Hok)
    as (_ & _ & _ & _ & Hpop & Hpopo & _).
  split; [exact Hok|]. split; [reflexivity|].
  split; [rewrite Hpop | rewrite Hpopo]; reflexivity.
Defined.

(** The layer at address 1 pushed twice. *)
Lemma unvalidated_push_keeps_duplicates_witness :
  let s := LayerStack.execute false StackExample.vptr
             (LayerStack.DoPushLayer (Some StackExample.L1)) StackExample.fresh in
  let s1 := (LayerStack.PushLayer false StackExample.vptr (Some StackExample.L1) s).1 in
  (LayerStack.reachable false StackExample.vptr s
   /\ Some StackExample.L1 ∈ LayerStack.m_Layers s)
  /\ length (filter (fun p => p = Some StackExample.L1) (LayerStack.m_Layers s1)) = 2%nat
  /\ Some StackExample.L1 ∈
       LayerStack.m_Layers
         (LayerStack.PopLayer StackExample.vptr (Some StackExample.L1) s1).1.
Proof.
  intros s s1.
  assert (Hin : Some StackExample.L1 ∈ LayerStack.m_Layers s)
    by (vm_compute; left).
  destruct (LayerStackExtra.unvalidated_push_keeps_duplicates StackExample.vptr
              StackExample.L1 s one_reachable_unvalidated Hin)
    as (_ & Hcount & _ & _ & Hpop).
  split; [split; [exact one_reachable_unvalidated | exact Hin]|].
  split; [exact Hcount|].
  apply Hpop. reflexivity.
Defined.

(** Two objects of class [Layer] itself, pushed as a layer and as an
    overlay. *)
Lemma base_hooks_change_nothing_witness :
  let vptr (a : addr) : Layer.vtable unit Z := Layer.base in
  let s := LayerStack.execute true vptr (LayerStack.DoPushOverlay (Some 2%positive))
             (LayerStack.execute true vptr (LayerStack.DoPushLayer (Some 1%positive))
                (LayerStack.make (Layer.mkWorld (fun _ => Layer.make "Layer") tt) [])) in
  (forall a, Some a ∈ LayerStack.m_Layers s -> vptr a = Layer.base)
  /\ (LayerStack.OnUpdate vptr 16 s).1 = s
  /\ map LayerStack.entry (LayerStack.OnEvent vptr StackExample.key_pressed s).2
     = [Some 2%positive; Some 1%positive].
Proof.
  intros vptr s.
  assert (Hbase : forall a, Some a ∈ LayerStack.m_Layers s -> vptr a = Layer.base)
    by reflexivity.
  destruct (LayerStackExtra.base_hooks_change_nothing vptr 16 StackExample.key_pressed
              s Hbase) as (H1 & _ & _ & _ & H5 & _).
  split; [exact Hbase|]. split; [exact H1|]. apply H5. reflexivity.
Defined.

(** ** The stack in a process *)

Module WiringFacts.
Import Wiring.


Section Facts.

Context (AE_DEBUG : bool).
Context {U double : Type}.
Context (vptr : addr -> Layer.vtable U double).
Context (iteration : gset ptr -> list ptr).
Context (m_Listener : addr -> addr).
Implicit Types (s : process callable (heap U)) (st : LayerStack.t U).

(** *** The log does not matter to a pass *)

Lemma call_relog l h a st :
  LayerStack.call vptr h a (relog l st) =
  ((LayerStack.call vptr h a st).1, relog l (LayerStack.call vptr h a st).2).
Proof.
  unfold LayerStack.call. cbn [relog LayerStack.world].
  destruct (Layer.perform h (vptr a) (LayerStack.world st)). reflexivity.
Qed.

Lemma visit_relog l h p st :
  (LayerStack.visit vptr h p (relog l st)).1 =
  ((LayerStack.visit vptr h p st).1.1, relog l (LayerStack.visit vptr h p st).1.2).
Proof.
  unfold LayerStack.visit. destruct p as [a|]; [|reflexivity].
  change (LayerStack.IsEnabled a (relog l st)) with (LayerStack.IsEnabled a st).
  destruct (LayerStack.IsEnabled a st); [|reflexivity].
  cbn [fst]. rewrite call_relog.
  destruct (LayerStack.call vptr h a st). reflexivity.
Qed.

Lemma OnEvent_loop_relog l todo event st :
  (LayerStack.OnEvent_loop vptr todo event (relog l st)).1 =
  ((LayerStack.OnEvent_loop vptr todo event st).1.1,
   relog l (LayerStack.OnEvent_loop vptr todo event st).1.2).
Proof.
  revert event st. induction todo as [|p todo IH]; intros event st; [reflexivity|].
  cbn [LayerStack.OnEvent_loop].
  destruct (Event.IsConsumed event); [reflexivity|].
  pose proof (visit_relog l (Layer.EventHook event) p st) as Hv.
  destruct (LayerStack.visit vptr (Layer.EventHook event) p (relog l st))
    as [[h1 s1] st1].
  destruct (LayerStack.visit vptr (Layer.EventHook event) p st)
    as [[h2 s2] st2].
  cbn [fst snd] in Hv. injection Hv as -> ->.
  specialize (IH (match h2 with Layer.EventHook e => e | _ => event end) s2).
  destruct (LayerStack.OnEvent_loop vptr todo _ (relog l s2)) as [[e3 s3] steps3].
  destruct (LayerStack.OnEvent_loop vptr todo _ s2) as [[e4 s4] steps4].
  cbn [fst snd] in *. exact IH.
Qed.


(** *** The registry of a process with one stack *)

Lemma constructor_registry this s0 :
  m_pListeners s0 = ∅ ->
  m_pListeners (constructor AE_DEBUG m_Listener this s0) = {[Some (m_Listener this)]}
  /\ m_Callback (constructor AE_DEBUG m_Listener this s0) (m_Listener this)
     = Some (OnEventOf this).
Proof.
  intros Hempty. unfold constructor. cbn zeta.
  unfold EventListener.SetCallback, EventListener.constructor. cbn zeta.
  cbn [set_m_Callback m_pListeners m_Callback].
  split; [|apply fn_lookup_insert].
  rewrite ClientFacts.AddListener_fresh.
  - cbn [set_m_pListeners set_m_Callback m_pListeners]. rewrite Hempty.
    apply leibniz_equiv. set_solver.
  - cbn [set_m_Callback m_pListeners]. rewrite Hempty. set_solver.
Qed.

Lemma built_registry this os s0 :
  m_pListeners s0 = ∅ ->
  m_pListeners (built AE_DEBUG vptr m_Listener this os s0) = {[Some (m_Listener this)]}
  /\ m_Callback (built AE_DEBUG vptr m_Listener this os s0) (m_Listener this)
     = Some (OnEventOf this).
Proof.
  intros Hempty. unfold built.
  induction os as [|o os IH] using rev_ind.
  - simpl. apply constructor_registry, Hempty.
  - rewrite foldl_snoc. exact IH.
Qed.

(** The order of iteration enumerates the set. *)
Hypothesis iteration_enumerates : forall r, iteration r ≡ₚ elements r.

Lemma iteration_singleton (p : ptr) : iteration {[p]} = [p].
Proof.
  apply Permutation_singleton_r. rewrite iteration_enumerates.
  rewrite elements_singleton. reflexivity.
Qed.

(** A broadcast in a process whose one registered handle holds the lambda
    of the stack at [target]. *)
Lemma Dispatch_one (a target : addr) event s :
  m_pListeners s = {[Some a]} ->
  m_Callback s a = Some (OnEventOf target) ->
  let r := LayerStack.OnEvent vptr (Event.reset_consumed event)
             (stack_at target (user s) (log s)) in
  exists s' visits,
    Dispatch vptr iteration event s = Some (r.1.1, s', visits)
    /\ world (user s') = LayerStack.world r.1.2
    /\ (forall b, members (user s') b = members (user s) b)
    /\ m_pListeners s' = m_pListeners s
    /\ m_Callback s' = m_Callback s
    /\ log s' = log s
    /\ EventManager.invoked visits = [a].
Proof.
  intros Hreg Hcb r.
  unfold Dispatch, Client.Dispatch, EventManager.DispatchEvent.
  rewrite Hreg, iteration_singleton. cbn [EventManager.DispatchEvent_loop fst].
  rewrite Hcb. cbn [call snd].
  pose proof (OnEvent_loop_relog (log s)
                (reverse (LayerStack.m_Layers (stack_at target (user s) [])))
                (Event.reset_consumed event) (stack_at target (user s) [])) as Hlog.
  change (relog (log s) (stack_at target (user s) []))
    with (stack_at target (user s) (log s)) in Hlog.
  change (reverse (LayerStack.m_Layers (stack_at target (user s) [])))
    with (reverse (LayerStack.m_Layers (stack_at target (user s) (log s)))) in Hlog at 1.
  fold (LayerStack.OnEvent vptr (Event.reset_consumed event)
          (stack_at target (user s) (log s))) in Hlog.
  fold (LayerStack.OnEvent vptr (Event.reset_consumed event)
          (stack_at target (user s) [])) in Hlog.
  fold r in Hlog.
  pose proof (LayerStackFacts.OnEvent_same_stack vptr (Event.reset_consumed event)
                (stack_at target (user s) [])) as [Hl Hi].
  destruct (LayerStack.OnEvent vptr (Event.reset_consumed event)
              (stack_at target (user s) [])) as [[e1 st1] steps1].
  cbn [fst snd] in *. simpl.
  eexists _, _. split; [rewrite Hlog; reflexivity|].
  cbn [user m_pListeners m_Callback log put world members].
  split; [rewrite Hlog; reflexivity|].
  split; [|repeat split].
  intros b. destruct (decide (b = target)) as [->|Hne].
  - rewrite fn_lookup_insert. rewrite Hl, Hi.
    cbn [stack_at LayerStack.m_Layers LayerStack.m_LayerInsertIndex].
    destruct (members (user s) target). reflexivity.
  - rewrite fn_lookup_insert_ne by congruence. reflexivity.
Qed.


(** *** From [Dispatch] to the layers *)

Lemma built_stack_at this os s0 :
  m_pListeners s0 = ∅ ->
  let s := built AE_DEBUG vptr m_Listener this os s0 in
  stack_at this (user s) (log s) =
  foldl (fun st o => LayerStack.execute AE_DEBUG vptr o st)
    (LayerStack.make (world (user s0)) (log s0)) os.
Proof.
  intros Hempty. cbn zeta. unfold built.
  induction os as [|o os IH] using rev_ind.
  - simpl. unfold constructor. cbn zeta.
    unfold EventListener.SetCallback, EventListener.constructor. cbn zeta.
    rewrite ClientFacts.AddListener_fresh
      by (cbn [set_m_Callback m_pListeners]; rewrite Hempty; set_solver).
    cbn [set_m_Callback set_m_pListeners user log].
    unfold stack_at. cbn [members world]. rewrite fn_lookup_insert. reflexivity.
  - rewrite !foldl_snoc. rewrite <- IH.
    set (s := foldl _ (constructor AE_DEBUG m_Listener this s0) os).
    unfold on_stack. cbn [user log]. unfold stack_at at 1, put.
    cbn [members world]. rewrite fn_lookup_insert. cbn [fst snd].
    destruct (LayerStack.execute AE_DEBUG vptr o (stack_at this (user s) (log s))).
    reflexivity.
Qed.

(** X19. A stack constructed in a process with an empty registry, after
    any operations on it, is the one registered listener, bound to its own
    [OnEvent]; its state is the state of the stack those operations reach.
    [Dispatch] of an event, consumed or not, runs [OnEvent] of that stack
    on the event with the consumed flag cleared: the event and the world
    afterwards are the ones of that pass, and the stack's members, the
    registry and the log are untouched. *)
Theorem Dispatch_runs_the_stack this os s0 event :
  m_pListeners s0 = ∅ ->
  let s := built AE_DEBUG vptr m_Listener this os s0 in
  let st := stack_at this (user s) (log s) in
  let r := LayerStack.OnEvent vptr (Event.reset_consumed event) st in
  st = foldl (fun st o => LayerStack.execute AE_DEBUG vptr o st)
         (LayerStack.make (world (user s0)) (log s0)) os
  /\ m_pListeners s = {[Some (m_Listener this)]}
  /\ m_Callback s (m_Listener this) = Some (OnEventOf this)
  /\ exists s' visits,
       Dispatch vptr iteration event s = Some (r.1.1, s', visits)
       /\ world (user s') = LayerStack.world r.1.2
       /\ (forall b, members (user s') b = members (user s) b)
       /\ m_pListeners s' = m_pListeners s
       /\ m_Callback s' = m_Callback s
       /\ log s' = log s
       /\ EventManager.invoked visits = [m_Listener this].
Proof.
  intros Hempty s st r.
  destruct (built_registry this os s0 Hempty) as [Hreg Hcb].
  split; [apply built_stack_at, Hempty|]. split; [exact Hreg|]. split; [exact Hcb|].
  apply (Dispatch_one (m_Listener this) this event s Hreg Hcb).
Qed.

Lemma destructor_loop_log todo st :
  LayerStack.log (LayerStack.destructor_loop vptr todo st).1 = LayerStack.log st.
Proof.
  revert st. induction todo as [|p todo IH]; intros st; [reflexivity|].
  cbn [LayerStack.destructor_loop]. destruct p as [a|].
  - specialize (IH (LayerStack.call vptr Layer.DetachHook a st).2).
    destruct (LayerStack.destructor_loop vptr todo _) as [s2 steps].
    cbn [fst] in *. rewrite IH. apply LayerStackFacts.call_log.
  - specialize (IH st).
    destruct (LayerStack.destructor_loop vptr todo st) as [s2 steps].
    exact IH.
Qed.

(** X20. Destroying such a stack calls [OnDetach] on its entries in stored
    order, unregisters its listener and logs nothing; a [Dispatch]
    afterwards visits no listener and returns the event as it was. *)
Theorem destroyed_stack_hears_nothing this os s0 event :
  m_pListeners s0 = ∅ ->
  let s := built AE_DEBUG vptr m_Listener this os s0 in
  let s' := destructor AE_DEBUG vptr m_Listener this s in
  m_pListeners s' = ∅
  /\ world (user s') =
     foldl (fun w p => match p with
                       | Some a => Layer.OnDetach (vptr a) w
                       | None => w
                       end) (world (user s)) (members (user s) this).1
  /\ log s' = log s
  /\ exists s'',
       Dispatch vptr iteration event s' = Some (event, s'', [])
       /\ user s'' = user s' /\ log s'' = log s'.
Proof.
  intros Hempty s s'.
  destruct (built_registry this os s0 Hempty) as [Hreg Hcb]. fold s in Hreg, Hcb.
  assert (Hs' : s' = set_m_pListeners (m_pListeners s ∖ {[Some (m_Listener this)]})
                       (on_stack this (fun st => (LayerStack.destructor vptr st).1) s)).
  { subst s'. unfold destructor. cbn zeta. unfold EventListener.destructor.
    apply (ClientFacts.RemoveListener_present AE_DEBUG (m_Listener this)
             (on_stack this (fun st => (LayerStack.destructor vptr st).1) s)).
    cbn [on_stack m_pListeners]. rewrite Hreg. set_solver. }
  assert (Hreg' : m_pListeners s' = ∅).
  { rewrite Hs'. cbn [set_m_pListeners m_pListeners]. rewrite Hreg.
    apply leibniz_equiv. set_solver. }
  split; [exact Hreg'|]. split; [|split].
  - rewrite Hs'. cbn [set_m_pListeners on_stack user put world].
    unfold LayerStack.destructor.
    destruct (LayerStackExtra.destructor_loop_spec vptr
                (LayerStack.m_Layers (stack_at this (user s) (log s)))
                (stack_at this (user s) (log s))) as (_ & _ & _ & _ & Hw).
    exact Hw.
  - rewrite Hs'. cbn [set_m_pListeners on_stack log].
    unfold LayerStack.destructor. apply destructor_loop_log.
  - unfold Dispatch, Client.Dispatch, EventManager.DispatchEvent.
    assert (Hnil : iteration (m_pListeners s') = []).
    { rewrite Hreg'. apply Permutation_nil_r. rewrite iteration_enumerates.
      rewrite elements_empty. reflexivity. }
    rewrite Hnil. simpl. eexists. split; [reflexivity|]. split; reflexivity.
Qed.

(** X21. The defaulted move constructor hands the entries and the
    registration to the new stack, but the callable it moves still refers
    to the source object: after the move, [Dispatch] runs [OnEvent] of the
    emptied source.  The event comes back with its consumed flag cleared
    and the world as it was, whatever the hooks of the layers that the new
    stack holds would do. *)
Theorem moved_stack_listens_for_its_source this other os s0 event :
  m_pListeners s0 = ∅ ->
  m_Listener this <> m_Listener other ->
  let s := built AE_DEBUG vptr m_Listener other os s0 in
  let s' := move_constructor AE_DEBUG m_Listener this other s in
  members (user s') this = members (user s) other
  /\ (members (user s') other).1 = []
  /\ world (user s') = world (user s)
  /\ m_pListeners s' = {[Some (m_Listener this)]}
  /\ m_Callback s' (m_Listener this) = Some (OnEventOf other)
  /\ exists s'' visits,
       Dispatch vptr iteration event s' = Some (Event.reset_consumed event, s'', visits)
       /\ world (user s'') = world (user s')
       /\ EventManager.invoked visits = [m_Listener this].
Proof.
  intros Hempty Hne s s'.
  assert (Hne' : this <> other) by congruence.
  destruct (built_registry other os s0 Hempty) as [Hreg Hcb]. fold s in Hreg, Hcb.
  set (m := members (user s) other).
  set (s1 := mkProcess (m_pListeners s) (m_Callback s)
               (mkHeap (<[this := m]> (<[other := ([], m.2)]> (members (user s))))
                  (world (user s))) (log s)).
  assert (Hs' : s' = set_m_Callback (m_Listener other) None
            (set_m_pListeners ({[Some (m_Listener this)]} ∪
                               (m_pListeners s ∖ {[Some (m_Listener other)]}))
               (set_m_Callback (m_Listener this) (m_Callback s1 (m_Listener other)) s1))).
  { subst s'. unfold move_constructor. cbn zeta. fold m. fold s1.
    unfold EventListener.move_constructor. cbn zeta.
    rewrite (ClientFacts.RemoveListener_present AE_DEBUG (m_Listener other))
      by (cbn [set_m_Callback m_pListeners s1]; rewrite Hreg; set_solver).
    rewrite ClientFacts.AddListener_fresh
      by (cbn [set_m_pListeners set_m_Callback m_pListeners s1]; rewrite Hreg;
          set_solver).
    reflexivity. }
  assert (Hreg' : m_pListeners s' = {[Some (m_Listener this)]}).
  { rewrite Hs'. cbn [set_m_Callback set_m_pListeners m_pListeners]. rewrite Hreg.
    apply leibniz_equiv. set_solver. }
  assert (Hcb' : m_Callback s' (m_Listener this) = Some (OnEventOf other)).
  { rewrite Hs'. cbn [set_m_Callback set_m_pListeners m_Callback s1].
    rewrite fn_lookup_insert_ne by congruence. rewrite fn_lookup_insert. exact Hcb. }
  assert (Hm1 : members (user s') this = m).
  { rewrite Hs'. cbn [set_m_Callback set_m_pListeners user s1 members].
    apply fn_lookup_insert. }
  assert (Hm2 : members (user s') other = ([], m.2)).
  { rewrite Hs'. cbn [set_m_Callback set_m_pListeners user s1 members].
    rewrite fn_lookup_insert_ne by congruence. apply fn_lookup_insert. }
  split; [exact Hm1|]. split; [rewrite Hm2; reflexivity|].
  split; [rewrite Hs'; reflexivity|]. split; [exact Hreg'|]. split; [exact Hcb'|].
  destruct (Dispatch_one (m_Listener this) other event s' Hreg' Hcb')
    as (s'' & visits & Hd & Hw & _ & _ & _ & _ & Hinv).
  assert (Hr : (LayerStack.OnEvent vptr (Event.reset_consumed event)
                  (stack_at other (user s') (log s'))).1
               = (Event.reset_consumed event, stack_at other (user s') (log s'))).
  { unfold LayerStack.OnEvent, stack_at. rewrite Hm2. reflexivity. }
  rewrite Hr in Hd, Hw. cbn [fst snd] in Hd, Hw.
  exists s'', visits. split; [exact Hd|]. split; [exact Hw | exact Hinv].
Qed.

End Facts.

End WiringFacts.

(** A key press that was consumed before it is dispatched still reaches the
    overlay of the example. *)
Lemma Dispatch_runs_the_stack_witness :
  m_pListeners WiringExample.boot = ∅
  /\ exists s' visits,
       Wiring.Dispatch StackExample.vptr elements
         (Event.Consume StackExample.key_pressed) WiringExample.app
       = Some (Event.Consume StackExample.key_pressed, s', visits)
       /\ Layer.user (Wiring.world (user s'))
          = Layer.user (Wiring.world (user WiringExample.app))
            ++ [(StackExample.O, "OnEvent")]
       /\ EventManager.invoked visits = [WiringExample.m_Listener WiringExample.stack].
Proof.
  assert (Hempty : m_pListeners WiringExample.boot = ∅) by reflexivity.
  split; [exact Hempty|].
  destruct (WiringFacts.Dispatch_runs_the_stack true StackExample.vptr elements
              WiringExample.m_Listener (fun r => reflexivity (elements r))
              WiringExample.stack WiringExample.pushes WiringExample.boot
              (Event.Consume StackExample.key_pressed) Hempty)
    as (_ & _ & _ & s' & visits & Hd & Hw & _ & _ & _ & _ & Hinv).
  exists s', visits. split; [exact Hd|]. split; [|exact Hinv].
  rewrite Hw. reflexivity.
Defined.

(** Destroying the stack of the example detaches its three layers, in
    stored order, and empties the registry. *)
Lemma destroyed_stack_hears_nothing_witness :
  let s' := Wiring.destructor true StackExample.vptr WiringExample.m_Listener
              WiringExample.stack WiringExample.app in
  m_pListeners WiringExample.boot = ∅
  /\ m_pListeners s' = ∅
  /\ Layer.user (Wiring.world (user s'))
     = Layer.user (Wiring.world (user WiringExample.app))
       ++ [(StackExample.L1, "OnDetach"); (StackExample.L2, "OnDetach");
           (StackExample.O, "OnDetach")].
Proof.
  intros s'.
  assert (Hempty : m_pListeners WiringExample.boot = ∅) by reflexivity.
  destruct (WiringFacts.destroyed_stack_hears_nothing true StackExample.vptr elements
              WiringExample.m_Listener (fun r => reflexivity (elements r))
              WiringExample.stack WiringExample.pushes WiringExample.boot
              StackExample.key_pressed Hempty)
    as (Hreg & Hw & _).
  split; [exact Hempty|]. split; [exact Hreg|].
  fold WiringExample.app in Hw. fold s' in Hw. rewrite Hw. reflexivity.
Defined.

(** The stack of the example, moved to address 20: a key press runs no
    hook. *)
Lemma moved_stack_listens_for_its_source_witness :
  let s' := Wiring.move_constructor true WiringExample.m_Listener 20%positive
              WiringExample.stack WiringExample.app in
  (m_pListeners WiringExample.boot = ∅
   /\ WiringExample.m_Listener 20%positive <> WiringExample.m_Listener WiringExample.stack)
  /\ (Wiring.members (user s') 20%positive).1
     = [Some StackExample.L1; Some StackExample.L2; Some StackExample.O]
  /\ m_Callback s' (WiringExample.m_Listener 20%positive)
     = Some (Wiring.OnEventOf WiringExample.stack)
  /\ exists s'' visits,
       Wiring.Dispatch StackExample.vptr elements StackExample.key_pressed s'
       = Some (StackExample.key_pressed, s'', visits)
       /\ Wiring.world (user s'') = Wiring.world (user s').
Proof.
  intros s'.
  assert (Hempty : m_pListeners WiringExample.boot = ∅) by reflexivity.
  assert (Hne : WiringExample.m_Listener 20%positive
                <> WiringExample.m_Listener WiringExample.stack) by discriminate.
  destruct (WiringFacts.moved_stack_listens_for_its_source true StackExample.vptr
              elements WiringExample.m_Listener (fun r => reflexivity (elements r))
              20%positive WiringExample.stack WiringExample.pushes WiringExample.boot
              StackExample.key_pressed Hempty Hne)
    as (Hm & _ & _ & _ & Hcb & s'' & visits & Hd & Hw & _).
  split; [split; assumption|].
  split; [fold WiringExample.app in Hm; fold s' in Hm; rewrite Hm; reflexivity|].
  split; [exact Hcb|].
  exists s'', visits. split; [exact Hd | exact Hw].
Defined.

(** ** The boundary after a move *)

(** C3.  The defaulted move constructor breaks the invariant.  The stack of
    the example, at address 10, holds [L1, L2, O] with boundary 2, a state
    its member functions reach.  After [LayerStack b(std::move(a))], with
    [b] at address 20, the target holds the three entries with boundary 2;
    the source, still an object of the program, holds no entry
    ([Size() == 0]) and its boundary is still 2: the boundary exceeds the
    length. *)
Lemma moved_from_boundary_exceeds_length :
  let before := Wiring.stack_at WiringExample.stack (user WiringExample.app)
                  (log WiringExample.app) in
  let s' := Wiring.move_constructor true WiringExample.m_Listener 20%positive
              WiringExample.stack WiringExample.app in
  let target := Wiring.stack_at 20%positive (user s') (log s') in
  let source := Wiring.stack_at WiringExample.stack (user s') (log s') in
  LayerStack.reachable true StackExample.vptr before
  /\ LayerStack.m_Layers before
     = [Some StackExample.L1; Some StackExample.L2; Some StackExample.O]
  /\ LayerStack.m_LayerInsertIndex before = 2
  /\ LayerStack.m_Layers target = LayerStack.m_Layers before
  /\ LayerStack.m_LayerInsertIndex target = 2
  /\ LayerStack.m_Layers source = []
  /\ LayerStack.Size source = 0
  /\ LayerStack.m_LayerInsertIndex source = 2
  /\ ~ (0 <= LayerStack.m_LayerInsertIndex source
          <= Z.of_nat (length (LayerStack.m_Layers source)))
  /\ ~ LayerStack.boundary_ok source.
Proof.
  intros before s' target source.
  assert (Hbefore : before = StackExample.three) by reflexivity.
  assert (Hl : LayerStack.m_Layers source = []) by reflexivity.
  assert (Hi : LayerStack.m_LayerInsertIndex source = 2) by reflexivity.
  split; [rewrite Hbefore; exact three_reachable|].
  split; [reflexivity|]. split; [reflexivity|].
  split; [reflexivity|]. split; [reflexivity|].
  split; [exact Hl|]. split; [unfold LayerStack.Size; rewrite Hl; reflexivity|].
  split; [exact Hi|].
  split; [rewrite Hl, Hi; simpl; lia|].
  unfold LayerStack.boundary_ok. rewrite Hl, Hi. simpl. lia.
Qed.
